(** * Trend tool: the chat client's [handleSend] and the query orchestrator

    The development embeds the two variants of the chat page's [handleSend]
    (the streaming one of [frontend/app/page.tsx], reading the
    [/api/query-stream] event stream, and the buffered one of
    [frontend/app/layout.tsx], posting to [/api/query]), together with
    [handleFollowUp], and the query orchestrator the page talks to, whose
    code is not among the sources and is modelled from its specification.

    JavaScript strings are [string]s whose characters stand for code units
    below 256; the text decoder run in streaming mode hands the reader loop
    the text of every chunk, and the chunks below are those texts. *)

From stdpp Require Import base option list sorting gmap strings.
From Stdlib Require Import Ascii ZArith Lia.


(** ** JavaScript string primitives used by the page *)

Module Js.

Definition newline : ascii := "010"%char.

(** White space and line terminators of [String.prototype.trim], restricted
    to code units below 256. *)
Definition is_whitespace (c : ascii) : bool :=
  match c with
  | "009" | "010" | "011" | "012" | "013" | " " | "160" => true
  | _ => false
  end%char.

Fixpoint trimStart (s : string) : string :=
  match s with
  | "" => ""
  | String c r => if is_whitespace c then trimStart r else s
  end.

Fixpoint trimEnd (s : string) : string :=
  match s with
  | "" => ""
  | String c r =>
      match trimEnd r with
      | "" => if is_whitespace c then "" else String c ""
      | r' => String c r'
      end
  end.

Definition trim (s : string) : string := trimEnd (trimStart s).

(** A string is truthy when it is not empty. *)
Definition truthy (s : string) : bool :=
  match s with "" => false | _ => true end.

Fixpoint startsWith (s p : string) : bool :=
  match p, s with
  | "", _ => true
  | String _ _, "" => false
  | String a p', String b s' => if decide (a = b) then startsWith s' p' else false
  end.

(** [s.slice(n)] for [0 <= n]. *)
Fixpoint slice (n : nat) (s : string) : string :=
  match n, s with
  | 0, _ => s
  | S _, "" => ""
  | S n', String _ r => slice n' r
  end.

(** [s.split("\n")] as a first piece and the list of the pieces after it:
    the result of [split] is never empty. *)
Fixpoint split_newline (s : string) : string * list string :=
  match s with
  | "" => ("", [])
  | String c r =>
      let '(h, t) := split_newline r in
      if decide (c = newline) then ("", h :: t) else (String c h, t)
  end.

(** [lines.pop()] on the non-empty array [h :: t]: the array left behind
    and the element removed from its end. *)
Fixpoint pop (h : string) (t : list string) : list string * string :=
  match t with
  | [] => ([], h)
  | h' :: t' => let '(l, x) := pop h' t' in (h :: l, x)
  end.

End Js.

(** ** Data model of the page *)

Module Source.
Record t := mk {
  gcs_name : string;
  name : string;
  industry : string;
  topics : list string;
  url : option string;
}.
End Source.

Inductive Role := user | assistant.

(** [sources], [context_id] and [elapsed] are optional fields; [None] is a
    field left out (or, for [context_id], also [null]). *)
Module ChatMessage.
Record t := mk {
  id : nat;
  role : Role;
  content : string;
  sources : option (list Source.t);
  context_id : option string;
  elapsed : option nat;
}.
End ChatMessage.

Module Industry.
Record t := mk { name : string; count : nat }.
End Industry.

Module Stats.
Record t := mk { indexed : nat; industries : nat; embeddings : nat }.
End Stats.

Module Phase.
Inductive t := searching | loading | answering.
End Phase.

(** An entry of [loadingDocs]; [Doc.t] is the [doc] of a loading event. *)
Module Doc.
Record t := mk { name : string; industry : string }.
End Doc.

Module LoadingDoc.
Record t := mk { name : string; industry : string; done : bool }.
End LoadingDoc.

(** The state a render of [Home] closes over: the sixteen [useState] and
    [useRef] cells that [handleSend] and [handleFollowUp] read or write (the
    buffered page declares the same cells except [elapsedRef],
    [loadingPhase], [loadingDocs] and [loadingTotal]), the module variable
    [msgIdCounter], and the window's set of running interval timers. Timer
    handles are positive integers, hence truthy. *)
Record State := mkState {
  messages : list ChatMessage.t;
  input : string;
  loading : bool;
  elapsed : nat;
  timerRef : option positive;
  elapsedRef : nat;
  industries : list Industry.t;
  selectedIndustries : list string;
  showPicker : bool;
  stats : option Stats.t;
  followUpMsgId : option nat;
  followUpSources : list Source.t;
  followUpContextId : option string;
  loadingPhase : option Phase.t;
  loadingDocs : list LoadingDoc.t;
  loadingTotal : nat;
  msgIdCounter : nat;
  intervals : gset positive;
}.

(** Assignment to one cell, the others kept. *)
Definition setMessages (v : list ChatMessage.t) (st : State) : State :=
  {| messages := v; input := input st; loading := loading st;
     elapsed := elapsed st; timerRef := timerRef st;
     elapsedRef := elapsedRef st; industries := industries st;
     selectedIndustries := selectedIndustries st;
     showPicker := showPicker st; stats := stats st;
     followUpMsgId := followUpMsgId st;
     followUpSources := followUpSources st;
     followUpContextId := followUpContextId st;
     loadingPhase := loadingPhase st; loadingDocs := loadingDocs st;
     loadingTotal := loadingTotal st; msgIdCounter := msgIdCounter st;
     intervals := intervals st |}.

Definition setInput (v : string) (st : State) : State :=
  {| messages := messages st; input := v; loading := loading st;
     elapsed := elapsed st; timerRef := timerRef st;
     elapsedRef := elapsedRef st; industries := industries st;
     selectedIndustries := selectedIndustries st;
     showPicker := showPicker st; stats := stats st;
     followUpMsgId := followUpMsgId st;
     followUpSources := followUpSources st;
     followUpContextId := followUpContextId st;
     loadingPhase := loadingPhase st; loadingDocs := loadingDocs st;
     loadingTotal := loadingTotal st; msgIdCounter := msgIdCounter st;
     intervals := intervals st |}.

Definition setLoading (v : bool) (st : State) : State :=
  {| messages := messages st; input := input st; loading := v;
     elapsed := elapsed st; timerRef := timerRef st;
     elapsedRef := elapsedRef st; industries := industries st;
     selectedIndustries := selectedIndustries st;
     showPicker := showPicker st; stats := stats st;
     followUpMsgId := followUpMsgId st;
     followUpSources := followUpSources st;
     followUpContextId := followUpContextId st;
     loadingPhase := loadingPhase st; loadingDocs := loadingDocs st;
     loadingTotal := loadingTotal st; msgIdCounter := msgIdCounter st;
     intervals := intervals st |}.

Definition setElapsed (v : nat) (st : State) : State :=
  {| messages := messages st; input := input st; loading := loading st;
     elapsed := v; timerRef := timerRef st; elapsedRef := elapsedRef st;
     industries := industries st;
     selectedIndustries := selectedIndustries st;
     showPicker := showPicker st; stats := stats st;
     followUpMsgId := followUpMsgId st;
     followUpSources := followUpSources st;
     followUpContextId := followUpContextId st;
     loadingPhase := loadingPhase st; loadingDocs := loadingDocs st;
     loadingTotal := loadingTotal st; msgIdCounter := msgIdCounter st;
     intervals := intervals st |}.

Definition setTimerRef (v : option positive) (st : State) : State :=
  {| messages := messages st; input := input st; loading := loading st;
     elapsed := elapsed st; timerRef := v; elapsedRef := elapsedRef st;
     industries := industries st;
     selectedIndustries := selectedIndustries st;
     showPicker := showPicker st; stats := stats st;
     followUpMsgId := followUpMsgId st;
     followUpSources := followUpSources st;
     followUpContextId := followUpContextId st;
     loadingPhase := loadingPhase st; loadingDocs := loadingDocs st;
     loadingTotal := loadingTotal st; msgIdCounter := msgIdCounter st;
     intervals := intervals st |}.

Definition setElapsedRef (v : nat) (st : State) : State :=
  {| messages := messages st; input := input st; loading := loading st;
     elapsed := elapsed st; timerRef := timerRef st; elapsedRef := v;
     industries := industries st;
     selectedIndustries := selectedIndustries st;
     showPicker := showPicker st; stats := stats st;
     followUpMsgId := followUpMsgId st;
     followUpSources := followUpSources st;
     followUpContextId := followUpContextId st;
     loadingPhase := loadingPhase st; loadingDocs := loadingDocs st;
     loadingTotal := loadingTotal st; msgIdCounter := msgIdCounter st;
     intervals := intervals st |}.

Definition setFollowUpMsgId (v : option nat) (st : State) : State :=
  {| messages := messages st; input := input st; loading := loading st;
     elapsed := elapsed st; timerRef := timerRef st;
     elapsedRef := elapsedRef st; industries := industries st;
     selectedIndustries := selectedIndustries st;
     showPicker := showPicker st; stats := stats st; followUpMsgId := v;
     followUpSources := followUpSources st;
     followUpContextId := followUpContextId st;
     loadingPhase := loadingPhase st; loadingDocs := loadingDocs st;
     loadingTotal := loadingTotal st; msgIdCounter := msgIdCounter st;
     intervals := intervals st |}.

Definition setFollowUpSources (v : list Source.t) (st : State) : State :=
  {| messages := messages st; input := input st; loading := loading st;
     elapsed := elapsed st; timerRef := timerRef st;
     elapsedRef := elapsedRef st; industries := industries st;
     selectedIndustries := selectedIndustries st;
     showPicker := showPicker st; stats := stats st;
     followUpMsgId := followUpMsgId st; followUpSources := v;
     followUpContextId := followUpContextId st;
     loadingPhase := loadingPhase st; loadingDocs := loadingDocs st;
     loadingTotal := loadingTotal st; msgIdCounter := msgIdCounter st;
     intervals := intervals st |}.

Definition setFollowUpContextId (v : option string) (st : State) : State :=
  {| messages := messages st; input := input st; loading := loading st;
     elapsed := elapsed st; timerRef := timerRef st;
     elapsedRef := elapsedRef st; industries := industries st;
     selectedIndustries := selectedIndustries st;
     showPicker := showPicker st; stats := stats st;
     followUpMsgId := followUpMsgId st;
     followUpSources := followUpSources st; followUpContextId := v;
     loadingPhase := loadingPhase st; loadingDocs := loadingDocs st;
     loadingTotal := loadingTotal st; msgIdCounter := msgIdCounter st;
     intervals := intervals st |}.

Definition setLoadingPhase (v : option Phase.t) (st : State) : State :=
  {| messages := messages st; input := input st; loading := loading st;
     elapsed := elapsed st; timerRef := timerRef st;
     elapsedRef := elapsedRef st; industries := industries st;
     selectedIndustries := selectedIndustries st;
     showPicker := showPicker st; stats := stats st;
     followUpMsgId := followUpMsgId st;
     followUpSources := followUpSources st;
     followUpContextId := followUpContextId st; loadingPhase := v;
     loadingDocs := loadingDocs st; loadingTotal := loadingTotal st;
     msgIdCounter := msgIdCounter st; intervals := intervals st |}.

Definition setLoadingDocs (v : list LoadingDoc.t) (st : State) : State :=
  {| messages := messages st; input := input st; loading := loading st;
     elapsed := elapsed st; timerRef := timerRef st;
     elapsedRef := elapsedRef st; industries := industries st;
     selectedIndustries := selectedIndustries st;
     showPicker := showPicker st; stats := stats st;
     followUpMsgId := followUpMsgId st;
     followUpSources := followUpSources st;
     followUpContextId := followUpContextId st;
     loadingPhase := loadingPhase st; loadingDocs := v;
     loadingTotal := loadingTotal st; msgIdCounter := msgIdCounter st;
     intervals := intervals st |}.

Definition setLoadingTotal (v : nat) (st : State) : State :=
  {| messages := messages st; input := input st; loading := loading st;
     elapsed := elapsed st; timerRef := timerRef st;
     elapsedRef := elapsedRef st; industries := industries st;
     selectedIndustries := selectedIndustries st;
     showPicker := showPicker st; stats := stats st;
     followUpMsgId := followUpMsgId st;
     followUpSources := followUpSources st;
     followUpContextId := followUpContextId st;
     loadingPhase := loadingPhase st; loadingDocs := loadingDocs st;
     loadingTotal := v; msgIdCounter := msgIdCounter st;
     intervals := intervals st |}.

Definition setMsgIdCounter (v : nat) (st : State) : State :=
  {| messages := messages st; input := input st; loading := loading st;
     elapsed := elapsed st; timerRef := timerRef st;
     elapsedRef := elapsedRef st; industries := industries st;
     selectedIndustries := selectedIndustries st;
     showPicker := showPicker st; stats := stats st;
     followUpMsgId := followUpMsgId st;
     followUpSources := followUpSources st;
     followUpContextId := followUpContextId st;
     loadingPhase := loadingPhase st; loadingDocs := loadingDocs st;
     loadingTotal := loadingTotal st; msgIdCounter := v;
     intervals := intervals st |}.

Definition setIntervals (v : gset positive) (st : State) : State :=
  {| messages := messages st; input := input st; loading := loading st;
     elapsed := elapsed st; timerRef := timerRef st;
     elapsedRef := elapsedRef st; industries := industries st;
     selectedIndustries := selectedIndustries st;
     showPicker := showPicker st; stats := stats st;
     followUpMsgId := followUpMsgId st;
     followUpSources := followUpSources st;
     followUpContextId := followUpContextId st;
     loadingPhase := loadingPhase st; loadingDocs := loadingDocs st;
     loadingTotal := loadingTotal st; msgIdCounter := msgIdCounter st;
     intervals := v |}.

(** ** Requests, responses and effects *)

(** A value of the request body, a [Record<string, unknown>] holding a
    string, an array of strings or [null]. The body itself is a
    [gmap string BodyValue]. *)
Inductive BodyValue :=
  | VString (s : string)
  | VStrings (l : list string)
  | VNull.

(** The [answer], [sources] and [context_id] fields of an answer event and
    of the buffered endpoint's response. *)
Module Answer.
Record t := mk {
  answer : string;
  sources : list Source.t;
  context_id : option string;
}.
End Answer.

(** An event record of the stream, by its [type] field; [EvOther] is a
    record whose [type] is none of the six, which the dispatch skips. *)
Inductive StreamEvent :=
  | EvSearching
  | EvFound (total : nat)
  | EvLoading (doc : Doc.t)
  | EvAnswering
  | EvAnswer (a : Answer.t)
  | EvError (message : string)
  | EvOther.

(** What [await fetch(...)] gives: a rejected promise, or a response with its
    [ok] flag and its payload. [ticks] counts the runs of the interval
    callback while the promise was pending. *)
Inductive Fetched (R : Type) :=
  | NetworkError (ticks : nat)
  | Response (ticks : nat) (ok : bool) (payload : R).
Arguments NetworkError {R} ticks.
Arguments Response {R} ticks ok payload.

(** The body of a streamed response, which a response that is [ok] always
    has: the successive results of [reader.read()], finitely many, each
    with the ticks that passed while it was pending and the text of its
    chunk, then either [done] or a rejected read. *)
Record Stream := mkStream {
  reads : list (nat * string);
  end_ticks : nat;
  end_done : bool;
}.

(** The body of a buffered response: [await res.json()], [None] when it
    rejects. *)
Record Json := mkJson {
  json_ticks : nat;
  json_data : option Answer.t;
}.

Inductive Effect :=
  | Fetch (url : string) (body : gmap string BodyValue)
  | Dispatch (event : StreamEvent)
  | FocusTextarea.

(** How a block ends: normally, or by a [throw]; the state written so far
    stays written. *)
Inductive Completion :=
  | Normal (st : State)
  | Throw (st : State).

Definition fallbackText : string :=
  "Something went wrong. Make sure the API is running (`make api`).".

Definition clearInterval (st : State) : State :=
  match timerRef st with
  | Some h => setIntervals (intervals st ∖ {[h]}) st
  | None => st
  end.

Definition handleFollowUp (msgId : nat) (sources : list Source.t)
    (contextId : option string) (st : State) : State :=
  if bool_decide (length sources = 0) then
    setFollowUpContextId None (setFollowUpSources [] (setFollowUpMsgId None st))
  else
    setFollowUpContextId contextId
      (setFollowUpSources sources (setFollowUpMsgId (Some msgId) st)).

(** The [Clear] button of the follow-up banner. *)
Definition clearFollowUp (st : State) : State :=
  setFollowUpContextId None (setFollowUpSources [] (setFollowUpMsgId None st)).

(** The textarea's [onChange]. *)
Definition typeInput (text : string) (st : State) : State := setInput text st.

(** ** The streaming page *)

Module Streaming.
Section Page.

Variable API : string.
(** [JSON.parse] of the text after the [data: ] prefix, read at the types of
    the event records; [None] when it throws. *)
Variable JSON_parse : string → option StreamEvent.
Variable fetch : string → gmap string BodyValue → Fetched Stream.

(** One run of the interval callback
    [setElapsed((s) => { elapsedRef.current = s + 1; return s + 1; })]. *)
Definition tick (st : State) : State :=
  setElapsed (elapsed st + 1) (setElapsedRef (elapsed st + 1) st).

Definition ticks (n : nat) (st : State) : State := Nat.iter n tick st.

(** The statements of [handleSend] before its [try]. State updaters are
    applied in the order they are queued. *)
Definition begin (q : string) (st : State) : State :=
  let st := setMsgIdCounter (S (msgIdCounter st)) st in
  let st :=
    setMessages
      (messages st ++ [ChatMessage.mk (msgIdCounter st) user q None None None])
      st in
  let st := setInput "" st in
  let st := setElapsed 0 st in
  let st := setElapsedRef 0 st in
  let st := setLoading true st in
  let st := setLoadingPhase (Some Phase.searching) st in
  let st := setLoadingDocs [] st in
  let st := setLoadingTotal 0 st in
  let h := fresh (intervals st) in
  setTimerRef (Some h) (setIntervals ({[h]} ∪ intervals st) st).

Definition request_body (q : string) (st : State) : gmap string BodyValue :=
  let body : gmap string BodyValue := {[ "question" := VString q ]} in
  let pinned := bool_decide (0 < length (followUpSources st)) in
  let otherwise :=
    if pinned then
      <["pinned_gcs_names" := VStrings (Source.gcs_name <$> followUpSources st)]> body
    else
      <["industry_filter" :=
          if bool_decide (0 < length (selectedIndustries st))
          then VStrings (selectedIndustries st) else VNull]> body in
  match followUpContextId st with
  | Some h =>
      if pinned && Js.truthy h then <["context_id" := VString h]> body
      else otherwise
  | None => otherwise
  end.

Definition markDone (d : LoadingDoc.t) : LoadingDoc.t :=
  LoadingDoc.mk (LoadingDoc.name d) (LoadingDoc.industry d) true.

(** The dispatch on [event.type] inside the reader loop. *)
Definition handle_event (event : StreamEvent) (st : State) : Completion :=
  match event with
  | EvSearching => Normal (setLoadingPhase (Some Phase.searching) st)
  | EvFound total =>
      Normal (setLoadingPhase (Some Phase.loading) (setLoadingTotal total st))
  | EvLoading doc =>
      let prev := loadingDocs st in
      Normal
        (setLoadingDocs
           (imap (λ i d, if decide (S i = length prev) then markDone d else d) prev
              ++ [LoadingDoc.mk (Doc.name doc) (Doc.industry doc) false])
           st)
  | EvAnswering =>
      let st := setLoadingPhase (Some Phase.answering) st in
      Normal (setLoadingDocs (markDone <$> loadingDocs st) st)
  | EvAnswer a =>
      let st := setMsgIdCounter (S (msgIdCounter st)) st in
      Normal
        (setMessages
           (messages st ++
              [ChatMessage.mk (msgIdCounter st) assistant (Answer.answer a)
                 (Some (Answer.sources a)) (Answer.context_id a)
                 (Some (elapsedRef st))])
           st)
  | EvError message => Throw st
  | EvOther => Normal st
  end.

(** [for (const line of lines)]. *)
Fixpoint for_lines (lines : list string) (st : State)
    : Completion * list Effect :=
  match lines with
  | [] => (Normal st, [])
  | line :: rest =>
      if negb (Js.startsWith line "data: ") then for_lines rest st
      else
        match JSON_parse (Js.slice 6 line) with
        | None => (Throw st, [])
        | Some event =>
            match handle_event event st with
            | Throw st' => (Throw st', [Dispatch event])
            | Normal st' =>
                let '(c, log) := for_lines rest st' in
                (c, Dispatch event :: log)
            end
        end
  end.

(** [while (true)] over the reads of the stream [body]. *)
Fixpoint read_loop (body : Stream) (pending : list (nat * string))
    (buffer : string) (st : State) : Completion * list Effect :=
  match pending with
  | [] =>
      let st := ticks (end_ticks body) st in
      (if end_done body then Normal st else Throw st, [])
  | (t, value) :: rest =>
      let st := ticks t st in
      let buffer := buffer +:+ value in
      let '(h, tl) := Js.split_newline buffer in
      let '(lines, last) := Js.pop h tl in
      match for_lines lines st with
      | (Throw st', log) => (Throw st', log)
      | (Normal st', log) =>
          let '(c, log') := read_loop body rest last st' in
          (c, log ++ log')
      end
  end.

(** The [try] block, entered in state [st] with the body [b]. *)
Definition try_block (b : gmap string BodyValue) (st : State)
    : Completion * list Effect :=
  match fetch (API +:+ "/api/query-stream") b with
  | NetworkError t => (Throw (ticks t st), [])
  | Response t ok body =>
      let st := ticks t st in
      if negb ok then (Throw st, [])
      else read_loop body (reads body) "" st
  end.

Definition catch (st : State) : State :=
  let st := setMsgIdCounter (S (msgIdCounter st)) st in
  setMessages
    (messages st ++
       [ChatMessage.mk (msgIdCounter st) assistant fallbackText None None None])
    st.

Definition finally (st : State) : State :=
  setLoadingTotal 0
    (setLoadingDocs [] (setLoadingPhase None (setLoading false (clearInterval st)))).

Definition handleSend (st : State) : State * list Effect :=
  let q := Js.trim (input st) in
  if negb (Js.truthy q) || loading st then (st, [])
  else
    let b := request_body q st in
    let '(c, log) := try_block b (begin q st) in
    let st' := match c with Normal s => s | Throw s => catch s end in
    (finally st', Fetch (API +:+ "/api/query-stream") b :: log ++ [FocusTextarea]).

End Page.
End Streaming.

(** ** The buffered page *)

Module Buffered.
Section Page.

Variable API : string.
Variable fetch : string → gmap string BodyValue → Fetched Json.

(** One run of the interval callback [setElapsed((s) => s + 1)]. *)
Definition tick (st : State) : State := setElapsed (elapsed st + 1) st.

Definition ticks (n : nat) (st : State) : State := Nat.iter n tick st.

Definition begin (q : string) (st : State) : State :=
  let st := setMsgIdCounter (S (msgIdCounter st)) st in
  let st :=
    setMessages
      (messages st ++ [ChatMessage.mk (msgIdCounter st) user q None None None])
      st in
  let st := setInput "" st in
  let st := setElapsed 0 st in
  let st := setLoading true st in
  let h := fresh (intervals st) in
  setTimerRef (Some h) (setIntervals ({[h]} ∪ intervals st) st).

Definition request_body (q : string) (st : State) : gmap string BodyValue :=
  let body : gmap string BodyValue := {[ "question" := VString q ]} in
  let pinned := bool_decide (0 < length (followUpSources st)) in
  let otherwise :=
    if pinned then
      <["pinned_gcs_names" := VStrings (Source.gcs_name <$> followUpSources st)]> body
    else
      <["industry_filter" :=
          if bool_decide (0 < length (selectedIndustries st))
          then VStrings (selectedIndustries st) else VNull]> body in
  match followUpContextId st with
  | Some h =>
      if pinned && Js.truthy h then <["context_id" := VString h]> body
      else otherwise
  | None => otherwise
  end.

(** The [try] block. [shown] is the [elapsed] of the render that created
    this [handleSend]: the appended message reads the closed-over constant,
    not the cell the timer writes. *)
Definition try_block (shown : nat) (b : gmap string BodyValue) (st : State)
    : Completion :=
  match fetch (API +:+ "/api/query") b with
  | NetworkError t => Throw (ticks t st)
  | Response t ok res =>
      let st := ticks t st in
      if negb ok then Throw st
      else
        let st := ticks (json_ticks res) st in
        match json_data res with
        | None => Throw st
        | Some data =>
            let st := setMsgIdCounter (S (msgIdCounter st)) st in
            Normal
              (setMessages
                 (messages st ++
                    [ChatMessage.mk (msgIdCounter st) assistant
                       (Answer.answer data) (Some (Answer.sources data))
                       (Answer.context_id data) (Some shown)])
                 st)
        end
  end.

Definition catch (st : State) : State :=
  let st := setMsgIdCounter (S (msgIdCounter st)) st in
  setMessages
    (messages st ++
       [ChatMessage.mk (msgIdCounter st) assistant fallbackText None None None])
    st.

Definition finally (st : State) : State := setLoading false (clearInterval st).

Definition handleSend (st : State) : State * list Effect :=
  let q := Js.trim (input st) in
  if negb (Js.truthy q) || loading st then (st, [])
  else
    let b := request_body q st in
    let c := try_block (elapsed st) b (begin q st) in
    let st' := match c with Normal s => s | Throw s => catch s end in
    (finally st', [Fetch (API +:+ "/api/query") b; FocusTextarea]).

End Page.
End Buffered.

(** ** The other handlers of the page, and what it renders when *)

Definition setIndustries (v : list Industry.t) (st : State) : State :=
  {| messages := messages st; input := input st; loading := loading st;
     elapsed := elapsed st; timerRef := timerRef st;
     elapsedRef := elapsedRef st; industries := v;
     selectedIndustries := selectedIndustries st;
     showPicker := showPicker st; stats := stats st;
     followUpMsgId := followUpMsgId st;
     followUpSources := followUpSources st;
     followUpContextId := followUpContextId st;
     loadingPhase := loadingPhase st; loadingDocs := loadingDocs st;
     loadingTotal := loadingTotal st; msgIdCounter := msgIdCounter st;
     intervals := intervals st |}.

Definition setSelectedIndustries (v : list string) (st : State) : State :=
  {| messages := messages st; input := input st; loading := loading st;
     elapsed := elapsed st; timerRef := timerRef st;
     elapsedRef := elapsedRef st; industries := industries st;
     selectedIndustries := v; showPicker := showPicker st; stats := stats st;
     followUpMsgId := followUpMsgId st;
     followUpSources := followUpSources st;
     followUpContextId := followUpContextId st;
     loadingPhase := loadingPhase st; loadingDocs := loadingDocs st;
     loadingTotal := loadingTotal st; msgIdCounter := msgIdCounter st;
     intervals := intervals st |}.

Definition setShowPicker (v : bool) (st : State) : State :=
  {| messages := messages st; input := input st; loading := loading st;
     elapsed := elapsed st; timerRef := timerRef st;
     elapsedRef := elapsedRef st; industries := industries st;
     selectedIndustries := selectedIndustries st; showPicker := v;
     stats := stats st; followUpMsgId := followUpMsgId st;
     followUpSources := followUpSources st;
     followUpContextId := followUpContextId st;
     loadingPhase := loadingPhase st; loadingDocs := loadingDocs st;
     loadingTotal := loadingTotal st; msgIdCounter := msgIdCounter st;
     intervals := intervals st |}.

Definition setStats (v : option Stats.t) (st : State) : State :=
  {| messages := messages st; input := input st; loading := loading st;
     elapsed := elapsed st; timerRef := timerRef st;
     elapsedRef := elapsedRef st; industries := industries st;
     selectedIndustries := selectedIndustries st;
     showPicker := showPicker st; stats := v;
     followUpMsgId := followUpMsgId st;
     followUpSources := followUpSources st;
     followUpContextId := followUpContextId st;
     loadingPhase := loadingPhase st; loadingDocs := loadingDocs st;
     loadingTotal := loadingTotal st; msgIdCounter := msgIdCounter st;
     intervals := intervals st |}.
(** The state of a page just mounted. *)
Definition initialState : State :=
  mkState [] "" false 0 None 0 [] [] false None None [] None None [] 0 0 ∅.

Definition toggleIndustry (name : string) (st : State) : State :=
  setSelectedIndustries
    (if bool_decide (name ∈ selectedIndustries st)
     then filter (λ n, n ≠ name) (selectedIndustries st)
     else selectedIndustries st ++ [name])
    st.

(** The [Clear all] button and the cross of the picker. *)
Definition clearIndustries (st : State) : State := setSelectedIndustries [] st.

(** The keyboard event handed to [handleKeyDown]: the key, whether Shift
    is held, and whether the default action of the key, which for Enter in
    the textarea is to insert a newline, has been prevented. *)
Module KeyboardEvent.
Record t := mk {
  key : string;
  shiftKey : bool;
  defaultPrevented : bool;
}.
End KeyboardEvent.

Definition preventDefault (e : KeyboardEvent.t) : KeyboardEvent.t :=
  KeyboardEvent.mk (KeyboardEvent.key e) (KeyboardEvent.shiftKey e) true.

(** [handleKeyDown], for the [handleSend] of the page: the event as the
    handler leaves it, and what the page does. *)
Definition handleKeyDown (send : State → State * list Effect)
    (e : KeyboardEvent.t) (st : State)
    : KeyboardEvent.t * (State * list Effect) :=
  if bool_decide (KeyboardEvent.key e = "Enter")
     && negb (KeyboardEvent.shiftKey e)
  then (preventDefault e, send st)
  else (e, (st, [])).


(** The conditions under which the follow-up banner, the industry pills
    and the suggested questions are rendered. *)
Definition followUpBannerShown (st : State) : bool :=
  bool_decide (0 < length (followUpSources st)).

Definition industryPillsShown (st : State) : bool :=
  bool_decide (length (followUpSources st) = 0)
  && bool_decide (0 < length (selectedIndustries st)).

Definition suggestionsShown (st : State) : bool :=
  bool_decide (length (messages st) = 0).

Definition suggestions : list string :=
  ["What are the biggest consumer trends for 2026?";
   "What do reports say about AI adoption in marketing?";
   "Which industries are forecasting the most growth?"].

(** The follow-up toggle of the [Message] component: rendered under an
    assistant message that has sources. *)
Definition followUpButtonShown (m : ChatMessage.t) : bool :=
  match ChatMessage.role m, ChatMessage.sources m with
  | assistant, Some (_ :: _) => true
  | _, _ => false
  end.

Definition isFollowUpActive (m : ChatMessage.t) (st : State) : bool :=
  bool_decide (followUpMsgId st = Some (ChatMessage.id m)).

(** A click on the toggle of the message [m]:
    [onFollowUp(isFollowUpActive ? [] : sources)] with the page's
    [handleFollowUp(msg.id, sources, msg.context_id ?? null)]. *)
Definition clickFollowUp (m : ChatMessage.t) (st : State) : State :=
  if followUpButtonShown m then
    handleFollowUp (ChatMessage.id m)
      (if isFollowUpActive m st then []
       else default [] (ChatMessage.sources m))
      (ChatMessage.context_id m) st
  else st.

(** What the user and the two mount-time fetches can do to the page. A
    send runs to its end before the next event. *)
Inductive UiEvent :=
  | IndustriesLoaded (l : list Industry.t)
  | StatsLoaded (s : Stats.t)
  | Typed (text : string)
  | SendClicked
  | KeyPressed (key : string) (shiftKey : bool)
  | SuggestionClicked (index : nat)
  | PickerToggled
  | ClickedOutsidePicker
  | IndustryToggled (name : string)
  | IndustriesCleared
  | FollowUpClicked (index : nat)
  | FollowUpCleared.

Definition ui_step (send : State → State * list Effect) (st : State)
    (e : UiEvent) : State :=
  match e with
  | IndustriesLoaded l => setIndustries l st
  | StatsLoaded s => setStats (Some s) st
  | Typed text => typeInput text st
  | SendClicked => (send st).1
  | KeyPressed key shiftKey =>
      (handleKeyDown send (KeyboardEvent.mk key shiftKey false) st).2.1
  | SuggestionClicked index =>
      match suggestions !! index with
      | Some s => if suggestionsShown st then setInput s st else st
      | None => st
      end
  | PickerToggled => setShowPicker (negb (showPicker st)) st
  | ClickedOutsidePicker => setShowPicker false st
  | IndustryToggled name => toggleIndustry name st
  | IndustriesCleared => clearIndustries st
  | FollowUpClicked index =>
      match messages st !! index with
      | Some m => clickFollowUp m st
      | None => st
      end
  | FollowUpCleared =>
      if followUpBannerShown st then clearFollowUp st else st
  end.

Definition ui_run (send : State → State * list Effect) (events : list UiEvent)
    (st : State) : State :=
  foldl (ui_step send) st events.

(** ** The query orchestrator *)

Module Orchestrator.

(** Modelled from the spec: the server behind [/api/query] and
    [/api/query-stream] is not among the sources; a [ChunkRef] is the
    retrieved unit of text of the data model (the relevance score is an
    integer here). *)
Record ChunkRef := mkChunkRef {
  chunk_id : string;
  document_id : string;
  text : string;
  industry : string;
  topics : list string;
  url : option string;
  score : Z;
}.

(** Modelled from the spec: the tagged variant restricting the candidates
    of a retrieval. *)
Inductive RetrievalFilter :=
  | Unrestricted
  | ByIndustries (names : list string)
  | ByDocuments (ids : list string).

(** Modelled from the spec: the cached unit behind a context handle. *)
Record QueryContext := mkQueryContext {
  handle : string;
  chunks : list ChunkRef;
  created : nat;
  question : string;
}.

(** Modelled from the spec: the three request shapes, mutually exclusive by
    construction; a fresh question carries its optional industry filter. *)
Inductive QueryRequest :=
  | Fresh (q : string) (industry_filter : option (list string))
  | FollowUp (q : string) (contextHandle : string)
  | Pinned (q : string) (pinnedDocumentIds : list string).

(** Modelled from the spec: an entry of the source list, one per document. *)
Record SourceDoc := mkSourceDoc {
  gcs_name : string;
  name : string;
  source_industry : string;
  source_topics : list string;
  source_url : option string;
}.

(** Modelled from the spec: the synthesized answer with its sources, the
    newly issued handle and the elapsed wall time. *)
Record AnswerResult := mkAnswerResult {
  answer : string;
  sources : list SourceDoc;
  context_id : string;
  elapsed : nat;
}.

(** Modelled from the spec: the phase events of the streaming protocol. *)
Inductive PhaseEvent :=
  | Searching
  | Found (total : nat)
  | Loading (name industry : string)
  | Answering
  | Answer (result : AnswerResult)
  | Error (message : string).

(** Modelled from the spec: what a call to an external capability gives, a
    value or a failure (a time-out included) with its message. *)
Inductive Outcome (A : Type) :=
  | Ok (a : A)
  | Failed (message : string).
Arguments Ok {A} a.
Arguments Failed {A} message.

(** Modelled from the spec: the result of [ContextCache.load]. *)
Inductive Loaded :=
  | Hit (cs : list ChunkRef)
  | Miss.

(** Modelled from the spec: what one run of the orchestrator does: the
    events it emits in order, the calls it makes to the synthesizer, and the
    cache it leaves. *)
Record Run := mkRun {
  events : list PhaseEvent;
  synthesized : list (string * list ChunkRef);
  cache_after : gmap string QueryContext;
}.

Section Machine.

(** The external capabilities and the configured constants. *)
Variable retrieve : string → RetrievalFilter → nat → Outcome (list ChunkRef).
Variable synthesize : string → list ChunkRef → Outcome string.
Variable document_name : string → string.
Variable new_handle : gmap string QueryContext → string.
Variable topK : nat.
Variable ttl : nat.

(** Modelled from the spec: [ContextCache.load] of the server's context
    cache, which is not among the sources: a miss when the handle is unknown
    or its entry is older than the time to live. *)
Definition load (cache : gmap string QueryContext) (now : nat) (h : string)
    : Loaded :=
  match cache !! h with
  | Some ctx => if bool_decide (now < created ctx + ttl) then Hit (chunks ctx) else Miss
  | None => Miss
  end.

(** Modelled from the spec: [ContextCache.store] of the server's context
    cache, which is not among the sources: it always succeeds and records
    the creation time under a newly generated handle. *)
Definition store (cache : gmap string QueryContext) (now : nat) (q : string)
    (cs : list ChunkRef) : string * gmap string QueryContext :=
  let h := new_handle cache in
  (h, <[h := mkQueryContext h cs now q]> cache).

(** Modelled from the spec: [ContextCache.evict]. *)
Definition evict (cache : gmap string QueryContext) (h : string)
    : gmap string QueryContext :=
  delete h cache.

(** Modelled from the spec: the first chunk of every distinct owning
    document, in retrieval-rank order. *)
Fixpoint distinct_documents (seen : list string) (cs : list ChunkRef)
    : list ChunkRef :=
  match cs with
  | [] => []
  | c :: rest =>
      if bool_decide (document_id c ∈ seen) then distinct_documents seen rest
      else c :: distinct_documents (document_id c :: seen) rest
  end.

(** Modelled from the spec: the source card of a document. *)
Definition source_of (c : ChunkRef) : SourceDoc :=
  mkSourceDoc (document_id c) (document_name (document_id c)) (industry c)
    (topics c) (url c).

(** Modelled from the spec: steps 5 and 6 of the orchestrator's state
    machine, which is not among the sources: [Answering] and [Terminal].
    The context is stored only when the synthesis succeeds. *)
Definition answering (q : string) (cs : list ChunkRef)
    (cache : gmap string QueryContext) (now wall : nat) : Run :=
  match synthesize q cs with
  | Failed message => mkRun [Answering; Error message] [(q, cs)] cache
  | Ok text =>
      let '(h, cache') := store cache now q cs in
      mkRun
        [Answering;
         Answer (mkAnswerResult text (source_of <$> distinct_documents [] cs) h wall)]
        [(q, cs)] cache'
  end.

(** Modelled from the spec: steps 2 to 4 of the orchestrator's state
    machine, which is not among the sources: [Searching], [Found] with the
    number of distinct owning documents, one [Loading] per such document in
    retrieval-rank order, followed by the answering steps; a retrieval that
    fails ends the run with [Error]. *)
Definition searching (q : string) (filter : RetrievalFilter)
    (cache : gmap string QueryContext) (now wall : nat) : Run :=
  match retrieve q filter topK with
  | Failed message => mkRun [Searching; Error message] [] cache
  | Ok cs =>
      let docs := distinct_documents [] cs in
      let r := answering q cs cache now wall in
      mkRun
        (Searching :: Found (length docs)
           :: ((λ c, Loading (document_name (document_id c)) (industry c)) <$> docs)
           ++ events r)
        (synthesized r) (cache_after r)
  end.

(** Modelled from the spec: step 1 of the orchestrator's state machine,
    which is not among the sources: [Start] classifies the request; a handle
    that loads goes straight to the answering steps with the cached chunks,
    a miss retrieves afresh without restriction (the request carries no
    pinned ids), pinned ids retrieve by documents, a fresh question by its
    filter. *)
Definition handle_request (req : QueryRequest)
    (cache : gmap string QueryContext) (now wall : nat) : Run :=
  match req with
  | FollowUp q h =>
      match load cache now h with
      | Hit cs => answering q cs cache now wall
      | Miss => searching q Unrestricted cache now wall
      end
  | Pinned q ids => searching q (ByDocuments ids) cache now wall
  | Fresh q None => searching q Unrestricted cache now wall
  | Fresh q (Some names) => searching q (ByIndustries names) cache now wall
  end.

(** Modelled from the spec: the buffered surface, the same machine with
    only the terminal event returned. *)
Definition handle_buffered (req : QueryRequest)
    (cache : gmap string QueryContext) (now wall : nat) : option PhaseEvent :=
  last (events (handle_request req cache now wall)).

End Machine.

Definition is_searching (e : PhaseEvent) : bool :=
  match e with Searching => true | _ => false end.
Definition is_found (e : PhaseEvent) : bool :=
  match e with Found _ => true | _ => false end.
Definition is_loading (e : PhaseEvent) : bool :=
  match e with Loading _ _ => true | _ => false end.
Definition is_answering (e : PhaseEvent) : bool :=
  match e with Answering => true | _ => false end.
Definition is_terminal (e : PhaseEvent) : bool :=
  match e with Answer _ | Error _ => true | _ => false end.

(** [precedes p q l]: in [l], every event satisfying [p] comes before every
    event satisfying [q]. *)
Definition precedes (p q : PhaseEvent → bool) (l : list PhaseEvent) : Prop :=
  ∀ i j x y, l !! i = Some x → l !! j = Some y → p x = true → q y = true → i < j.

(** The position of an event in the protocol's order of phases. *)
Definition phase_rank (e : PhaseEvent) : nat :=
  match e with
  | Searching => 0
  | Found _ => 1
  | Loading _ _ => 2
  | Answering => 3
  | Answer _ | Error _ => 4
  end.

Definition rank_le (x y : PhaseEvent) : Prop := phase_rank x ≤ phase_rank y.

(** The three shapes of the events of a run: the fast path, a retrieval
    that fails, and a retrieval followed by the answering steps. *)
Inductive run_shape : list PhaseEvent → Prop :=
  | shape_fast t :
      is_terminal t = true → run_shape [Answering; t]
  | shape_no_retrieval message :
      run_shape [Searching; Error message]
  | shape_retrieved n loadings t :
      Forall (λ e, is_loading e = true) loadings → is_terminal t = true →
      run_shape (Searching :: Found n :: loadings ++ [Answering; t]).

Section Cancellation.

Variable retrieve : string → RetrievalFilter → nat → Outcome (list ChunkRef).
Variable synthesize : string → list ChunkRef → Outcome string.
Variable document_name : string → string.
Variable new_handle : gmap string QueryContext → string.
Variable topK : nat.
Variable ttl : nat.

(** Modelled from the spec: the cancellation rule of the concurrency model,
    for the server that is not among the sources. [patience] is how many
    events the client receives before it disconnects, [None] for a client
    that stays to the end. When the client leaves mid-stream the run stops
    emitting after the events delivered and stores nothing; the synthesizer,
    called once [Answering] is emitted, has its result discarded. *)
Definition handle_request_until (patience : option nat) (req : QueryRequest)
    (cache : gmap string QueryContext) (now wall : nat) : Run :=
  let r := handle_request retrieve synthesize document_name new_handle topK ttl
             req cache now wall in
  match patience with
  | Some k =>
      if bool_decide (k < length (events r)) then
        let delivered := take k (events r) in
        mkRun delivered
          (if existsb is_answering delivered then synthesized r else [])
          cache
      else r
  | None => r
  end.

End Cancellation.

(** The client disconnects before the last of [n] events is delivered. *)
Definition leaves_early (patience : option nat) (n : nat) : Prop :=
  ∃ k, patience = Some k ∧ k < n.

(** The ordering invariant of the phase events with each of its clauses
    taken in full: the events that occur are in the order of the phases,
    and the sequence ends with its one terminal event, which has an
    [Answering] before it and nothing after it. *)
Definition ordering_invariant (l : list PhaseEvent) : Prop :=
  precedes is_searching is_found l
  ∧ precedes is_found is_loading l
  ∧ precedes is_loading is_answering l
  ∧ ∃ pre t, l = pre ++ [t] ∧ is_terminal t = true
             ∧ Forall (λ e, is_terminal e = false) pre
             ∧ Answering ∈ pre.

End Orchestrator.

(** ** Vocabulary of the statements *)

(** The text of a stream: its chunks in order. *)
Definition stream_text (pending : list (nat * string)) : string :=
  foldr (λ p acc, p.2 +:+ acc) "" pending.

(** The lines a text is cut into at its newlines: the complete ones, and
    the piece after the last newline. *)
Definition lines_of (s : string) : list string * string :=
  let '(h, tl) := Js.split_newline s in Js.pop h tl.

Definition complete_lines (s : string) : list string := (lines_of s).1.

(** What the lines carrying the [data: ] prefix parse to. *)
Fixpoint data_events (JSON_parse : string → option StreamEvent)
    (lines : list string) : list (option StreamEvent) :=
  match lines with
  | [] => []
  | line :: rest =>
      if Js.startsWith line "data: "
      then JSON_parse (Js.slice 6 line) :: data_events JSON_parse rest
      else data_events JSON_parse rest
  end.

(** The dispatch of parsed events one after the other, up to the first
    [throw]. *)
Fixpoint dispatch_all (events : list (option StreamEvent)) (st : State)
    : Completion * list Effect :=
  match events with
  | [] => (Normal st, [])
  | None :: _ => (Throw st, [])
  | Some event :: rest =>
      match Streaming.handle_event event st with
      | Throw st' => (Throw st', [Dispatch event])
      | Normal st' =>
          let '(c, log) := dispatch_all rest st' in
          (c, Dispatch event :: log)
      end
  end.

(** The end of the stream after the last chunk: [done], or a rejected
    read. *)
Definition at_end (body : Stream) (c : Completion) : Completion :=
  match c with
  | Normal st => if end_done body then Normal st else Throw st
  | Throw st => Throw st
  end.

Definition state_of (c : Completion) : State :=
  match c with Normal st | Throw st => st end.

Definition is_normal (c : Completion) : bool :=
  match c with Normal _ => true | Throw _ => false end.

(** A message without its elapsed time, and without its id as well. *)
Definition forget_elapsed (m : ChatMessage.t) : ChatMessage.t :=
  ChatMessage.mk (ChatMessage.id m) (ChatMessage.role m) (ChatMessage.content m)
    (ChatMessage.sources m) (ChatMessage.context_id m) None.

Definition forget_id_elapsed (m : ChatMessage.t) : ChatMessage.t :=
  ChatMessage.mk 0 (ChatMessage.role m) (ChatMessage.content m)
    (ChatMessage.sources m) (ChatMessage.context_id m) None.

(** A state without the readings of the timer: the two elapsed cells and
    the elapsed time recorded in the messages. *)
Definition forget (st : State) : State :=
  setMessages (forget_elapsed <$> messages st) (setElapsed 0 (setElapsedRef 0 st)).

Definition forget_c (c : Completion) : Completion :=
  match c with
  | Normal st => Normal (forget st)
  | Throw st => Throw (forget st)
  end.

(** The cells no send writes. *)
Definition selection (st : State) :=
  (industries st, selectedIndustries st, showPicker st, stats st,
   followUpMsgId st, followUpSources st, followUpContextId st).

Definition is_answer (e : StreamEvent) : bool :=
  match e with EvAnswer _ => true | _ => false end.

Definition is_error (e : StreamEvent) : bool :=
  match e with EvError _ => true | _ => false end.

(** The three kinds of message [handleSend] appends. *)
Definition userMessage (id : nat) (q : string) : ChatMessage.t :=
  ChatMessage.mk id user q None None None.

Definition fallbackMessage (id : nat) : ChatMessage.t :=
  ChatMessage.mk id assistant fallbackText None None None.

Definition answerMessage (id : nat) (a : Answer.t) (shown : nat)
    : ChatMessage.t :=
  ChatMessage.mk id assistant (Answer.answer a) (Some (Answer.sources a))
    (Answer.context_id a) (Some shown).

(** The entry of [loadingDocs] of a document whose loading is over. *)
Definition docDone (d : Doc.t) : LoadingDoc.t :=
  LoadingDoc.mk (Doc.name d) (Doc.industry d) true.

(** An event that neither appends a message nor throws. *)
Definition is_quiet (e : StreamEvent) : bool :=
  negb (is_answer e) && negb (is_error e).

(** The stream of a query that retrieves and answers:
    searching, found, one loading per document, answering, answer. *)
Definition progress_events (n : nat) (docs : list Doc.t) : list StreamEvent :=
  EvSearching :: EvFound n :: (EvLoading <$> docs).

Definition well_formed_events (n : nat) (docs : list Doc.t) (a : Answer.t)
    : list StreamEvent :=
  progress_events n docs ++ [EvAnswering; EvAnswer a].

(** What [handleSend] does with the completion of its [try] block before
    the [finally]: the [catch] runs on a [throw]. *)
Definition settle (c : Completion) : State :=
  match c with Normal s => s | Throw s => Streaming.catch s end.

(** The cells only [handleSend]'s first and last statements write, or none
    at all: nothing between the [fetch] and the [finally] touches them. *)
Definition untouched (st : State) :=
  (selection st, timerRef st, intervals st, input st, loading st).

(** The three fields of a request body that name a retrieval mode, and
    those of them a body carries. *)
Definition mode_keys : list string :=
  ["context_id"; "pinned_gcs_names"; "industry_filter"].

Definition modes_present (b : gmap string BodyValue) : list string :=
  filter (λ k, is_Some (b !! k)) mode_keys.

(** A conversation: the user types a text and sends it, again and again. *)
Fixpoint converse (send : State → State * list Effect) (texts : list string)
    (st : State) : State :=
  match texts with
  | [] => st
  | text :: rest => converse send rest (send (typeInput text st)).1
  end.

Definition fetches (log : list Effect) : list (gmap string BodyValue) :=
  omap (λ e, match e with Fetch _ b => Some b | _ => None end) log.

(** ** The request body *)

Definition question_only (q : string) : gmap string BodyValue :=
  {[ "question" := VString q ]}.

Definition industry_value (st : State) : BodyValue :=
  if bool_decide (0 < length (selectedIndustries st))
  then VStrings (selectedIndustries st) else VNull.

(** The three ways a body is built, by the state it is built from. *)
Inductive body_of (q : string) (st : State) : gmap string BodyValue → Prop :=
  | body_context h :
      followUpSources st ≠ [] → followUpContextId st = Some h → h ≠ "" →
      body_of q st (<["context_id" := VString h]> (question_only q))
  | body_pinned :
      followUpSources st ≠ [] →
      followUpContextId st = None ∨ followUpContextId st = Some "" →
      body_of q st
        (<["pinned_gcs_names" := VStrings (Source.gcs_name <$> followUpSources st)]>
           (question_only q))
  | body_industries :
      followUpSources st = [] →
      body_of q st (<["industry_filter" := industry_value st]> (question_only q)).

(** A send goes through when the trimmed input is not empty and no query is
    in flight. *)
Definition sendable (st : State) : bool :=
  Js.truthy (Js.trim (input st)) && negb (loading st).

(** ** A sample session *)

Definition nl : string := String Js.newline "".

Definition demo_source : Source.t :=
  Source.mk "reports/retail-2026.pdf" "Retail 2026" "Retail" ["consumer"] None.

Definition demo_doc : Doc.t := Doc.mk "Retail 2026" "Retail".

Definition demo_answer : Answer.t :=
  Answer.mk "Shoppers trade down." [demo_source] (Some "h1").

(** A parser of a toy wire format, one word per event. *)
Definition demo_parse (s : string) : option StreamEvent :=
  if decide (s = "searching") then Some EvSearching
  else if decide (s = "found") then Some (EvFound 1)
  else if decide (s = "loading") then Some (EvLoading demo_doc)
  else if decide (s = "answering") then Some EvAnswering
  else if decide (s = "answer") then Some (EvAnswer demo_answer)
  else if decide (s = "error") then Some (EvError "index unavailable")
  else if decide (s = "ping") then Some EvOther
  else None.

Definition demo_text_1 : string := "data: searching" +:+ nl +:+ "data: fo".
Definition demo_text_2 : string := "und" +:+ nl +:+ "data: loading" +:+ nl.
Definition demo_text_3 : string :=
  "data: answering" +:+ nl +:+ "data: answer" +:+ nl.

Definition demo_stream : Stream :=
  mkStream [(1, demo_text_1); (0, demo_text_2); (2, demo_text_3)] 0 true.

(** The same text cut elsewhere. *)
Definition demo_stream' : Stream :=
  mkStream [(0, demo_text_1 +:+ demo_text_2); (5, ""); (0, demo_text_3)] 1 true.

Definition demo_failing_stream : Stream :=
  mkStream [(1, demo_text_1); (0, "und" +:+ nl +:+ "data: error" +:+ nl)] 0 true.

Definition demo_fetch (url : string) (b : gmap string BodyValue)
    : Fetched Stream :=
  Response 1 true demo_stream.

Definition demo_fetch_failing (url : string) (b : gmap string BodyValue)
    : Fetched Stream :=
  Response 1 true demo_failing_stream.

Definition demo_fetch_json (url : string) (b : gmap string BodyValue)
    : Fetched Json :=
  Response 1 true (mkJson 1 (Some demo_answer)).

Definition demo_state : State :=
  mkState [] "What next? " false 0 None 0 [] [] false None None [] None None
    [] 0 0 ∅.

(** The sample state after a follow-up was pinned on message 2, holding
    the handle [h]. *)
Definition demo_follow_up (h : option string) : State :=
  handleFollowUp 2 [demo_source] h demo_state.

(** A sample cache, holding one context under the handle [h1], and sample
    capabilities. *)
Definition demo_chunk : Orchestrator.ChunkRef :=
  Orchestrator.mkChunkRef "c1" "reports/retail-2026.pdf" "Shoppers trade down."
    "Retail" ["consumer"] None 91.

Definition demo_cache : gmap string Orchestrator.QueryContext :=
  {[ "h1" := Orchestrator.mkQueryContext "h1" [demo_chunk; demo_chunk] 100
               "What are the biggest consumer trends for 2026?" ]}.

Definition demo_retrieve (q : string) (f : Orchestrator.RetrievalFilter)
    (k : nat) : Orchestrator.Outcome (list Orchestrator.ChunkRef) :=
  Orchestrator.Ok [demo_chunk].

Definition demo_synthesize (q : string) (cs : list Orchestrator.ChunkRef)
    : Orchestrator.Outcome string :=
  Orchestrator.Ok "Shoppers trade down.".

(** A retriever whose index is down. *)
Definition demo_retrieve_failing (q : string)
    (f : Orchestrator.RetrievalFilter) (k : nat)
    : Orchestrator.Outcome (list Orchestrator.ChunkRef) :=
  Orchestrator.Failed "index unavailable".

Definition demo_document_name (id : string) : string := "Retail 2026".

Definition demo_new_handle (cache : gmap string Orchestrator.QueryContext)
    : string := "h2".

(** ** Vocabulary of the further statements *)

(** Whether parsed events make the dispatch throw, and the events it
    dispatches before it stops: a line that does not parse throws undispatched,
    an error event is dispatched and throws. *)
Fixpoint throws (events : list (option StreamEvent)) : bool :=
  match events with
  | [] => false
  | None :: _ => true
  | Some (EvError _) :: _ => true
  | Some _ :: rest => throws rest
  end.

Fixpoint dispatched (events : list (option StreamEvent)) : list StreamEvent :=
  match events with
  | [] => []
  | None :: _ => []
  | Some (EvError message) :: _ => [EvError message]
  | Some event :: rest => event :: dispatched rest
  end.

Definition answers_of (events : list StreamEvent) : list Answer.t :=
  omap (λ e, match e with EvAnswer a => Some a | _ => None end) events.

(** The messages of answers, numbered from [next], without elapsed time. *)
Fixpoint answer_messages (next : nat) (l : list Answer.t)
    : list ChatMessage.t :=
  match l with
  | [] => []
  | a :: rest =>
      forget_elapsed (answerMessage next a 0) :: answer_messages (S next) rest
  end.

(** Message ids grow along the list and stay below the counter. *)
Definition ids_increasing (st : State) : Prop :=
  StronglySorted lt (ChatMessage.id <$> messages st)
  ∧ Forall (λ m, ChatMessage.id m ≤ msgIdCounter st) (messages st).

(** The follow-up cells are all empty, or they hold the id, the sources and
    the handle of an assistant message of the list. *)
Definition follow_up_grounded (st : State) : Prop :=
  match followUpMsgId st with
  | None => followUpSources st = [] ∧ followUpContextId st = None
  | Some k =>
      followUpSources st ≠ []
      ∧ ∃ m, m ∈ messages st ∧ ChatMessage.id m = k
             ∧ ChatMessage.role m = assistant
             ∧ ChatMessage.sources m = Some (followUpSources st)
             ∧ ChatMessage.context_id m = followUpContextId st
  end.

(** No query in flight: the cells of the progress display are reset and no
    interval is running. *)
Definition idle (st : State) : Prop :=
  loading st = false ∧ loadingPhase st = None ∧ loadingDocs st = []
  ∧ loadingTotal st = 0 ∧ intervals st = ∅.

Fixpoint contains_newline (s : string) : bool :=
  match s with
  | "" => false
  | String c r => bool_decide (c = Js.newline) || contains_newline r
  end.

(** Lines put back together, a newline after each, then the rest. *)
Fixpoint unlines (lines : list string) (rest : string) : string :=
  match lines with
  | [] => rest
  | line :: more => line +:+ nl +:+ unlines more rest
  end.

Definition docPending (d : Doc.t) : LoadingDoc.t :=
  LoadingDoc.mk (Doc.name d) (Doc.industry d) false.

(** The elapsed times recorded in the messages after the first [n] are at
    most [bound]. *)
Definition recorded_within (n bound : nat) (st : State) : Prop :=
  Forall (λ m, ∀ e, ChatMessage.elapsed m = Some e → e ≤ bound)
    (drop n (messages st)).

(** Further samples: a message to follow up on, and streams that stay
    silent, break, end in an open line, or carry a comment line. *)
Definition demo_message : ChatMessage.t := answerMessage 2 demo_answer 4.

Definition demo_silent_stream : Stream :=
  mkStream [(1, "data: searching" +:+ nl); (1, "data: ping" +:+ nl)] 0 true.

Definition demo_broken_stream : Stream :=
  mkStream [(1, "data: searching" +:+ nl +:+ "data: {" +:+ nl)] 0 true.

Definition demo_open_stream : Stream :=
  mkStream [(1, "data: searching" +:+ nl); (1, "data: ping" +:+ nl +:+ "data: answer")]
    0 true.

Definition demo_commented_stream : Stream :=
  mkStream
    [(1, "data: searching" +:+ nl +:+ ": keep-alive" +:+ nl +:+ "data: ping" +:+ nl)]
    0 true.

Definition demo_loading_stream : Stream :=
  mkStream
    [(0, "data: searching" +:+ nl +:+ "data: found" +:+ nl +:+ "data: load");
     (1, "ing" +:+ nl +:+ "data: loading" +:+ nl)]
    0 true.

Definition demo_fetch_silent (url : string) (b : gmap string BodyValue)
    : Fetched Stream :=
  Response 1 true demo_silent_stream.

Definition demo_fetch_broken (url : string) (b : gmap string BodyValue)
    : Fetched Stream :=
  Response 1 true demo_broken_stream.

Definition demo_fetch_json_failing (url : string) (b : gmap string BodyValue)
    : Fetched Json :=
  Response 3 false (mkJson 0 None).

(** ** Lines of a text *)

Lemma string_app_cons (c : ascii) (r s : string) :
  String c r +:+ s = String c (r +:+ s).
Proof. reflexivity. Qed.

Lemma string_app_nil_l (s : string) : "" +:+ s = s.
Proof. reflexivity. Qed.

Lemma string_app_assoc (a b c : string) : (a +:+ b) +:+ c = a +:+ (b +:+ c).
Proof.
  induction a as [|x a IH]; [done|].
  rewrite !string_app_cons. by rewrite IH.
Qed.

Lemma lines_of_nil : lines_of "" = ([], "").
Proof. reflexivity. Qed.

Lemma lines_of_newline (r : string) :
  lines_of (String Js.newline r) = ("" :: (lines_of r).1, (lines_of r).2).
Proof.
  unfold lines_of. cbn [Js.split_newline].
  destruct (Js.split_newline r) as [h t].
  rewrite decide_True by done. cbn [Js.pop].
  by destruct (Js.pop h t).
Qed.

Lemma lines_of_other (c : ascii) (r : string) :
  c ≠ Js.newline →
  lines_of (String c r) =
    match lines_of r with
    | ([], p) => ([], String c p)
    | (h :: l, p) => (String c h :: l, p)
    end.
Proof.
  intros Hc. unfold lines_of. cbn [Js.split_newline].
  destruct (Js.split_newline r) as [h t].
  rewrite decide_False by done.
  destruct t as [|h' t']; cbn [Js.pop]; [done|].
  by destruct (Js.pop h' t').
Qed.

(** Cutting a text that continues: the lines of the first part, then the
    lines of what it left over followed by the rest. *)
Lemma lines_of_app (a b : string) :
  lines_of (a +:+ b) =
    ((lines_of a).1 ++ (lines_of ((lines_of a).2 +:+ b)).1,
     (lines_of ((lines_of a).2 +:+ b)).2).
Proof.
  induction a as [|c a IH].
  - rewrite lines_of_nil. cbn [fst snd app]. rewrite !string_app_nil_l.
    by destruct (lines_of b).
  - rewrite string_app_cons. destruct (decide (c = Js.newline)) as [->|Hc].
    + rewrite !lines_of_newline, IH. reflexivity.
    + rewrite !lines_of_other, IH by done.
      destruct (lines_of a) as [[|h l] p]; cbn [fst snd app].
      * rewrite string_app_cons, lines_of_other by done.
        by destruct (lines_of (p +:+ b)) as [[|h' l'] p'].
      * reflexivity.
Qed.

Lemma complete_lines_app (a b : string) :
  complete_lines (a +:+ b) =
    complete_lines a ++ complete_lines ((lines_of a).2 +:+ b).
Proof. unfold complete_lines. by rewrite lines_of_app. Qed.

Lemma string_app_nil_r (s : string) : s +:+ "" = s.
Proof.
  induction s as [|c s IH]; [done|]. by rewrite string_app_cons, IH.
Qed.

Lemma lines_of_rest (s : string) :
  lines_of (lines_of s).2 = ([], (lines_of s).2).
Proof.
  induction s as [|c s IH]; [done|].
  destruct (decide (c = Js.newline)) as [->|Hc].
  - by rewrite lines_of_newline.
  - rewrite lines_of_other by done.
    destruct (lines_of s) as [[|h l] p]; cbn [snd] in *; [|done].
    rewrite lines_of_other by done. by rewrite IH.
Qed.

(** ** The reader loop of the streaming page *)

Section StreamingFacts.

Set Default Proof Using "Type".

Variable API : string.
Variable JSON_parse : string → option StreamEvent.
Variable fetch : string → gmap string BodyValue → Fetched Stream.
Variable fetch_json : string → gmap string BodyValue → Fetched Json.

Lemma for_lines_dispatch (lines : list string) (st : State) :
  Streaming.for_lines JSON_parse lines st
  = dispatch_all (data_events JSON_parse lines) st.
Proof.
  revert st. induction lines as [|line rest IH]; intros st; [done|].
  cbn [Streaming.for_lines data_events].
  destruct (Js.startsWith line "data: "); cbn [negb]; [|apply IH].
  cbn [dispatch_all]. destruct (JSON_parse _) as [event|]; [|done].
  destruct (Streaming.handle_event event st); [|done]. by rewrite IH.
Qed.

Lemma data_events_app (l1 l2 : list string) :
  data_events JSON_parse (l1 ++ l2)
  = data_events JSON_parse l1 ++ data_events JSON_parse l2.
Proof.
  induction l1 as [|line l1 IH]; [done|]. cbn [app data_events].
  destruct (Js.startsWith line "data: "); by rewrite IH.
Qed.

Lemma dispatch_all_app (e1 e2 : list (option StreamEvent)) (st : State) :
  dispatch_all (e1 ++ e2) st =
    match dispatch_all e1 st with
    | (Throw s, log) => (Throw s, log)
    | (Normal s, log) =>
        let '(c, log') := dispatch_all e2 s in (c, log ++ log')
    end.
Proof.
  revert st. induction e1 as [|[event|] e1 IH]; intros st; cbn [app dispatch_all].
  - by destruct (dispatch_all e2 st).
  - destruct (Streaming.handle_event event st) as [s|s]; [|done].
    rewrite IH. destruct (dispatch_all e1 s) as [[s'|s'] log]; [|done].
    by destruct (dispatch_all e2 s').
  - done.
Qed.

Lemma forget_tick (st : State) : forget (Streaming.tick st) = forget st.
Proof. reflexivity. Qed.

Lemma forget_ticks (n : nat) (st : State) :
  forget (Streaming.ticks n st) = forget st.
Proof.
  induction n as [|n IH]; [done|].
  change (Streaming.ticks (S n) st) with (Streaming.tick (Streaming.ticks n st)).
  by rewrite forget_tick.
Qed.

Lemma forget_elapsed_idemp (l : list ChatMessage.t) :
  forget_elapsed <$> (forget_elapsed <$> l) = forget_elapsed <$> l.
Proof. rewrite <- list_fmap_compose. by apply list_fmap_ext. Qed.

Lemma forget_idemp (st : State) : forget (forget st) = forget st.
Proof.
  unfold forget. destruct st; cbn. by rewrite forget_elapsed_idemp.
Qed.

Lemma handle_event_forget (event : StreamEvent) (st1 st2 : State) :
  forget st1 = forget st2 →
  forget_c (Streaming.handle_event event st1)
  = forget_c (Streaming.handle_event event st2).
Proof.
  intros H. destruct st1, st2. unfold forget in H. cbn in H.
  injection H as Hm -> -> -> -> -> -> -> -> -> -> -> -> -> -> ->.
  destruct event; cbn; unfold forget; cbn; rewrite ?fmap_app, ?Hm; done.
Qed.

Lemma dispatch_all_forget (events : list (option StreamEvent)) (st1 st2 : State) :
  forget st1 = forget st2 →
  (dispatch_all events st1).2 = (dispatch_all events st2).2
  ∧ forget_c (dispatch_all events st1).1 = forget_c (dispatch_all events st2).1.
Proof.
  revert st1 st2. induction events as [|[event|] rest IH]; intros st1 st2 H;
    cbn [dispatch_all].
  - cbn. by rewrite H.
  - pose proof (handle_event_forget event _ _ H) as He.
    destruct (Streaming.handle_event event st1) as [s1|s1],
      (Streaming.handle_event event st2) as [s2|s2];
      cbn [forget_c] in He; try done.
    assert (forget s1 = forget s2) as Hf by congruence.
    destruct (IH _ _ Hf) as [Hl Hc].
    destruct (dispatch_all rest s1), (dispatch_all rest s2).
    cbn [fst snd] in *. by rewrite Hl.
  - cbn. by rewrite H.
Qed.

Lemma read_loop_cons (body : Stream) (t : nat) (value : string)
    (rest : list (nat * string)) (buffer : string) (st : State) :
  Streaming.read_loop JSON_parse body ((t, value) :: rest) buffer st =
    match
      Streaming.for_lines JSON_parse (lines_of (buffer +:+ value)).1
        (Streaming.ticks t st)
    with
    | (Throw s, log) => (Throw s, log)
    | (Normal s, log) =>
        let '(c, log') :=
          Streaming.read_loop JSON_parse body rest
            (lines_of (buffer +:+ value)).2 s in
        (c, log ++ log')
    end.
Proof.
  cbn [Streaming.read_loop]. unfold lines_of.
  destruct (Js.split_newline (buffer +:+ value)) as [h tl].
  by destruct (Js.pop h tl).
Qed.

(** The loop over the chunks dispatches what a single pass over the
    complete lines of the whole text dispatches, and ends in the same state
    up to the readings of the timer. *)
Lemma read_loop_lines (body : Stream) (pending : list (nat * string))
    (buffer : string) (st : State) :
  lines_of buffer = ([], buffer) →
  let r := Streaming.read_loop JSON_parse body pending buffer st in
  let r' :=
    dispatch_all
      (data_events JSON_parse (complete_lines (buffer +:+ stream_text pending)))
      st in
  r.2 = r'.2 ∧ forget_c r.1 = forget_c (at_end body r'.1).
Proof.
  revert buffer st. induction pending as [|[t value] rest IH];
    intros buffer st Hb; cbn zeta.
  - cbn [stream_text foldr]. rewrite string_app_nil_r.
    unfold complete_lines. rewrite Hb. cbn.
    destruct (end_done body); cbn; by rewrite forget_ticks.
  - rewrite read_loop_cons. cbn [stream_text foldr snd].
    fold (stream_text rest). rewrite <- string_app_assoc.
    rewrite complete_lines_app, data_events_app, dispatch_all_app.
    pose proof (lines_of_rest (buffer +:+ value)) as Hrest.
    change (complete_lines (buffer +:+ value))
      with (lines_of (buffer +:+ value)).1.
    destruct (lines_of (buffer +:+ value)) as [lines last]; cbn [fst snd] in *.
    rewrite for_lines_dispatch.
    destruct (dispatch_all_forget (data_events JSON_parse lines)
                (Streaming.ticks t st) st (forget_ticks t st)) as [Hl Hc].
    destruct (dispatch_all _ (Streaming.ticks t st)) as [[s1|s1] log1],
      (dispatch_all _ st) as [[s2|s2] log2];
      cbn [fst snd forget_c] in Hl, Hc; try done; subst log2.
    assert (forget s1 = forget s2) as Hf by congruence.
    destruct (IH last s1 Hrest) as [IHl IHc]. cbn zeta in IHl, IHc.
    destruct (dispatch_all_forget
                (data_events JSON_parse (complete_lines (last +:+ stream_text rest)))
                s1 s2 Hf) as [Hl' Hc'].
    destruct (Streaming.read_loop JSON_parse body rest last s1) as [c log].
    destruct (dispatch_all _ s1) as [c1 l1], (dispatch_all _ s2) as [c2 l2].
    cbn [fst snd] in *. subst. split; [done|].
    rewrite IHc. clear IHc.
    destruct c1, c2; cbn [forget_c at_end] in *; try done;
      destruct (end_done body); cbn [forget_c]; congruence.
Qed.

(** ** Facts on the request body *)

Lemma request_body_cases (q : string) (st : State) :
  body_of q st (Streaming.request_body q st).
Proof.
  unfold Streaming.request_body.
  destruct (followUpSources st) as [|s l] eqn:Hs; cbn [length].
  - rewrite bool_decide_false by lia. cbn [andb].
    destruct (followUpContextId st); by apply body_industries.
  - rewrite bool_decide_true by lia. cbn [andb].
    destruct (followUpContextId st) as [h|] eqn:Hh.
    + destruct h as [|c h]; cbn [Js.truthy].
      * rewrite <- Hs. apply body_pinned; [by rewrite Hs|by right].
      * apply body_context; [by rewrite Hs|done..].
    + rewrite <- Hs. apply body_pinned; [by rewrite Hs|by left].
Qed.

Lemma request_body_same (q : string) (st : State) :
  Streaming.request_body q st = Buffered.request_body q st.
Proof. reflexivity. Qed.

Lemma body_question (k : string) (v : BodyValue) (q : string) :
  k ≠ "question" →
  (<[k := v]> (question_only q) : gmap string BodyValue) !! "question"
  = Some (VString q).
Proof. intros Hk. unfold question_only. by simplify_map_eq. Qed.

Lemma body_modes (k : string) (v : BodyValue) (q : string) :
  k ∈ mode_keys →
  modes_present (<[k := v]> (question_only q)) = [k].
Proof.
  unfold mode_keys, modes_present, question_only.
  rewrite !elem_of_cons, elem_of_nil. intros [->|[->|[->|[]]]].
  all: vm_compute; reflexivity.
Qed.

Lemma fetches_app (l1 l2 : list Effect) :
  fetches (l1 ++ l2) = fetches l1 ++ fetches l2.
Proof. apply omap_app. Qed.

Lemma fetches_dispatch_all (events : list (option StreamEvent)) (st : State) :
  fetches (dispatch_all events st).2 = [].
Proof.
  revert st. induction events as [|[event|] rest IH]; intros st;
    cbn [dispatch_all]; [done| |done].
  destruct (Streaming.handle_event event st) as [s|s]; [|done].
  specialize (IH s). by destruct (dispatch_all rest s).
Qed.

Lemma fetches_try_block (b : gmap string BodyValue) (st : State) :
  fetches (Streaming.try_block API JSON_parse fetch b st).2 = [].
Proof.
  unfold Streaming.try_block.
  destruct (fetch _ b) as [t|t [] body]; cbn [negb]; [done| |done].
  destruct (read_loop_lines body (reads body) "" (Streaming.ticks t st) eq_refl)
    as [-> _].
  apply fetches_dispatch_all.
Qed.


Lemma sendable_guard (st : State) :
  negb (Js.truthy (Js.trim (input st))) || loading st = negb (sendable st).
Proof.
  unfold sendable. by destruct (Js.truthy _), (loading st).
Qed.

Lemma streaming_fetches (st : State) :
  fetches (Streaming.handleSend API JSON_parse fetch st).2
  = if sendable st
    then [Streaming.request_body (Js.trim (input st)) st] else [].
Proof.
  unfold Streaming.handleSend. rewrite sendable_guard.
  destruct (sendable st); cbn [negb]; [|done].
  pose proof (fetches_try_block
                (Streaming.request_body (Js.trim (input st)) st)
                (Streaming.begin (Js.trim (input st)) st)) as Hf.
  destruct (Streaming.try_block _ _ _ _ _) as [c log]. cbn [snd] in *.
  change (fetches (Fetch ?u ?b :: ?l)) with (b :: fetches l).
  by rewrite fetches_app, Hf.
Qed.

Lemma buffered_fetches (st : State) :
  fetches (Buffered.handleSend API fetch_json st).2
  = if sendable st
    then [Buffered.request_body (Js.trim (input st)) st] else [].
Proof.
  unfold Buffered.handleSend. rewrite sendable_guard.
  by destruct (sendable st).
Qed.

(** C10. When the trimmed input is empty or a query is in flight,
    [handleSend] returns at once, on the streaming page and on the buffered
    one: the state is the one it was called in (no user message, no cell
    written) and nothing is fetched or dispatched. *)
Theorem handleSend_returns_at_once (st : State) :
  Js.trim (input st) = "" ∨ loading st = true →
  Streaming.handleSend API JSON_parse fetch st = (st, [])
  ∧ Buffered.handleSend API fetch_json st = (st, []).
Proof.
  intros H. unfold Streaming.handleSend, Buffered.handleSend.
  destruct H as [-> | ->]; cbn [Js.truthy negb orb]; [done|].
  by rewrite orb_true_r.
Qed.

(** C2. The body of every request sent by [handleSend], streaming or
    buffered, holds the trimmed question and exactly one of [context_id],
    [pinned_gcs_names] and [industry_filter]; it never holds both
    [pinned_gcs_names] and [industry_filter], and an [industry_filter] is
    [null] exactly when no industry is selected. *)
Theorem request_has_one_mode (st : State) (b : gmap string BodyValue) :
  b ∈ fetches (Streaming.handleSend API JSON_parse fetch st).2
  ∨ b ∈ fetches (Buffered.handleSend API fetch_json st).2 →
  b !! "question" = Some (VString (Js.trim (input st)))
  ∧ length (modes_present b) = 1
  ∧ ¬ (is_Some (b !! "pinned_gcs_names") ∧ is_Some (b !! "industry_filter"))
  ∧ (is_Some (b !! "industry_filter") →
     b !! "industry_filter"
     = Some (if bool_decide (selectedIndustries st = [])
             then VNull else VStrings (selectedIndustries st))).
Proof.
  rewrite streaming_fetches, buffered_fetches.
  destruct (sendable st); [|rewrite elem_of_nil; tauto].
  rewrite !list_elem_of_singleton. intros Hb.
  assert (b = Streaming.request_body (Js.trim (input st)) st) as ->
    by (destruct Hb as [->| ->]; [done|symmetry; apply request_body_same]).
  clear Hb.
  destruct (request_body_cases (Js.trim (input st)) st) as [h _ _ _|_ _|Hs].
  - split; [by apply body_question|]. split; [by rewrite body_modes by set_solver|].
    unfold question_only. split; [intros [_ [? ?]]|intros [? ?]]; simplify_map_eq.
  - split; [by apply body_question|]. split; [by rewrite body_modes by set_solver|].
    unfold question_only. split; [intros [_ [? ?]]|intros [? ?]]; simplify_map_eq.
  - split; [by apply body_question|]. split; [by rewrite body_modes by set_solver|].
    unfold question_only. split; [intros [[? ?] _]; simplify_map_eq|].
    intros _. rewrite lookup_insert_eq. f_equal. unfold industry_value.
    destruct (selectedIndustries st); cbn [length].
    + by rewrite bool_decide_false, bool_decide_true by (done || lia).
    + by rewrite bool_decide_true, bool_decide_false by (done || lia).
Qed.

(** C3, as amended. On every send while follow-up sources are pinned, both
    pages send one request: when the handle held is not [null] and not the
    empty string, its body carries [context_id] equal to the handle and
    neither [pinned_gcs_names] nor [industry_filter]; when the handle is
    [null] or the empty string, its body carries [pinned_gcs_names] equal to
    the [gcs_name]s of the pinned sources in their stored order, and neither
    of the other two. *)
Theorem follow_up_request (st : State) :
  sendable st = true → followUpSources st ≠ [] →
  ∃ b : gmap string BodyValue,
    fetches (Streaming.handleSend API JSON_parse fetch st).2 = [b]
    ∧ fetches (Buffered.handleSend API fetch_json st).2 = [b]
    ∧ (∀ h, followUpContextId st = Some h → h ≠ "" →
         b !! "context_id" = Some (VString h)
         ∧ b !! "pinned_gcs_names" = None
         ∧ b !! "industry_filter" = None)
    ∧ (followUpContextId st = None ∨ followUpContextId st = Some "" →
         b !! "pinned_gcs_names"
         = Some (VStrings (Source.gcs_name <$> followUpSources st))
         ∧ b !! "context_id" = None
         ∧ b !! "industry_filter" = None).
Proof.
  intros Hsend Hpinned.
  exists (Streaming.request_body (Js.trim (input st)) st).
  rewrite streaming_fetches, buffered_fetches, Hsend.
  split; [done|]. split; [done|].
  destruct (request_body_cases (Js.trim (input st)) st) as [h' _ Hh Hne|_ Hh|Hs];
    [| |done]; unfold question_only.
  - split.
    + intros h Hh' _. assert (h = h') as -> by congruence. by simplify_map_eq.
    + intros [Hn|Hn]; congruence.
  - split.
    + intros h Hh' Hne. destruct Hh; congruence.
    + intros _. by simplify_map_eq.
Qed.

(** ** What a send leaves alone *)

Lemma untouched_forget (st : State) : untouched (forget st) = untouched st.
Proof. reflexivity. Qed.

Lemma untouched_ticks (n : nat) (st : State) :
  untouched (Streaming.ticks n st) = untouched st.
Proof. induction n as [|n IH]; [done|]. exact IH. Qed.

Lemma untouched_handle_event (event : StreamEvent) (st : State) :
  untouched (state_of (Streaming.handle_event event st)) = untouched st.
Proof. by destruct event. Qed.

Lemma untouched_dispatch_all (events : list (option StreamEvent)) (st : State) :
  untouched (state_of (dispatch_all events st).1) = untouched st.
Proof.
  revert st. induction events as [|[event|] rest IH]; intros st;
    cbn [dispatch_all]; [done| |done].
  pose proof (untouched_handle_event event st) as He.
  destruct (Streaming.handle_event event st) as [s|s]; [|done].
  specialize (IH s). destruct (dispatch_all rest s). cbn [fst state_of] in *.
  congruence.
Qed.

Lemma state_of_forget_c (c : Completion) :
  state_of (forget_c c) = forget (state_of c).
Proof. by destruct c. Qed.

Lemma state_of_at_end (body : Stream) (c : Completion) :
  state_of (at_end body c) = state_of c.
Proof. destruct c; cbn; [|done]. by destruct (end_done body). Qed.

(** The state the loop ends in is, up to the readings of the timer, the
    state the single pass ends in. *)
Lemma read_loop_state (body : Stream) (st : State) :
  forget (state_of (Streaming.read_loop JSON_parse body (reads body) "" st).1)
  = forget
      (state_of
         (dispatch_all
            (data_events JSON_parse (complete_lines (stream_text (reads body))))
            st).1).
Proof.
  destruct (read_loop_lines body (reads body) "" st eq_refl) as [_ Hc].
  cbn zeta in Hc. rewrite string_app_nil_l in Hc.
  apply (f_equal state_of) in Hc.
  by rewrite !state_of_forget_c, state_of_at_end in Hc.
Qed.

Lemma untouched_try_block (b : gmap string BodyValue) (st : State) :
  untouched (state_of (Streaming.try_block API JSON_parse fetch b st).1)
  = untouched st.
Proof.
  unfold Streaming.try_block.
  destruct (fetch _ b) as [t|t [] body]; cbn [negb fst state_of];
    [apply untouched_ticks| |apply untouched_ticks].
  rewrite <- untouched_forget, read_loop_state, untouched_forget.
  by rewrite untouched_dispatch_all, untouched_ticks.
Qed.

Lemma untouched_buffered_ticks (n : nat) (st : State) :
  untouched (Buffered.ticks n st) = untouched st.
Proof. induction n as [|n IH]; [done|]. exact IH. Qed.

Lemma untouched_buffered_try_block (shown : nat) (b : gmap string BodyValue)
    (st : State) :
  untouched (state_of (Buffered.try_block API fetch_json shown b st))
  = untouched st.
Proof.
  unfold Buffered.try_block.
  destruct (fetch_json _ b) as [t|t [] [t' [data|]]];
    cbn [negb state_of json_ticks json_data];
    rewrite <- ?(untouched_buffered_ticks t st); try done.
  all: by rewrite <- (untouched_buffered_ticks t' (Buffered.ticks t st)).
Qed.

Lemma selection_clearInterval (st : State) :
  selection (clearInterval st) = selection st.
Proof. unfold clearInterval. by destruct (timerRef st). Qed.

Lemma selection_streaming_settle (c : Completion) :
  selection
    (Streaming.finally
       match c with Normal s => s | Throw s => Streaming.catch s end)
  = selection (state_of c).
Proof.
  destruct c as [s|s]; cbn [state_of]; unfold Streaming.finally.
  - exact (selection_clearInterval s).
  - exact (selection_clearInterval (Streaming.catch s)).
Qed.

Lemma selection_buffered_settle (c : Completion) :
  selection
    (Buffered.finally
       match c with Normal s => s | Throw s => Buffered.catch s end)
  = selection (state_of c).
Proof.
  destruct c as [s|s]; cbn [state_of]; unfold Buffered.finally.
  - exact (selection_clearInterval s).
  - exact (selection_clearInterval (Buffered.catch s)).
Qed.

Lemma selection_streaming (st : State) :
  selection (Streaming.handleSend API JSON_parse fetch st).1 = selection st.
Proof.
  unfold Streaming.handleSend.
  destruct (negb _ || _); [done|].
  pose proof (untouched_try_block
                (Streaming.request_body (Js.trim (input st)) st)
                (Streaming.begin (Js.trim (input st)) st)) as Hu.
  destruct (Streaming.try_block _ _ _ _ _) as [c log]. cbn [fst] in *.
  rewrite selection_streaming_settle.
  by apply (f_equal (λ u, u.1.1.1.1)) in Hu.
Qed.

Lemma selection_buffered (st : State) :
  selection (Buffered.handleSend API fetch_json st).1 = selection st.
Proof.
  unfold Buffered.handleSend.
  destruct (negb _ || _); [done|].
  pose proof (untouched_buffered_try_block (elapsed st)
                (Buffered.request_body (Js.trim (input st)) st)
                (Buffered.begin (Js.trim (input st)) st)) as Hu.
  cbn [fst]. rewrite selection_buffered_settle.
  by apply (f_equal (λ u, u.1.1.1.1)) in Hu.
Qed.

Lemma request_body_selection (q : string) (st1 st2 : State) :
  selection st1 = selection st2 →
  Streaming.request_body q st1 = Streaming.request_body q st2.
Proof.
  unfold selection, Streaming.request_body. intros H.
  injection H as _ Hi _ _ _ Hs Hc. by rewrite Hi, Hs, Hc.
Qed.

Lemma selection_converse (send : State → State * list Effect)
    (texts : list string) (st : State) :
  (∀ s, selection (send s).1 = selection s) →
  selection (converse send texts st) = selection st.
Proof.
  intros Hsend. revert st. induction texts as [|text rest IH]; intros st;
    cbn [converse]; [done|].
  by rewrite IH, Hsend.
Qed.

(** Toggling the follow-up off, or the banner's [Clear], is what drops the
    handle and the pinned documents: the next body carries the industry
    filter again. *)
Lemma handleFollowUp_toggle_off (msgId : nat) (contextId : option string)
    (st : State) :
  handleFollowUp msgId [] contextId st = clearFollowUp st.
Proof. reflexivity. Qed.

Lemma cleared_follow_up_body (q : string) (st : State) :
  Streaming.request_body q (clearFollowUp st)
  = <["industry_filter" := industry_value st]> (question_only q).
Proof. reflexivity. Qed.

(** C8. A send, streaming or buffered, leaves [selectedIndustries],
    [followUpMsgId], [followUpSources] and [followUpContextId] (and
    [industries], [showPicker] and [stats]) as they were; hence after any
    number of questions typed and sent, the body built for a question is
    the body the first state builds for it: the same handle or the same
    pinned documents, as long as nothing but sends and typing happens. *)
Theorem handleSend_keeps_follow_up (st : State) (texts : list string)
    (q : string) :
  selection (Streaming.handleSend API JSON_parse fetch st).1 = selection st
  ∧ selection (Buffered.handleSend API fetch_json st).1 = selection st
  ∧ Streaming.request_body q
      (converse (Streaming.handleSend API JSON_parse fetch) texts st)
    = Streaming.request_body q st
  ∧ Buffered.request_body q
      (converse (Buffered.handleSend API fetch_json) texts st)
    = Buffered.request_body q st.
Proof.
  split; [apply selection_streaming|]. split; [apply selection_buffered|].
  split; apply request_body_selection, selection_converse; intros s.
  - apply selection_streaming.
  - apply selection_buffered.
Qed.

(** ** The messages a send appends *)

Lemma messages_ticks (n : nat) (st : State) :
  messages (Streaming.ticks n st) = messages st.
Proof. induction n as [|n IH]; [done|]. exact IH. Qed.

Lemma msgIdCounter_ticks (n : nat) (st : State) :
  msgIdCounter (Streaming.ticks n st) = msgIdCounter st.
Proof. induction n as [|n IH]; [done|]. exact IH. Qed.

Lemma messages_handle_event (event : StreamEvent) (st : State) :
  messages st `prefix_of` messages (state_of (Streaming.handle_event event st)).
Proof. destruct event; cbn; try done. by apply prefix_app_r. Qed.

Lemma messages_dispatch_all (events : list (option StreamEvent)) (st : State) :
  messages st `prefix_of` messages (state_of (dispatch_all events st).1).
Proof.
  revert st. induction events as [|[event|] rest IH]; intros st;
    cbn [dispatch_all]; [done| |done].
  pose proof (messages_handle_event event st) as He.
  destruct (Streaming.handle_event event st) as [s|s]; [|done].
  specialize (IH s). destruct (dispatch_all rest s). cbn [fst state_of] in *.
  by etrans.
Qed.

Lemma messages_read_loop (body : Stream) (pending : list (nat * string))
    (buffer : string) (st : State) :
  messages st
    `prefix_of`
  messages (state_of (Streaming.read_loop JSON_parse body pending buffer st).1).
Proof.
  revert buffer st. induction pending as [|[t value] rest IH]; intros buffer st.
  - cbn [Streaming.read_loop fst].
    destruct (end_done body); cbn [state_of]; by rewrite messages_ticks.
  - rewrite read_loop_cons, for_lines_dispatch.
    pose proof (messages_dispatch_all
                  (data_events JSON_parse (lines_of (buffer +:+ value)).1)
                  (Streaming.ticks t st)) as Hd.
    rewrite messages_ticks in Hd.
    destruct (dispatch_all _ (Streaming.ticks t st)) as [[s|s] log];
      cbn [fst state_of] in *; [|done].
    specialize (IH (lines_of (buffer +:+ value)).2 s).
    destruct (Streaming.read_loop _ _ _ _ s). cbn [fst] in *. by etrans.
Qed.

Lemma fmap_prefix_inv {A B : Type} (f : A → B) (l l' new : list A) :
  l `prefix_of` l' → f <$> l' = f <$> (l ++ new) →
  ∃ k, l' = l ++ k ∧ f <$> k = f <$> new.
Proof.
  intros [k ->] H. exists k. split; [done|].
  rewrite !fmap_app in H. by apply app_inv_head in H.
Qed.

Lemma forget_messages (st1 st2 : State) :
  forget st1 = forget st2 →
  forget_elapsed <$> messages st1 = forget_elapsed <$> messages st2.
Proof. intros H. by apply (f_equal messages) in H. Qed.

Lemma forget_fields (st1 st2 : State) :
  forget st1 = forget st2 →
  msgIdCounter st1 = msgIdCounter st2
  ∧ loadingPhase st1 = loadingPhase st2
  ∧ loadingDocs st1 = loadingDocs st2
  ∧ loadingTotal st1 = loadingTotal st2.
Proof.
  intros H. repeat split.
  - by apply (f_equal msgIdCounter) in H.
  - by apply (f_equal loadingPhase) in H.
  - by apply (f_equal loadingDocs) in H.
  - by apply (f_equal loadingTotal) in H.
Qed.

Lemma is_normal_forget_c (c1 c2 : Completion) :
  forget_c c1 = forget_c c2 → is_normal c1 = is_normal c2.
Proof. by destruct c1, c2. Qed.

(** What the [try] block of the streaming page does on a response that is
    [ok]: it dispatches what the single pass dispatches, ends as it ends
    when the stream ends well, and keeps the messages it started with. *)
Lemma try_block_ok (b : gmap string BodyValue) (st : State) (t : nat)
    (body : Stream) :
  fetch (API +:+ "/api/query-stream") b = Response t true body →
  let r := Streaming.try_block API JSON_parse fetch b st in
  let r' :=
    dispatch_all
      (data_events JSON_parse (complete_lines (stream_text (reads body))))
      (Streaming.ticks t st) in
  r.2 = r'.2
  ∧ forget_c r.1 = forget_c (at_end body r'.1)
  ∧ messages st `prefix_of` messages (state_of r.1).
Proof.
  intros Hf. cbn zeta. unfold Streaming.try_block. rewrite Hf. cbn [negb].
  destruct (read_loop_lines body (reads body) "" (Streaming.ticks t st) eq_refl)
    as [Hl Hc].
  cbn zeta in Hl, Hc. rewrite string_app_nil_l in Hl, Hc.
  split; [done|]. split; [done|].
  rewrite <- (messages_ticks t st) at 1. apply messages_read_loop.
Qed.

(** An error event met before any answer event: the dispatch throws there,
    with the messages as they were. *)
Lemma dispatch_error_first (pre : list StreamEvent) (m : string)
    (rest : list (option StreamEvent)) (st : State) :
  Forall (λ e, is_answer e = false) pre →
  let r := dispatch_all ((Some <$> pre) ++ Some (EvError m) :: rest) st in
  is_normal r.1 = false
  ∧ messages (state_of r.1) = messages st
  ∧ msgIdCounter (state_of r.1) = msgIdCounter st.
Proof.
  intros Hpre. revert st. induction Hpre as [|e pre He _ IH]; intros st; [done|].
  cbn [fmap list_fmap app dispatch_all]. cbn zeta in IH.
  destruct e; try done; cbn [Streaming.handle_event];
    match goal with
    | |- context [dispatch_all _ ?s] =>
        specialize (IH s); by destruct (dispatch_all _ s)
    end.
Qed.

Lemma streaming_sendable (st : State) :
  sendable st = true →
  Streaming.handleSend API JSON_parse fetch st =
    let q := Js.trim (input st) in
    let b := Streaming.request_body q st in
    let r := Streaming.try_block API JSON_parse fetch b (Streaming.begin q st) in
    (Streaming.finally (settle r.1),
     Fetch (API +:+ "/api/query-stream") b :: r.2 ++ [FocusTextarea]).
Proof.
  intros Hs. unfold Streaming.handleSend. rewrite sendable_guard, Hs.
  cbn [negb]. cbn zeta. by destruct (Streaming.try_block _ _ _ _ _) as [[s|s] log].
Qed.

Lemma messages_finally (st : State) :
  messages (Streaming.finally st) = messages st.
Proof. unfold Streaming.finally, clearInterval. by destruct (timerRef st). Qed.

Lemma messages_settled (c : Completion) :
  messages (Streaming.finally (settle c)) =
    if is_normal c then messages (state_of c)
    else messages (state_of c)
           ++ [fallbackMessage (S (msgIdCounter (state_of c)))].
Proof. rewrite messages_finally. by destruct c. Qed.

Lemma untouched_settle (c : Completion) :
  untouched (settle c) = untouched (state_of c).
Proof. by destruct c. Qed.

Lemma finally_clears (st : State) (h : positive) (running : gset positive) :
  timerRef st = Some h → intervals st = {[h]} ∪ running → h ∉ running →
  let st' := Streaming.finally st in
  loading st' = false ∧ loadingPhase st' = None ∧ loadingDocs st' = []
  ∧ loadingTotal st' = 0 ∧ intervals st' = running
  ∧ timerRef st' = Some h ∧ h ∉ intervals st'.
Proof.
  intros Ht Hi Hh. cbn zeta. unfold Streaming.finally, clearInterval.
  rewrite Ht. cbn. rewrite Hi.
  assert (({[h]} ∪ running) ∖ {[h]} = running) as Hd.
  { apply set_eq. intros x.
    rewrite elem_of_difference, elem_of_union, !elem_of_singleton. split.
    - intros [[->|Hx] Hne]; [by destruct Hne|exact Hx].
    - intros Hx. split; [by right|]. intros ->. by apply Hh. }
  rewrite Hd. repeat split; first [reflexivity | exact Ht | exact Hh].
Qed.

(** C7. For a send that goes through on the streaming page: when the
    response is not [ok], or when the data lines of the stream parse to an
    error event not preceded by an answer event, the messages grow by the
    user's message and one assistant message with the fixed text, and no
    other; and whatever the response, the send ends with [loading] false,
    [loadingPhase] null, [loadingDocs] empty, [loadingTotal] zero and the
    interval it started no longer running. *)
Theorem failed_send_falls_back (st : State) :
  sendable st = true →
  let q := Js.trim (input st) in
  let sent := fetch (API +:+ "/api/query-stream") (Streaming.request_body q st) in
  let st' := (Streaming.handleSend API JSON_parse fetch st).1 in
  ((∃ t body, sent = Response t false body)
   ∨ (∃ t body pre m rest,
        sent = Response t true body
        ∧ data_events JSON_parse (complete_lines (stream_text (reads body)))
          = (Some <$> pre) ++ Some (EvError m) :: rest
        ∧ Forall (λ e, is_answer e = false) pre) →
   messages st'
   = messages st
       ++ [userMessage (S (msgIdCounter st)) q;
           fallbackMessage (S (S (msgIdCounter st)))])
  ∧ loading st' = false ∧ loadingPhase st' = None ∧ loadingDocs st' = []
  ∧ loadingTotal st' = 0 ∧ intervals st' = intervals st
  ∧ timerRef st' = Some (fresh (intervals st))
  ∧ fresh (intervals st) ∉ intervals st'.
Proof.
  intros Hs. cbn zeta. rewrite (streaming_sendable st Hs). cbn zeta. cbn [fst].
  set (q := Js.trim (input st)). set (b := Streaming.request_body q st).
  set (st1 := Streaming.begin q st).
  split.
  - rewrite messages_settled. intros [(t & body & Hf)|(t & body & pre & m & rest & Hf & He & Hpre)].
    + unfold Streaming.try_block. rewrite Hf. cbn [negb fst is_normal state_of].
      rewrite messages_ticks, msgIdCounter_ticks. subst st1. cbn.
      by rewrite <- app_assoc.
    + destruct (try_block_ok b st1 t body Hf) as (_ & Hc & Hp).
      cbn zeta in Hc. rewrite He in Hc.
      destruct (dispatch_error_first pre m rest (Streaming.ticks t st1) Hpre)
        as (Hn & Hm & Hi).
      cbn zeta in Hn, Hm, Hi.
      destruct (dispatch_all _ (Streaming.ticks t st1)) as [[s'|s'] log'];
        cbn [fst is_normal state_of at_end] in *; [done|].
      destruct (Streaming.try_block _ _ _ _ _).1 as [s|s] eqn:Hr;
        cbn [forget_c state_of is_normal] in *; [done|].
      assert (forget s = forget s') as Hfg by congruence.
      destruct (forget_fields _ _ Hfg) as (Hid & _).
      apply forget_messages in Hfg. rewrite Hm, messages_ticks in Hfg.
      destruct (fmap_prefix_inv forget_elapsed _ _ [] Hp) as (k & Hk & Hnil).
      { by rewrite app_nil_r. }
      apply fmap_nil_inv in Hnil. subst k. rewrite app_nil_r in Hk.
      rewrite Hk, Hid, Hi, msgIdCounter_ticks. subst st1. cbn.
      by rewrite <- app_assoc.
  - pose proof (untouched_try_block b st1) as Hu.
    rewrite <- untouched_settle in Hu.
    apply (finally_clears _ (fresh (intervals st)) (intervals st)).
    + apply (f_equal (λ u, u.1.1.1.2)) in Hu. exact Hu.
    + apply (f_equal (λ u, u.1.1.2)) in Hu. exact Hu.
    + apply is_fresh.
Qed.

(** C9. The reader loop does not depend on how the text of the stream is
    cut into chunks, nor on when the timer ticks: two streams with the
    same text dispatch the same events in the same order, namely those a
    single pass over the complete lines of the text dispatches, and, when
    they end alike, end in the same state up to the readings of the timer.
    A text that ends in a newline has no line left over, yet the statement
    needs no such assumption. *)
Theorem reader_is_chunking_invariant (body1 body2 : Stream) (st : State) :
  stream_text (reads body1) = stream_text (reads body2) →
  end_done body1 = end_done body2 →
  let r1 := Streaming.read_loop JSON_parse body1 (reads body1) "" st in
  let r2 := Streaming.read_loop JSON_parse body2 (reads body2) "" st in
  r1.2 = r2.2
  ∧ r1.2
    = (dispatch_all
         (data_events JSON_parse (complete_lines (stream_text (reads body1))))
         st).2
  ∧ forget_c r1.1 = forget_c r2.1.
Proof.
  intros Ht Hd. cbn zeta.
  destruct (read_loop_lines body1 (reads body1) "" st eq_refl) as [Hl1 Hc1].
  destruct (read_loop_lines body2 (reads body2) "" st eq_refl) as [Hl2 Hc2].
  cbn zeta in *. rewrite string_app_nil_l in *. rewrite <- Ht in *.
  rewrite Hl1, Hl2, Hc1, Hc2. split; [done|]. split; [done|].
  destruct (dispatch_all _ st).1; cbn [at_end]; by rewrite ?Hd.
Qed.

(** ** A stream that answers *)

Lemma fmap_imap_absorb {A B : Type} (f : A → B) (g : nat → A → A) (l : list A) :
  (∀ i x, f (g i x) = f x) → f <$> imap g l = f <$> l.
Proof.
  revert g. induction l as [|x l IH]; intros g Hg; [done|].
  cbn [imap fmap list_fmap]. rewrite Hg. f_equal. apply IH.
  intros i y. apply Hg.
Qed.

Lemma dispatch_quiet (pre : list StreamEvent) (s0 : State) :
  Forall (λ e, is_quiet e = true) pre →
  ∃ s1 log,
    dispatch_all (Some <$> pre) s0 = (Normal s1, log)
    ∧ messages s1 = messages s0 ∧ msgIdCounter s1 = msgIdCounter s0.
Proof.
  intros Hpre. revert s0. induction Hpre as [|e pre He _ IH]; intros s0.
  - by exists s0, [].
  - cbn [fmap list_fmap dispatch_all].
    destruct e; try done; cbn [Streaming.handle_event];
      match goal with
      | |- context [dispatch_all _ ?s] =>
          destruct (IH s) as (s1 & log & -> & Hm & Hi); eauto
      end.
Qed.

Lemma dispatch_loading (docs : list Doc.t) (s0 : State) :
  ∃ s1 log,
    dispatch_all (Some <$> (EvLoading <$> docs)) s0 = (Normal s1, log)
    ∧ loadingTotal s1 = loadingTotal s0
    ∧ loadingPhase s1 = loadingPhase s0
    ∧ Streaming.markDone <$> loadingDocs s1
      = (Streaming.markDone <$> loadingDocs s0) ++ (docDone <$> docs).
Proof.
  revert s0. induction docs as [|d docs IH]; intros s0.
  - exists s0, []. by rewrite app_nil_r.
  - cbn [fmap list_fmap dispatch_all Streaming.handle_event].
    match goal with
    | |- context [dispatch_all _ ?s] =>
        destruct (IH s) as (s1 & log & -> & Ht & Hp & Hd)
    end.
    exists s1, (Dispatch (EvLoading d) :: log). split; [done|].
    split; [done|]. split; [done|].
    rewrite Hd. cbn [loadingDocs setLoadingDocs]. rewrite fmap_app.
    rewrite fmap_imap_absorb by (intros i x; by destruct (decide _)).
    by rewrite <- app_assoc.
Qed.

Lemma markDone_idemp (l : list LoadingDoc.t) :
  Streaming.markDone <$> (Streaming.markDone <$> l) = Streaming.markDone <$> l.
Proof. rewrite <- list_fmap_compose. by apply list_fmap_ext. Qed.

(** The state of the page once the progress events are dispatched:
    searching, found, the loadings. *)
Lemma dispatch_progress (n : nat) (docs : list Doc.t) (s0 : State) :
  ∃ s1 log,
    dispatch_all (Some <$> progress_events n docs) s0 = (Normal s1, log)
    ∧ loadingTotal s1 = n
    ∧ loadingPhase s1 = Some Phase.loading
    ∧ Streaming.markDone <$> loadingDocs s1
      = (Streaming.markDone <$> loadingDocs s0) ++ (docDone <$> docs).
Proof.
  unfold progress_events.
  cbn [fmap list_fmap dispatch_all Streaming.handle_event].
  match goal with
  | |- context [dispatch_all _ ?s] =>
      destruct (dispatch_loading docs s) as (s1 & log & -> & Ht & Hp & Hd)
  end.
  by exists s1, (Dispatch EvSearching :: Dispatch (EvFound n) :: log).
Qed.

Lemma progress_events_quiet (n : nat) (docs : list Doc.t) :
  Forall (λ e, is_quiet e = true) (progress_events n docs ++ [EvAnswering]).
Proof.
  unfold progress_events. apply Forall_app. split; [|by repeat constructor].
  do 2 (constructor; [done|]). by apply Forall_fmap, Forall_true.
Qed.

(** A stream that is [ok], ends well, and whose data lines parse to quiet
    events followed by one answer event: the messages grow by the user's
    message and the message of that answer. *)
Lemma streaming_answered (st : State) (t : nat) (body : Stream)
    (pre : list StreamEvent) (a : Answer.t) :
  sendable st = true →
  fetch (API +:+ "/api/query-stream")
    (Streaming.request_body (Js.trim (input st)) st)
  = Response t true body →
  end_done body = true →
  data_events JSON_parse (complete_lines (stream_text (reads body)))
  = Some <$> (pre ++ [EvAnswer a]) →
  Forall (λ e, is_quiet e = true) pre →
  ∃ m,
    messages (Streaming.handleSend API JSON_parse fetch st).1
    = messages st ++ [userMessage (S (msgIdCounter st)) (Js.trim (input st)); m]
    ∧ forget_elapsed m
      = forget_elapsed (answerMessage (S (S (msgIdCounter st))) a 0).
Proof.
  intros Hs Hf Hd He Hpre. rewrite (streaming_sendable st Hs). cbn zeta. cbn [fst].
  set (q := Js.trim (input st)) in *.
  set (b := Streaming.request_body q st) in *.
  set (st1 := Streaming.begin q st).
  rewrite messages_settled.
  destruct (try_block_ok b st1 t body Hf) as (_ & Hc & Hp).
  cbn zeta in Hc. rewrite He, fmap_app, dispatch_all_app in Hc.
  destruct (dispatch_quiet pre (Streaming.ticks t st1) Hpre)
    as (s1 & log & Hq & Hm & Hi).
  rewrite Hq in Hc. cbn in Hc. rewrite Hd in Hc.
  destruct (Streaming.try_block _ _ _ _ _).1 as [s|s] eqn:Hr;
    cbn [forget_c state_of is_normal] in *; [|done].
  match type of Hc with
  | Normal _ = Normal (forget ?x) => assert (forget s = forget x) as Hfg by congruence
  end.
  apply forget_messages in Hfg. cbn [messages setMessages setMsgIdCounter] in Hfg.
  rewrite Hm, Hi, messages_ticks, msgIdCounter_ticks in Hfg.
  destruct (fmap_prefix_inv forget_elapsed _ _ _ Hp Hfg) as (k & Hk & Hone).
  destruct k as [|m [|m' k]]; try done.
  exists m. rewrite Hk. subst st1. cbn [messages Streaming.begin setMessages
    setMsgIdCounter setInput setElapsed setElapsedRef setLoading setLoadingPhase
    setLoadingDocs setLoadingTotal setTimerRef setIntervals msgIdCounter] in *.
  split; [by rewrite <- app_assoc|].
  apply (f_equal head) in Hone. cbn [fmap list_fmap head] in Hone.
  by apply (inj Some) in Hone.
Qed.

Lemma messages_buffered_ticks (n : nat) (st : State) :
  messages (Buffered.ticks n st) = messages st.
Proof. induction n as [|n IH]; [done|]. exact IH. Qed.

Lemma msgIdCounter_buffered_ticks (n : nat) (st : State) :
  msgIdCounter (Buffered.ticks n st) = msgIdCounter st.
Proof. induction n as [|n IH]; [done|]. exact IH. Qed.

Lemma messages_buffered_finally (st : State) :
  messages (Buffered.finally st) = messages st.
Proof. unfold Buffered.finally, clearInterval. by destruct (timerRef st). Qed.

Lemma buffered_answered (st : State) (t tj : nat) (a : Answer.t) :
  sendable st = true →
  fetch_json (API +:+ "/api/query")
    (Buffered.request_body (Js.trim (input st)) st)
  = Response t true (mkJson tj (Some a)) →
  messages (Buffered.handleSend API fetch_json st).1
  = messages st
      ++ [userMessage (S (msgIdCounter st)) (Js.trim (input st));
          answerMessage (S (S (msgIdCounter st))) a (elapsed st)].
Proof.
  intros Hs Hf. unfold Buffered.handleSend. rewrite sendable_guard, Hs.
  cbn [negb fst]. unfold Buffered.try_block. rewrite Hf.
  cbn [negb json_ticks json_data]. rewrite messages_buffered_finally.
  cbn [messages setMessages setMsgIdCounter msgIdCounter].
  rewrite !messages_buffered_ticks, !msgIdCounter_buffered_ticks.
  cbn. by rewrite <- app_assoc.
Qed.

(** C6. A send on the streaming page answered by a stream that is [ok],
    ends well, and whose data lines parse to searching, found with total
    [n], a loading per document of [docs], answering and the answer [a]:
    the messages grow by the user's message and one assistant message whose
    content, sources and context id are those of [a]. Moreover, whatever the
    chunking: once the loop has dispatched searching, found and any number
    of loadings, [loadingTotal] is [n]; and once it has dispatched all of
    them and answering, starting from an empty [loadingDocs] as every send
    does, [loadingDocs] is the list of [docs] in order, every entry done. *)
Theorem well_formed_stream_is_rendered (st : State) (t : nat) (body : Stream)
    (n : nat) (docs : list Doc.t) (a : Answer.t) :
  sendable st = true →
  fetch (API +:+ "/api/query-stream")
    (Streaming.request_body (Js.trim (input st)) st)
  = Response t true body →
  end_done body = true →
  data_events JSON_parse (complete_lines (stream_text (reads body)))
  = Some <$> well_formed_events n docs a →
  (∃ m,
     messages (Streaming.handleSend API JSON_parse fetch st).1
     = messages st
         ++ [userMessage (S (msgIdCounter st)) (Js.trim (input st)); m]
     ∧ ChatMessage.role m = assistant
     ∧ ChatMessage.content m = Answer.answer a
     ∧ ChatMessage.sources m = Some (Answer.sources a)
     ∧ ChatMessage.context_id m = Answer.context_id a)
  ∧ loadingDocs (Streaming.begin (Js.trim (input st)) st) = []
  ∧ (∀ (body' : Stream) (s0 : State) (docs' : list Doc.t),
       data_events JSON_parse (complete_lines (stream_text (reads body')))
       = Some <$> progress_events n docs' →
       let s :=
         state_of (Streaming.read_loop JSON_parse body' (reads body') "" s0).1 in
       loadingTotal s = n ∧ loadingPhase s = Some Phase.loading)
  ∧ (∀ (body' : Stream) (s0 : State),
       loadingDocs s0 = [] →
       data_events JSON_parse (complete_lines (stream_text (reads body')))
       = Some <$> (progress_events n docs ++ [EvAnswering]) →
       let s :=
         state_of (Streaming.read_loop JSON_parse body' (reads body') "" s0).1 in
       loadingDocs s = docDone <$> docs
       ∧ loadingPhase s = Some Phase.answering
       ∧ loadingTotal s = n).
Proof.
  intros Hs Hf Hd He. split; [|split; [done|split]].
  - unfold well_formed_events in He.
    replace (progress_events n docs ++ [EvAnswering; EvAnswer a])
      with ((progress_events n docs ++ [EvAnswering]) ++ [EvAnswer a]) in He
      by by rewrite <- app_assoc.
    destruct (streaming_answered st t body _ a Hs Hf Hd He
                (progress_events_quiet n docs)) as (m & Hm & Hfm).
    exists m. split; [done|].
    destruct m. cbn in Hfm. by injection Hfm as _ -> -> -> ->.
  - intros body' s0 docs' He'. cbn zeta.
    pose proof (read_loop_state body' s0) as Hst. rewrite He' in Hst.
    destruct (dispatch_progress n docs' s0) as (s1 & log & Hq & Ht & Hp & _).
    rewrite Hq in Hst. cbn [fst state_of] in Hst.
    destruct (forget_fields _ _ Hst) as (_ & Hph & _ & Hto). by rewrite Hph, Hto.
  - intros body' s0 Hnil He'. cbn zeta.
    pose proof (read_loop_state body' s0) as Hst.
    rewrite He', fmap_app, dispatch_all_app in Hst.
    destruct (dispatch_progress n docs s0) as (s1 & log & Hq & Ht & Hp & Hdocs).
    rewrite Hq in Hst. cbn in Hst.
    destruct (forget_fields _ _ Hst) as (_ & Hph & Hld & Hto).
    cbn in Hph, Hld, Hto. rewrite Hph, Hld, Hto, Hdocs, Hnil. done.
Qed.

(** C5. The two pages agree. They build the same request body from the
    same state. And for a send that goes through, when the stream is [ok],
    ends well, and its data lines parse to events that neither answer nor
    fail followed by the answer [a], and the buffered response is [ok] with
    the same [answer], [sources] and [context_id], both pages send the same
    body and append the same two messages, the user's and the assistant's,
    up to the id and the elapsed time of a message. *)
Theorem buffered_matches_streaming (st : State) (t t' tj : nat) (body : Stream)
    (pre : list StreamEvent) (a : Answer.t) :
  sendable st = true →
  fetch (API +:+ "/api/query-stream")
    (Streaming.request_body (Js.trim (input st)) st)
  = Response t true body →
  end_done body = true →
  data_events JSON_parse (complete_lines (stream_text (reads body)))
  = Some <$> (pre ++ [EvAnswer a]) →
  Forall (λ e, is_quiet e = true) pre →
  fetch_json (API +:+ "/api/query")
    (Buffered.request_body (Js.trim (input st)) st)
  = Response t' true (mkJson tj (Some a)) →
  (∀ q' st', Streaming.request_body q' st' = Buffered.request_body q' st')
  ∧ fetches (Streaming.handleSend API JSON_parse fetch st).2
    = fetches (Buffered.handleSend API fetch_json st).2
  ∧ forget_id_elapsed <$> messages (Streaming.handleSend API JSON_parse fetch st).1
    = forget_id_elapsed <$> messages (Buffered.handleSend API fetch_json st).1
  ∧ ∃ ms mb,
      messages (Streaming.handleSend API JSON_parse fetch st).1
      = messages st
          ++ [userMessage (S (msgIdCounter st)) (Js.trim (input st)); ms]
      ∧ messages (Buffered.handleSend API fetch_json st).1
        = messages st
            ++ [userMessage (S (msgIdCounter st)) (Js.trim (input st)); mb]
      ∧ forget_id_elapsed ms = forget_id_elapsed mb
      ∧ forget_id_elapsed mb = forget_id_elapsed (answerMessage 0 a 0).
Proof.
  intros Hs Hf Hd He Hpre Hj.
  destruct (streaming_answered st t body pre a Hs Hf Hd He Hpre) as (ms & Hms & Hfm).
  pose proof (buffered_answered st t' tj a Hs Hj) as Hmb.
  assert (forget_id_elapsed ms
          = forget_id_elapsed (answerMessage (S (S (msgIdCounter st))) a (elapsed st)))
    as Hsame.
  { destruct ms. cbn in Hfm. by injection Hfm as _ -> -> -> ->. }
  split; [intros; apply request_body_same|].
  split; [by rewrite streaming_fetches, buffered_fetches|].
  split.
  - rewrite Hms, Hmb, !fmap_app. cbn [fmap list_fmap]. by rewrite Hsame.
  - by exists ms, (answerMessage (S (S (msgIdCounter st))) a (elapsed st)).
Qed.
End StreamingFacts.

(** ** The statements on the sample session *)

Lemma handleSend_returns_at_once_witness :
  (Js.trim (input (typeInput "  " demo_state)) = ""
   ∨ loading (typeInput "  " demo_state) = true)
  ∧ Streaming.handleSend "" demo_parse demo_fetch (typeInput "  " demo_state)
    = (typeInput "  " demo_state, [])
  ∧ Buffered.handleSend "" demo_fetch_json (typeInput "  " demo_state)
    = (typeInput "  " demo_state, []).
Proof.
  split; [left; reflexivity|].
  apply (handleSend_returns_at_once "" demo_parse demo_fetch demo_fetch_json).
  left. reflexivity.
Defined.

Lemma request_has_one_mode_witness :
  let b : gmap string BodyValue :=
    <["industry_filter" := VNull]> (question_only "What next?") in
  b ∈ fetches (Streaming.handleSend "" demo_parse demo_fetch demo_state).2
  ∧ b !! "question" = Some (VString (Js.trim (input demo_state)))
  ∧ length (modes_present b) = 1.
Proof.
  intros b.
  assert (b ∈ fetches (Streaming.handleSend "" demo_parse demo_fetch demo_state).2)
    as Hb by (vm_compute; left).
  split; [exact Hb|].
  destruct (request_has_one_mode "" demo_parse demo_fetch demo_fetch_json
              demo_state b (or_introl Hb)) as (Hq & Hm & _).
  split; [exact Hq|exact Hm].
Defined.

Lemma follow_up_request_witness :
  sendable (demo_follow_up (Some "h1")) = true
  ∧ followUpSources (demo_follow_up (Some "h1")) ≠ []
  ∧ ∃ b : gmap string BodyValue,
      fetches (Streaming.handleSend "" demo_parse demo_fetch
                 (demo_follow_up (Some "h1"))).2 = [b]
      ∧ b !! "context_id" = Some (VString "h1").
Proof.
  split; [reflexivity|]. split; [discriminate|].
  destruct (follow_up_request "" demo_parse demo_fetch demo_fetch_json
              (demo_follow_up (Some "h1")) eq_refl)
    as (b & Hs & _ & Hc & _); [discriminate|].
  exists b. split; [exact Hs|].
  apply (Hc "h1"); [reflexivity|discriminate].
Defined.

(** C3, as stated, fails: with a source pinned and the empty string held as
    handle, which is not [null], the request carries [pinned_gcs_names] and
    no [context_id]. *)
Lemma empty_handle_is_not_sent :
  ¬ (∀ (st : State) (h : string) (b : gmap string BodyValue),
       followUpSources st ≠ [] → followUpContextId st = Some h →
       b ∈ fetches (Streaming.handleSend "" demo_parse demo_fetch st).2 →
       b !! "context_id" = Some (VString h)
       ∧ b !! "pinned_gcs_names" = None
       ∧ b !! "industry_filter" = None).
Proof.
  intros H.
  destruct (H (demo_follow_up (Some "")) ""
              (<["pinned_gcs_names" := VStrings ["reports/retail-2026.pdf"]]>
                 (question_only "What next?")))
    as [Hc _]; [discriminate|reflexivity|vm_compute; left|].
  vm_compute in Hc. discriminate.
Qed.

Lemma reader_is_chunking_invariant_witness :
  stream_text (reads demo_stream) = stream_text (reads demo_stream')
  ∧ end_done demo_stream = end_done demo_stream'
  ∧ (Streaming.read_loop demo_parse demo_stream (reads demo_stream) ""
       demo_state).2
    = (Streaming.read_loop demo_parse demo_stream' (reads demo_stream') ""
         demo_state).2.
Proof.
  split; [reflexivity|]. split; [reflexivity|].
  apply (reader_is_chunking_invariant demo_parse demo_stream demo_stream'
           demo_state); reflexivity.
Defined.

Lemma failed_send_falls_back_witness :
  sendable demo_state = true
  ∧ (∃ t body pre m rest,
       demo_fetch_failing ("" +:+ "/api/query-stream")
         (Streaming.request_body (Js.trim (input demo_state)) demo_state)
       = Response t true body
       ∧ data_events demo_parse (complete_lines (stream_text (reads body)))
         = (Some <$> pre) ++ Some (EvError m) :: rest
       ∧ Forall (λ e, is_answer e = false) pre)
  ∧ messages (Streaming.handleSend "" demo_parse demo_fetch_failing demo_state).1
    = [userMessage 1 "What next?"; fallbackMessage 2].
Proof.
  assert (∃ t body pre m rest,
       demo_fetch_failing ("" +:+ "/api/query-stream")
         (Streaming.request_body (Js.trim (input demo_state)) demo_state)
       = Response t true body
       ∧ data_events demo_parse (complete_lines (stream_text (reads body)))
         = (Some <$> pre) ++ Some (EvError m) :: rest
       ∧ Forall (λ e, is_answer e = false) pre) as Hfail.
  { exists 1, demo_failing_stream, [EvSearching; EvFound 1],
      "index unavailable", [].
    split; [reflexivity|]. split; [reflexivity|].
    repeat constructor. }
  split; [reflexivity|]. split; [exact Hfail|].
  destruct (failed_send_falls_back "" demo_parse demo_fetch_failing demo_state
              eq_refl) as [Hm _].
  exact (Hm (or_intror Hfail)).
Defined.

Lemma well_formed_stream_is_rendered_witness :
  sendable demo_state = true
  ∧ demo_fetch ("" +:+ "/api/query-stream")
      (Streaming.request_body (Js.trim (input demo_state)) demo_state)
    = Response 1 true demo_stream
  ∧ end_done demo_stream = true
  ∧ data_events demo_parse (complete_lines (stream_text (reads demo_stream)))
    = Some <$> well_formed_events 1 [demo_doc] demo_answer
  ∧ ∃ m,
      messages (Streaming.handleSend "" demo_parse demo_fetch demo_state).1
      = messages demo_state ++ [userMessage 1 "What next?"; m]
      ∧ ChatMessage.content m = "Shoppers trade down.".
Proof.
  split; [reflexivity|]. split; [reflexivity|]. split; [reflexivity|].
  split; [reflexivity|].
  destruct (well_formed_stream_is_rendered "" demo_parse demo_fetch demo_state
              1 demo_stream 1 [demo_doc] demo_answer
              eq_refl eq_refl eq_refl eq_refl)
    as ((m & Hm & _ & Hc & _) & _).
  exists m. split; [exact Hm|exact Hc].
Defined.

Lemma buffered_matches_streaming_witness :
  sendable demo_state = true
  ∧ data_events demo_parse (complete_lines (stream_text (reads demo_stream)))
    = Some <$> ([EvSearching; EvFound 1; EvLoading demo_doc; EvAnswering]
                  ++ [EvAnswer demo_answer])
  ∧ Forall (λ e, is_quiet e = true)
      [EvSearching; EvFound 1; EvLoading demo_doc; EvAnswering]
  ∧ forget_id_elapsed
      <$> messages (Streaming.handleSend "" demo_parse demo_fetch demo_state).1
    = forget_id_elapsed
        <$> messages (Buffered.handleSend "" demo_fetch_json demo_state).1.
Proof.
  assert (Forall (λ e, is_quiet e = true)
            [EvSearching; EvFound 1; EvLoading demo_doc; EvAnswering]) as Hq
    by (repeat constructor).
  split; [reflexivity|]. split; [reflexivity|]. split; [exact Hq|].
  destruct (buffered_matches_streaming "" demo_parse demo_fetch demo_fetch_json
              demo_state 1 1 1 demo_stream
              [EvSearching; EvFound 1; EvLoading demo_doc; EvAnswering]
              demo_answer eq_refl eq_refl eq_refl eq_refl Hq eq_refl)
    as (_ & _ & Hm & _).
  exact Hm.
Defined.

(** ** The events of a run of the orchestrator *)

Section OrchestratorFacts.

Set Default Proof Using "Type".

Import Orchestrator.

Variable retrieve : string → RetrievalFilter → nat → Outcome (list ChunkRef).
Variable synthesize : string → list ChunkRef → Outcome string.
Variable document_name : string → string.
Variable new_handle : gmap string QueryContext → string.
Variable topK : nat.
Variable ttl : nat.

Lemma answering_events (q : string) (cs : list ChunkRef)
    (cache : gmap string QueryContext) (now wall : nat) :
  ∃ t, is_terminal t = true
       ∧ events (answering synthesize document_name new_handle q cs cache now wall)
         = [Answering; t]
       ∧ synthesized
           (answering synthesize document_name new_handle q cs cache now wall)
         = [(q, cs)].
Proof.
  unfold answering. destruct (synthesize q cs) as [text|message].
  - unfold store. eexists. split; [|split; reflexivity]. reflexivity.
  - eexists. split; [|split; reflexivity]. reflexivity.
Qed.

Lemma searching_shape (q : string) (filter : RetrievalFilter)
    (cache : gmap string QueryContext) (now wall : nat) :
  run_shape
    (events
       (searching retrieve synthesize document_name new_handle topK q filter
          cache now wall)).
Proof.
  unfold searching. destruct (retrieve q filter topK) as [cs|message].
  - destruct (answering_events q cs cache now wall) as (t & Ht & He & _).
    cbn [events]. rewrite He. apply shape_retrieved; [|done].
    by apply Forall_fmap, Forall_true.
  - apply shape_no_retrieval.
Qed.

Lemma run_has_shape (req : QueryRequest) (cache : gmap string QueryContext)
    (now wall : nat) :
  run_shape (events (handle_request retrieve synthesize document_name new_handle topK ttl
       req cache now wall)).
Proof.
  destruct req as [q [names|]|q h|q ids]; cbn [handle_request];
    try apply searching_shape.
  destruct (load ttl cache now h) as [cs|]; [|apply searching_shape].
  destruct (answering_events q cs cache now wall) as (t & Ht & -> & _).
  by apply shape_fast.
Qed.

Lemma sorted_lookup (l : list PhaseEvent) (i j : nat) (x y : PhaseEvent) :
  StronglySorted rank_le l → i < j → l !! i = Some x → l !! j = Some y →
  rank_le x y.
Proof.
  intros Hl. revert i j. induction Hl as [|z l _ IH Hz]; intros i j Hij Hi Hj.
  - done.
  - destruct j as [|j]; [lia|]. cbn in Hj. destruct i as [|i]; cbn in Hi.
    + injection Hi as <-. rewrite Forall_forall in Hz. apply Hz.
      by apply list_elem_of_lookup_2 in Hj.
    + apply (IH i j); [lia|done..].
Qed.

Lemma sorted_precedes (p q : PhaseEvent → bool) (l : list PhaseEvent) :
  StronglySorted rank_le l →
  (∀ x y, p x = true → q y = true → phase_rank x < phase_rank y) →
  precedes p q l.
Proof.
  intros Hl Hpq i j x y Hi Hj Hp Hq. specialize (Hpq x y Hp Hq).
  destruct (decide (i < j)) as [|Hn]; [done|].
  destruct (decide (j = i)) as [->|Hne].
  - assert (x = y) as -> by congruence. lia.
  - assert (j < i) as Hji by lia.
    pose proof (sorted_lookup l j i y x Hl Hji Hj Hi) as Hr.
    unfold rank_le in Hr. lia.
Qed.

Local Ltac by_rank :=
  unfold rank_le;
  repeat match goal with H : phase_rank _ = _ |- _ => rewrite H end;
  cbn [phase_rank]; lia.

Lemma shape_sorted (l : list PhaseEvent) :
  run_shape l → StronglySorted rank_le l.
Proof.
  intros [t Ht|message|n loadings t Hl Ht].
  - apply StronglySorted_cons. split; [|by repeat constructor].
    constructor; [|done]. destruct t; try done; by_rank.
  - apply StronglySorted_cons. split; [|by repeat constructor].
    constructor; [|done]. by_rank.
  - assert (Forall (λ e, phase_rank e = 2) loadings) as Hr.
    { eapply Forall_impl; [exact Hl|]. by intros []. }
    assert (phase_rank t = 4) as Hrt by by destruct t.
    apply StronglySorted_cons. split.
    { constructor; [by_rank|].
      apply Forall_app. split.
      - eapply Forall_impl; [exact Hr|]. intros e He. cbv beta in He. by_rank.
      - repeat constructor; by_rank. }
    apply StronglySorted_cons. split.
    { apply Forall_app. split.
      - eapply Forall_impl; [exact Hr|]. intros e He. cbv beta in He. by_rank.
      - repeat constructor; by_rank. }
    apply StronglySorted_app. split; [|split].
    + intros x1 x2 Hx1 Hx2. rewrite Forall_forall in Hr.
      specialize (Hr x1 Hx1).
      rewrite !elem_of_cons, elem_of_nil in Hx2.
      destruct Hx2 as [->|[->|[]]]; by_rank.
    + clear Hl. induction Hr as [|e ls He Hr IH]; constructor; [done|].
      eapply Forall_impl; [exact Hr|]. intros e' He'. cbv beta in He'. by_rank.
    + apply StronglySorted_cons. split; [|by repeat constructor].
      constructor; [|done]. by_rank.
Qed.

Lemma shape_terminal (l : list PhaseEvent) :
  run_shape l →
  ∃ pre t, l = pre ++ [t] ∧ is_terminal t = true
           ∧ Forall (λ e, is_terminal e = false) pre.
Proof.
  intros [t Ht|message|n loadings t Hl Ht].
  - exists [Answering], t. repeat split; [done|]. by repeat constructor.
  - exists [Searching], (Error message). repeat split. by repeat constructor.
  - exists (Searching :: Found n :: loadings ++ [Answering]), t.
    split; [cbn [app]; by rewrite <- app_assoc|]. split; [done|].
    do 2 (constructor; [done|]). apply Forall_app. split.
    + eapply Forall_impl; [exact Hl|]. by intros [].
    + by repeat constructor.
Qed.

Lemma shape_members (l : list PhaseEvent) :
  run_shape l →
  (∀ y, y ∈ l → is_found y = true → Searching ∈ l)
  ∧ (∀ y, y ∈ l → is_loading y = true → ∃ n, Found n ∈ l)
  ∧ (∀ r, Answer r ∈ l → Answering ∈ l).
Proof.
  intros [t Ht|message|n loadings t Hl Ht].
  - split; [|split].
    + intros y Hy Hf. rewrite !elem_of_cons, elem_of_nil in Hy.
      destruct Hy as [->|[->|[]]]; [done|by destruct t].
    + intros y Hy Hf. rewrite !elem_of_cons, elem_of_nil in Hy.
      destruct Hy as [->|[->|[]]]; [done|by destruct t].
    + intros r _. by left.
  - split; [|split].
    + intros y _ _. by left.
    + intros y Hy Hf. rewrite !elem_of_cons, elem_of_nil in Hy.
      by destruct Hy as [->|[->|[]]].
    + intros r Hr. rewrite !elem_of_cons, elem_of_nil in Hr.
      by destruct Hr as [|[|[]]].
  - split; [|split].
    + intros y _ _. by left.
    + intros y _ _. exists n. right. by left.
    + intros r _. do 2 right. apply elem_of_app. right. by left.
Qed.

Lemma precedes_before (p q : PhaseEvent → bool) (l : list PhaseEvent)
    (x y : PhaseEvent) (j : nat) :
  precedes p q l → x ∈ l → p x = true → l !! j = Some y → q y = true →
  ∃ i, i < j ∧ l !! i = Some x.
Proof.
  intros Hpq Hx Hp Hj Hq. apply list_elem_of_lookup_1 in Hx as [i Hi].
  exists i. split; [|done]. by apply (Hpq i j x y).
Qed.

(** C1. A follow-up request whose handle is in the cache and younger than
    the time to live: the run emits no [Searching], [Found] or [Loading]
    event, and calls the synthesizer once, with the question and exactly
    the chunks cached under the handle. *)
Theorem fast_path_skips_retrieval (q h : string)
    (cache : gmap string QueryContext) (now wall : nat) (ctx : QueryContext) :
  cache !! h = Some ctx → now < created ctx + ttl →
  let r := handle_request retrieve synthesize document_name new_handle topK ttl
      (FollowUp q h) cache now wall in
  Forall (λ e, is_searching e = false ∧ is_found e = false
               ∧ is_loading e = false) (events r)
  ∧ synthesized r = [(q, chunks ctx)].
Proof.
  intros Hc Hnow. cbn zeta. cbn [handle_request]. unfold load.
  rewrite Hc, bool_decide_true by done.
  destruct (answering_events q (chunks ctx) cache now wall) as (t & Ht & -> & ->).
  split; [|done]. repeat constructor; by destruct t.
Qed.

Lemma searching_answering_or_failed (q : string) (filter : RetrievalFilter)
    (cache : gmap string QueryContext) (now wall : nat) :
  Answering
    ∈ events (searching retrieve synthesize document_name new_handle topK q
                filter cache now wall)
  ∨ ∃ m, retrieve q filter topK = Failed m
         ∧ events (searching retrieve synthesize document_name new_handle topK
                     q filter cache now wall)
           = [Searching; Error m].
Proof.
  unfold searching. destruct (retrieve q filter topK) as [cs|m].
  - left. destruct (answering_events q cs cache now wall) as (t & _ & He & _).
    cbn [events]. rewrite He. do 2 right. apply elem_of_app. right. by left.
  - right. by exists m.
Qed.

Lemma run_answering_or_failed (req : QueryRequest)
    (cache : gmap string QueryContext) (now wall : nat) :
  Answering
    ∈ events (handle_request retrieve synthesize document_name new_handle topK
                ttl req cache now wall)
  ∨ ∃ q f m, retrieve q f topK = Failed m
             ∧ events (handle_request retrieve synthesize document_name
                         new_handle topK ttl req cache now wall)
               = [Searching; Error m].
Proof.
  assert (∀ q f,
    Answering
      ∈ events (searching retrieve synthesize document_name new_handle topK q
                  f cache now wall)
    ∨ ∃ q' f' m, retrieve q' f' topK = Failed m
                 ∧ events (searching retrieve synthesize document_name
                             new_handle topK q f cache now wall)
                   = [Searching; Error m]) as Hs.
  { intros q f.
    destruct (searching_answering_or_failed q f cache now wall)
      as [Ha|(m & Hr & He)]; [by left|].
    right. by exists q, f, m. }
  destruct req as [q [names|]|q h|q ids]; cbn [handle_request]; try apply Hs.
  destruct (load ttl cache now h) as [cs|]; [|apply Hs].
  left. destruct (answering_events q cs cache now wall) as (t & _ & -> & _).
  by left.
Qed.

(** What a client that leaves receives is a prefix of the whole run. *)
Lemma until_events (patience : option nat) (req : QueryRequest)
    (cache : gmap string QueryContext) (now wall : nat) :
  ∃ k,
    events (handle_request_until retrieve synthesize document_name new_handle
              topK ttl patience req cache now wall)
    = take k (events (handle_request retrieve synthesize document_name
                        new_handle topK ttl req cache now wall))
    ∧ (leaves_early patience
         (length (events (handle_request retrieve synthesize document_name
                            new_handle topK ttl req cache now wall)))
       ↔ k < length (events (handle_request retrieve synthesize document_name
                               new_handle topK ttl req cache now wall))).
Proof.
  unfold handle_request_until, leaves_early.
  set (r := handle_request retrieve synthesize document_name new_handle topK
              ttl req cache now wall).
  destruct patience as [k|].
  - exists k. case_bool_decide as Hk.
    + split; [done|]. split; [done|]. intros _. by exists k.
    + rewrite take_ge by lia. split; [done|].
      split; [|lia]. intros (k' & Hk' & Hlt). congruence.
  - exists (length (events r)). rewrite take_ge by lia. split; [done|].
    split; [|lia]. by intros (k' & Hk' & _).
Qed.

Lemma precedes_take (p q : PhaseEvent → bool) (l : list PhaseEvent) (k : nat) :
  precedes p q l → precedes p q (take k l).
Proof.
  intros H i j x y Hi Hj.
  apply lookup_take_Some in Hi as [Hi _]. apply lookup_take_Some in Hj as [Hj _].
  by apply (H i j x y).
Qed.

(** A terminal event among the events delivered is the last event of the
    whole run. *)
Lemma take_terminal (l pre0 : list PhaseEvent) (t0 : PhaseEvent) (k : nat)
    (pre post : list PhaseEvent) (t : PhaseEvent) :
  l = pre0 ++ [t0] → Forall (λ e, is_terminal e = false) pre0 →
  take k l = pre ++ t :: post → is_terminal t = true →
  post = [] ∧ pre = pre0.
Proof.
  intros -> Hpre0 He Ht.
  assert (take k (pre0 ++ [t0]) !! length pre = Some t) as Hl
    by (by rewrite He, list_lookup_middle).
  apply lookup_take_Some in Hl as [Hl Hlt].
  assert (length pre0 ≤ length pre) as Hge.
  { destruct (decide (length pre < length pre0)) as [Hlt'|]; [|lia].
    rewrite lookup_app_l in Hl by done.
    rewrite Forall_lookup in Hpre0. specialize (Hpre0 _ _ Hl).
    cbv beta in Hpre0. congruence. }
  pose proof (f_equal length He) as Hlen.
  rewrite length_take, !length_app in Hlen. cbn [length] in Hlen.
  assert (post = []) as -> by (apply length_zero_iff_nil; lia).
  split; [done|].
  rewrite take_ge in He by (rewrite length_app; cbn [length]; lia).
  by apply app_inj_tail in He as [-> _].
Qed.

(** C4. In the events of every run, in the order emitted, whether the
    client stays or disconnects: every [Searching] comes before every
    [Found], every [Found] before every [Loading], every [Loading] before
    every [Answering], and every [Answering] before every terminal event;
    a [Found] has a [Searching] before it and a [Loading] a [Found]; a
    terminal event has an [Answering] before it, unless it is the [Error]
    of a retrieval that failed, which follows [Searching] directly; a
    terminal event is the only one and nothing is emitted after it; a run
    whose client stays ends with its terminal event, and a run whose client
    leaves early is a proper prefix of it, with no terminal event. *)
Theorem events_follow_the_protocol (patience : option nat)
    (req : QueryRequest) (cache : gmap string QueryContext) (now wall : nat) :
  let full := events (handle_request retrieve synthesize document_name
                        new_handle topK ttl req cache now wall) in
  let l := events (handle_request_until retrieve synthesize document_name
                     new_handle topK ttl patience req cache now wall) in
  (precedes is_searching is_found l ∧ precedes is_found is_loading l
   ∧ precedes is_loading is_answering l ∧ precedes is_answering is_terminal l)
  ∧ (∀ j y, l !! j = Some y → is_found y = true →
       ∃ i, i < j ∧ l !! i = Some Searching)
  ∧ (∀ j y, l !! j = Some y → is_loading y = true →
       ∃ i n, i < j ∧ l !! i = Some (Found n))
  ∧ (∀ j y, l !! j = Some y → is_terminal y = true →
       (∃ i, i < j ∧ l !! i = Some Answering)
       ∨ (∃ q f m, retrieve q f topK = Failed m ∧ y = Error m
                   ∧ l = [Searching; Error m]))
  ∧ (∀ pre t post, l = pre ++ t :: post → is_terminal t = true →
       post = [] ∧ Forall (λ e, is_terminal e = false) pre)
  ∧ (¬ leaves_early patience (length full) →
       l = full ∧ ∃ pre t, l = pre ++ [t] ∧ is_terminal t = true)
  ∧ (leaves_early patience (length full) →
       l `prefix_of` full ∧ l ≠ full
       ∧ Forall (λ e, is_terminal e = false) l).
Proof.
  cbn zeta.
  destruct (until_events patience req cache now wall) as (k & -> & Hk).
  pose proof (run_has_shape req cache now wall) as Hshape.
  pose proof (run_answering_or_failed req cache now wall) as Hcases.
  revert Hk Hshape Hcases.
  generalize (events (handle_request retrieve synthesize document_name
                        new_handle topK ttl req cache now wall)).
  intros full Hk Hshape Hcases.
  pose proof (shape_sorted _ Hshape) as Hsorted.
  destruct (shape_members _ Hshape) as (Hfound & Hloading & _).
  destruct (shape_terminal _ Hshape) as (pre0 & t0 & Hfull & Ht0 & Hpre0).
  assert (precedes is_searching is_found full) as H1
    by (apply sorted_precedes; [done|]; intros [] []; cbn; (done || lia)).
  assert (precedes is_found is_loading full) as H2
    by (apply sorted_precedes; [done|]; intros [] []; cbn; (done || lia)).
  assert (precedes is_loading is_answering full) as H3
    by (apply sorted_precedes; [done|]; intros [] []; cbn; (done || lia)).
  assert (precedes is_answering is_terminal full) as H4
    by (apply sorted_precedes; [done|]; intros [] []; cbn; (done || lia)).
  split; [by repeat split; apply precedes_take|].
  split; [|split; [|split; [|split; [|split]]]].
  - intros j y Hj Hy. apply lookup_take_Some in Hj as [Hj Hjk].
    destruct (precedes_before is_searching is_found full Searching y j)
      as (i & Hi & Hl); try done.
    { apply (Hfound y); [by apply list_elem_of_lookup_2 in Hj|done]. }
    exists i. split; [done|]. apply lookup_take_Some. split; [done|lia].
  - intros j y Hj Hy. apply lookup_take_Some in Hj as [Hj Hjk].
    destruct (Hloading y) as [n Hn];
      [by apply list_elem_of_lookup_2 in Hj|done|].
    destruct (precedes_before is_found is_loading full (Found n) y j)
      as (i & Hi & Hl); try done.
    exists i, n. split; [done|]. apply lookup_take_Some. split; [done|lia].
  - intros j y Hj Hy. apply lookup_take_Some in Hj as [Hj Hjk].
    destruct Hcases as [Ha|(q & f & m & Hr & ->)].
    + left.
      destruct (precedes_before is_answering is_terminal full Answering y j)
        as (i & Hi & Hl); try done.
      exists i. split; [done|]. apply lookup_take_Some. split; [done|lia].
    + right. exists q, f, m. split; [done|].
      destruct j as [|[|j]]; cbn in Hj; [by simplify_eq| |done].
      injection Hj as <-. split; [done|].
      by rewrite take_ge by (cbn [length]; lia).
  - intros pre t post He Ht.
    destruct (take_terminal full pre0 t0 k pre post t) as [-> ->]; done.
  - intros Hn. assert (¬ k < length full) as Hge by (by rewrite <- Hk).
    rewrite take_ge by lia. split; [done|]. by exists pre0, t0.
  - intros He. apply Hk in He. split; [apply prefix_take|]. split.
    + intros Heq. apply (f_equal length) in Heq.
      rewrite length_take in Heq. lia.
    + subst full. rewrite length_app in He. cbn [length] in He.
      rewrite take_app_le by lia. by apply Forall_take.
Qed.

End OrchestratorFacts.

(** C4, as stated, fails on two runs. When the retrieval fails the run is
    [Searching] followed by [Error]: its terminal event has no [Answering]
    before it. When the client disconnects after the first event the run is
    [Searching] alone: it has no terminal event. *)
Lemma terminal_without_answering :
  Orchestrator.events
    (Orchestrator.handle_request demo_retrieve_failing demo_synthesize
       demo_document_name demo_new_handle 5 60
       (Orchestrator.Fresh "What next?" None) demo_cache 130 2)
  = [Orchestrator.Searching; Orchestrator.Error "index unavailable"]
  ∧ ¬ Orchestrator.ordering_invariant
        (Orchestrator.events
           (Orchestrator.handle_request demo_retrieve_failing demo_synthesize
              demo_document_name demo_new_handle 5 60
              (Orchestrator.Fresh "What next?" None) demo_cache 130 2))
  ∧ Orchestrator.events
      (Orchestrator.handle_request_until demo_retrieve demo_synthesize
         demo_document_name demo_new_handle 5 60 (Some 1)
         (Orchestrator.Fresh "What next?" None) demo_cache 130 2)
    = [Orchestrator.Searching]
  ∧ ¬ Orchestrator.ordering_invariant
        (Orchestrator.events
           (Orchestrator.handle_request_until demo_retrieve demo_synthesize
              demo_document_name demo_new_handle 5 60 (Some 1)
              (Orchestrator.Fresh "What next?" None) demo_cache 130 2)).
Proof.
  split; [reflexivity|]. split; [|split; [reflexivity|]].
  - intros (_ & _ & _ & pre & t & He & _ & _ & Ha).
    change ([Orchestrator.Searching; Orchestrator.Error "index unavailable"]
            = pre ++ [t]) in He.
    destruct pre as [|a [|b pre]]; [done| |by destruct pre].
    injection He as <- _. by apply list_elem_of_singleton in Ha.
  - intros (_ & _ & _ & pre & t & He & Ht & _).
    change ([Orchestrator.Searching] = pre ++ [t]) in He.
    destruct pre as [|a pre]; [|by destruct pre].
    injection He as <-. done.
Qed.

Lemma fast_path_skips_retrieval_witness :
  demo_cache !! "h1"
  = Some (Orchestrator.mkQueryContext "h1" [demo_chunk; demo_chunk] 100
            "What are the biggest consumer trends for 2026?")
  ∧ 130 < 100 + 60
  ∧ Orchestrator.synthesized
      (Orchestrator.handle_request demo_retrieve demo_synthesize
         demo_document_name demo_new_handle 5 60
         (Orchestrator.FollowUp "And for retail?" "h1") demo_cache 130 2)
    = [("And for retail?", [demo_chunk; demo_chunk])].
Proof.
  split; [reflexivity|]. split; [lia|].
  apply (fast_path_skips_retrieval demo_retrieve demo_synthesize
           demo_document_name demo_new_handle 5 60
           "And for retail?" "h1" demo_cache 130 2
           (Orchestrator.mkQueryContext "h1" [demo_chunk; demo_chunk] 100
              "What are the biggest consumer trends for 2026?"));
    [reflexivity|cbn; lia].
Defined.

(** ** The sample session, run *)

Example trim_sample : Js.trim (input demo_state) = "What next?".
Proof. reflexivity. Qed.

Example lines_sample :
  lines_of ("a" +:+ nl +:+ nl +:+ "data: b" +:+ nl +:+ "c")
  = (["a"; ""; "data: b"], "c").
Proof. reflexivity. Qed.

(** The streamed answer: five ticks pass in all, four of them before the
    answer event is dispatched. *)
Example streaming_sample :
  let r := Streaming.handleSend "" demo_parse demo_fetch demo_state in
  messages r.1 = [userMessage 1 "What next?"; answerMessage 2 demo_answer 4]
  ∧ r.2 = [Fetch "/api/query-stream"
             (<["industry_filter" := VNull]> (question_only "What next?"));
           Dispatch EvSearching; Dispatch (EvFound 1);
           Dispatch (EvLoading demo_doc); Dispatch EvAnswering;
           Dispatch (EvAnswer demo_answer); FocusTextarea]
  ∧ (input r.1, loading r.1, elapsed r.1, loadingPhase r.1, loadingDocs r.1)
    = ("", false, 4, None, []).
Proof. vm_compute. repeat split. Qed.

(** The buffered answer records the elapsed time of the render that sent
    the question, here zero. *)
Example buffered_sample :
  messages (Buffered.handleSend "" demo_fetch_json demo_state).1
  = [userMessage 1 "What next?"; answerMessage 2 demo_answer 0].
Proof. reflexivity. Qed.

(** The first scenario of the protocol, and its follow-up on the handle. *)
Example fresh_question_sample :
  Orchestrator.events
    (Orchestrator.handle_request demo_retrieve demo_synthesize
       demo_document_name demo_new_handle 5 60
       (Orchestrator.Fresh "What next?" None) demo_cache 130 2)
  = [Orchestrator.Searching; Orchestrator.Found 1;
     Orchestrator.Loading "Retail 2026" "Retail"; Orchestrator.Answering;
     Orchestrator.Answer
       (Orchestrator.mkAnswerResult "Shoppers trade down."
          [Orchestrator.mkSourceDoc "reports/retail-2026.pdf" "Retail 2026"
             "Retail" ["consumer"] None]
          "h2" 2)].
Proof. reflexivity. Qed.

Example follow_up_sample :
  Orchestrator.events
    (Orchestrator.handle_request demo_retrieve demo_synthesize
       demo_document_name demo_new_handle 5 60
       (Orchestrator.FollowUp "And for retail?" "h1") demo_cache 130 2)
  = [Orchestrator.Answering;
     Orchestrator.Answer
       (Orchestrator.mkAnswerResult "Shoppers trade down."
          [Orchestrator.mkSourceDoc "reports/retail-2026.pdf" "Retail 2026"
             "Retail" ["consumer"] None]
          "h2" 2)].
Proof. reflexivity. Qed.

(** An expired handle retrieves afresh. *)
Example expired_handle_sample :
  Orchestrator.is_searching
    <$> head
          (Orchestrator.events
             (Orchestrator.handle_request demo_retrieve demo_synthesize
                demo_document_name demo_new_handle 5 60
                (Orchestrator.FollowUp "And for retail?" "h1") demo_cache 160 2))
  = Some true.
Proof. reflexivity. Qed.

(** A client that disconnects once [Answering] has reached it: the
    synthesizer was called, its result is discarded, and the cache is left
    as it was. *)
Example cancelled_run_sample :
  Orchestrator.handle_request_until demo_retrieve demo_synthesize
    demo_document_name demo_new_handle 5 60 (Some 4)
    (Orchestrator.Fresh "What next?" None) demo_cache 130 2
  = Orchestrator.mkRun
      [Orchestrator.Searching; Orchestrator.Found 1;
       Orchestrator.Loading "Retail 2026" "Retail"; Orchestrator.Answering]
      [("What next?", [demo_chunk])] demo_cache.
Proof. reflexivity. Qed.

(** ** The industry picker *)

Lemma toggleIndustry_selected (name : string) (st : State) :
  selectedIndustries (toggleIndustry name st)
  = if bool_decide (name ∈ selectedIndustries st)
    then filter (λ n, n ≠ name) (selectedIndustries st)
    else selectedIndustries st ++ [name].
Proof. reflexivity. Qed.

Lemma filter_other_absent (name : string) (l : list string) :
  name ∉ l → filter (λ n, n ≠ name) l = l.
Proof.
  induction l as [|x l IH]; intros Hn; [done|].
  rewrite not_elem_of_cons in Hn. destruct Hn as [Hx Hl].
  rewrite filter_cons_True by done. by rewrite IH.
Qed.

(** X1. Toggling an industry flips its membership in the selection and
    leaves the membership of every other name as it was; a selection
    without duplicates stays without duplicates, and no name but the
    toggled one is ever added. *)
Theorem toggleIndustry_flips (name other : string) (st : State) :
  (name ∈ selectedIndustries (toggleIndustry name st)
   ↔ name ∉ selectedIndustries st)
  ∧ (other ≠ name →
     (other ∈ selectedIndustries (toggleIndustry name st)
      ↔ other ∈ selectedIndustries st))
  ∧ (NoDup (selectedIndustries st) →
     NoDup (selectedIndustries (toggleIndustry name st)))
  ∧ selectedIndustries (toggleIndustry name st)
      ⊆+ selectedIndustries st ++ [name].
Proof.
  rewrite toggleIndustry_selected. case_bool_decide as Hin.
  - split; [|split; [|split]].
    + rewrite list_elem_of_filter. split; [by intros [Hne _]|done].
    + intros Hne. rewrite list_elem_of_filter. tauto.
    + apply NoDup_filter.
    + etrans; [apply sublist_submseteq, sublist_filter|].
      by apply submseteq_inserts_r.
  - split; [|split; [|split]].
    + rewrite elem_of_app, list_elem_of_singleton. split; [done|]. by right.
    + intros Hne. rewrite elem_of_app, list_elem_of_singleton. tauto.
    + intros Hnd. apply NoDup_app. split; [done|]. split.
      * intros x Hx Hx'. apply list_elem_of_singleton in Hx'. by subst.
      * apply NoDup_singleton.
    + done.
Qed.

(** X2. Toggling an industry that is not selected and toggling it again
    gives back the state, and so the same request body; toggling twice one
    that is selected, in a selection without duplicates, moves it to the
    end. *)
Theorem toggleIndustry_twice (name : string) (st : State) (q : string) :
  (name ∉ selectedIndustries st →
   toggleIndustry name (toggleIndustry name st) = st
   ∧ Streaming.request_body q (toggleIndustry name (toggleIndustry name st))
     = Streaming.request_body q st)
  ∧ (name ∈ selectedIndustries st →
     selectedIndustries (toggleIndustry name (toggleIndustry name st))
     = filter (λ n, n ≠ name) (selectedIndustries st) ++ [name]).
Proof.
  split.
  - intros Hnot.
    assert (toggleIndustry name (toggleIndustry name st) = st) as Heq.
    { destruct st as [ms inp ld el tr er inds sel sp sts fm fs fc lp ldocs lt mc iv].
      unfold toggleIndustry. cbn in *.
      rewrite (bool_decide_false (name ∈ sel)) by done.
      rewrite bool_decide_true by (apply elem_of_app; right; by left).
      rewrite filter_app, filter_other_absent by done.
      rewrite filter_cons_False, filter_nil, app_nil_r by (by intros Hne).
      done. }
    by rewrite Heq.
  - intros Hin. rewrite !toggleIndustry_selected.
    rewrite (bool_decide_true (name ∈ selectedIndustries st)) by done.
    rewrite bool_decide_false; [done|].
    rewrite list_elem_of_filter. by intros [Hne _].
Qed.

(** ** The follow-up toggle and what the page shows *)

Lemma request_body_pinned (q : string) (st : State) :
  followUpSources st ≠ [] →
  Streaming.request_body q st =
    match followUpContextId st with
    | Some h =>
        if Js.truthy h then <["context_id" := VString h]> (question_only q)
        else <["pinned_gcs_names" :=
                 VStrings (Source.gcs_name <$> followUpSources st)]>
               (question_only q)
    | None =>
        <["pinned_gcs_names" :=
            VStrings (Source.gcs_name <$> followUpSources st)]>
          (question_only q)
    end.
Proof.
  intros Hs. unfold Streaming.request_body, question_only.
  destruct (followUpSources st) as [|s l]; [done|]. cbn [length].
  rewrite bool_decide_true by lia. cbn [andb]. reflexivity.
Qed.

Lemma request_body_unpinned (q : string) (st : State) :
  followUpSources st = [] →
  Streaming.request_body q st
  = <["industry_filter" := industry_value st]> (question_only q).
Proof.
  intros Hs. unfold Streaming.request_body, question_only, industry_value.
  rewrite Hs. cbn [length]. rewrite bool_decide_false by lia. cbn [andb].
  by destruct (followUpContextId st).
Qed.

(** X3. What the page shows is what it sends. The follow-up banner is
    shown exactly when the body carries [context_id] or [pinned_gcs_names],
    and then the selected industries are not sent; the industry pills are
    shown exactly when the body carries the selected industries as its
    [industry_filter]; with neither shown the filter sent is [null]. *)
Theorem indicators_match_request (q : string) (st : State) :
  let b := Streaming.request_body q st in
  (followUpBannerShown st = true
   ↔ is_Some (b !! "context_id") ∨ is_Some (b !! "pinned_gcs_names"))
  ∧ (followUpBannerShown st = true → b !! "industry_filter" = None)
  ∧ (industryPillsShown st = true
     ↔ selectedIndustries st ≠ []
       ∧ b !! "industry_filter" = Some (VStrings (selectedIndustries st)))
  ∧ (followUpBannerShown st = false → industryPillsShown st = false →
     b !! "industry_filter" = Some VNull)
  ∧ b = Buffered.request_body q st.
Proof.
  cbn zeta. unfold followUpBannerShown, industryPillsShown.
  change (Buffered.request_body q st) with (Streaming.request_body q st).
  destruct (followUpSources st) as [|s l] eqn:Hs.
  - rewrite request_body_unpinned by done. unfold question_only, industry_value.
    cbn [length]. rewrite (bool_decide_false (0 < 0)) by lia.
    rewrite (bool_decide_true (0 = 0)) by done. cbn [andb].
    split; [|split; [|split; [|split]]].
    + split; [done|]. intros [[x Hx]|[x Hx]]; simplify_map_eq.
    + done.
    + rewrite lookup_insert_eq. destruct (selectedIndustries st) as [|i sel];
        cbn [length].
      * rewrite bool_decide_false by lia. split; [done|]. by intros [].
      * rewrite bool_decide_true by lia. split; [done|]. by intros _.
    + intros _ Hp. rewrite lookup_insert_eq. by rewrite Hp.
    + done.
  - assert (followUpSources st ≠ []) as Hne by by rewrite Hs.
    rewrite request_body_pinned by done. rewrite Hs. cbn [length].
    rewrite (bool_decide_true (0 < S _)) by lia.
    rewrite (bool_decide_false (S _ = 0)) by lia. cbn [andb].
    unfold question_only.
    split; [|split; [|split; [|split]]].
    + split; [|done]. intros _.
      destruct (followUpContextId st) as [h|]; [destruct (Js.truthy h)|];
        simplify_map_eq; eauto.
    + intros _.
      destruct (followUpContextId st) as [h|]; [destruct (Js.truthy h)|];
        by simplify_map_eq.
    + split; [done|]. intros [_ Hf].
      destruct (followUpContextId st) as [h|]; [destruct (Js.truthy h)|];
        simplify_map_eq.
    + done.
    + done.
Qed.

Lemma handleFollowUp_pin (k : nat) (s : Source.t) (l : list Source.t)
    (h : option string) (st : State) :
  handleFollowUp k (s :: l) h st
  = setFollowUpContextId h
      (setFollowUpSources (s :: l) (setFollowUpMsgId (Some k) st)).
Proof. reflexivity. Qed.

(** X4. The follow-up toggle under an assistant message with sources: a
    click on a message that is not the active one pins its id, its sources
    and its handle, whatever was pinned before, and makes it the active
    one; a click on the active message clears the three cells, so two
    clicks in a row leave nothing pinned. *)
Theorem follow_up_click_toggles (m : ChatMessage.t) (st : State) :
  followUpButtonShown m = true →
  (isFollowUpActive m st = false →
   let st' := clickFollowUp m st in
   followUpMsgId st' = Some (ChatMessage.id m)
   ∧ Some (followUpSources st') = ChatMessage.sources m
   ∧ followUpContextId st' = ChatMessage.context_id m
   ∧ followUpBannerShown st' = true
   ∧ isFollowUpActive m st' = true
   ∧ clickFollowUp m st' = clearFollowUp st)
  ∧ (isFollowUpActive m st = true → clickFollowUp m st = clearFollowUp st)
  ∧ followUpBannerShown (clearFollowUp st) = false.
Proof.
  intros Hb. unfold clickFollowUp. rewrite Hb.
  unfold followUpButtonShown in Hb.
  destruct (ChatMessage.role m); [done|].
  destruct (ChatMessage.sources m) as [[|s l]|] eqn:Hs; try done.
  cbv [default from_option id]. split; [|split; [|done]].
  - intros Ha. cbn zeta. rewrite Ha. cbv iota. rewrite handleFollowUp_pin.
    assert (isFollowUpActive m
              (setFollowUpContextId (ChatMessage.context_id m)
                 (setFollowUpSources (s :: l)
                    (setFollowUpMsgId (Some (ChatMessage.id m)) st))) = true)
      as Ha' by (unfold isFollowUpActive; by rewrite bool_decide_true).
    rewrite Ha'. by repeat split.
  - intros Ha. by rewrite Ha.
Qed.

(** ** What holds of the page after any events *)

Section PageFacts.

Set Default Proof Using "Type".

Variable API : string.
Variable JSON_parse : string → option StreamEvent.
Variable fetch : string → gmap string BodyValue → Fetched Stream.
Variable fetch_json : string → gmap string BodyValue → Fetched Json.

(** A property kept by a tick and by the dispatch of an event is kept by
    the reader loop, by the [try] block, and, when the first statements, the
    [catch] and the [finally] keep it too, by the whole send. *)
Lemma ticks_invariant (P : State → Prop) (n : nat) (st : State) :
  (∀ s, P s → P (Streaming.tick s)) → P st → P (Streaming.ticks n st).
Proof.
  intros Ht Hst. induction n as [|n IH]; [done|].
  change (Streaming.ticks (S n) st) with (Streaming.tick (Streaming.ticks n st)).
  by apply Ht.
Qed.

Lemma dispatch_all_invariant (P : State → Prop)
    (events : list (option StreamEvent)) (st : State) :
  (∀ e s, P s → P (state_of (Streaming.handle_event e s))) →
  P st → P (state_of (dispatch_all events st).1).
Proof.
  intros He. revert st. induction events as [|[event|] rest IH]; intros st Hst;
    cbn [dispatch_all]; [done| |done].
  specialize (He event st Hst).
  destruct (Streaming.handle_event event st) as [s|s]; [|done].
  specialize (IH s He). by destruct (dispatch_all rest s).
Qed.

Lemma read_loop_invariant (P : State → Prop) (body : Stream)
    (pending : list (nat * string)) (buffer : string) (st : State) :
  (∀ s, P s → P (Streaming.tick s)) →
  (∀ e s, P s → P (state_of (Streaming.handle_event e s))) →
  P st →
  P (state_of (Streaming.read_loop JSON_parse body pending buffer st).1).
Proof.
  intros Ht He. revert buffer st.
  induction pending as [|[t value] rest IH]; intros buffer st Hst.
  - cbn [Streaming.read_loop fst].
    destruct (end_done body); cbn [state_of]; by apply ticks_invariant.
  - rewrite read_loop_cons, for_lines_dispatch.
    pose proof (dispatch_all_invariant P
                  (data_events JSON_parse (lines_of (buffer +:+ value)).1)
                  (Streaming.ticks t st) He (ticks_invariant P t st Ht Hst)) as Hd.
    destruct (dispatch_all _ (Streaming.ticks t st)) as [[s|s] log];
      cbn [fst state_of] in *; [|done].
    specialize (IH (lines_of (buffer +:+ value)).2 s Hd).
    by destruct (Streaming.read_loop _ _ _ _ s).
Qed.

Lemma try_block_invariant (P : State → Prop) (b : gmap string BodyValue)
    (st : State) :
  (∀ s, P s → P (Streaming.tick s)) →
  (∀ e s, P s → P (state_of (Streaming.handle_event e s))) →
  P st →
  P (state_of (Streaming.try_block API JSON_parse fetch b st).1).
Proof.
  intros Ht He Hst. unfold Streaming.try_block.
  destruct (fetch _ b) as [t|t [] body]; cbn [negb fst state_of];
    [by apply ticks_invariant| |by apply ticks_invariant].
  apply read_loop_invariant; [done..|]. by apply ticks_invariant.
Qed.

Lemma streaming_invariant (P : State → Prop) (st : State) :
  (∀ s, P s → P (Streaming.tick s)) →
  (∀ e s, P s → P (state_of (Streaming.handle_event e s))) →
  (∀ q s, P s → P (Streaming.begin q s)) →
  (∀ s, P s → P (Streaming.catch s)) →
  (∀ s, P s → P (Streaming.finally s)) →
  P st → P (Streaming.handleSend API JSON_parse fetch st).1.
Proof.
  intros Ht He Hb Hc Hf Hst. unfold Streaming.handleSend.
  destruct (negb _ || _); [done|].
  pose proof (try_block_invariant P
                (Streaming.request_body (Js.trim (input st)) st)
                (Streaming.begin (Js.trim (input st)) st) Ht He (Hb _ _ Hst)) as Hr.
  destruct (Streaming.try_block _ _ _ _ _) as [[s|s] log]; cbn [fst state_of] in *.
  - by apply Hf.
  - by apply Hf, Hc.
Qed.

Lemma buffered_ticks_invariant (P : State → Prop) (n : nat) (st : State) :
  (∀ s, P s → P (Buffered.tick s)) → P st → P (Buffered.ticks n st).
Proof.
  intros Ht Hst. induction n as [|n IH]; [done|].
  change (Buffered.ticks (S n) st) with (Buffered.tick (Buffered.ticks n st)).
  by apply Ht.
Qed.

(** The same for the buffered page; [append] is the statement that appends
    the answer. *)
Lemma buffered_invariant (P : State → Prop) (st : State) :
  (∀ s, P s → P (Buffered.tick s)) →
  (∀ q s, P s → P (Buffered.begin q s)) →
  (∀ (a : Answer.t) (shown : nat) s, P s →
     P (setMessages
          (messages s ++ [answerMessage (S (msgIdCounter s)) a shown])
          (setMsgIdCounter (S (msgIdCounter s)) s))) →
  (∀ s, P s → P (Buffered.catch s)) →
  (∀ s, P s → P (Buffered.finally s)) →
  P st → P (Buffered.handleSend API fetch_json st).1.
Proof.
  intros Ht Hb Ha Hc Hf Hst. unfold Buffered.handleSend.
  destruct (negb _ || _); [done|]. cbn [fst]. unfold Buffered.try_block.
  specialize (Hb (Js.trim (input st)) st Hst).
  destruct (fetch_json _ _) as [t|t [] [tj [data|]]];
    cbn [negb json_ticks json_data].
  - by apply Hf, Hc, buffered_ticks_invariant.
  - apply Hf.
    apply (Ha data (elapsed st)
             (Buffered.ticks tj
                (Buffered.ticks t (Buffered.begin (Js.trim (input st)) st)))).
    by do 2 (apply buffered_ticks_invariant; [done|]).
  - apply Hf, Hc. by do 2 (apply buffered_ticks_invariant; [done|]).
  - by apply Hf, Hc, buffered_ticks_invariant.
  - by apply Hf, Hc, buffered_ticks_invariant.
Qed.

Lemma ui_run_invariant (send : State → State * list Effect) (P : State → Prop)
    (events : list UiEvent) (st : State) :
  (∀ s e, P s → P (ui_step send s e)) → P st → P (ui_run send events st).
Proof.
  intros Hstep. unfold ui_run. revert st.
  induction events as [|e events IH]; intros st Hst; [done|].
  cbn [foldl]. by apply IH, Hstep.
Qed.

Lemma messages_streaming_prefix (st : State) :
  messages st `prefix_of` messages (Streaming.handleSend API JSON_parse fetch st).1.
Proof.
  apply (streaming_invariant (λ s, messages st `prefix_of` messages s)); try done.
  - intros e s Hs. etrans; [exact Hs|]. apply messages_handle_event.
  - intros q s Hs. etrans; [exact Hs|]. by apply prefix_app_r.
  - intros s Hs. etrans; [exact Hs|]. by apply prefix_app_r.
  - intros s Hs. by rewrite messages_finally.
Qed.

Lemma messages_buffered_prefix (st : State) :
  messages st `prefix_of` messages (Buffered.handleSend API fetch_json st).1.
Proof.
  apply (buffered_invariant (λ s, messages st `prefix_of` messages s)); try done.
  - intros q s Hs. etrans; [exact Hs|]. by apply prefix_app_r.
  - intros a shown s Hs. etrans; [exact Hs|]. by apply prefix_app_r.
  - intros s Hs. etrans; [exact Hs|]. by apply prefix_app_r.
  - intros s Hs. by rewrite messages_buffered_finally.
Qed.

Lemma grounded_later (st st' : State) :
  followUpMsgId st' = followUpMsgId st →
  followUpSources st' = followUpSources st →
  followUpContextId st' = followUpContextId st →
  messages st `prefix_of` messages st' →
  follow_up_grounded st → follow_up_grounded st'.
Proof.
  unfold follow_up_grounded. intros -> -> -> Hp.
  destruct (followUpMsgId st) as [k|]; [|done].
  intros [Hne (m & Hm & Hrest)]. split; [done|]. exists m. split; [|done].
  destruct Hp as [k' ->]. apply elem_of_app. by left.
Qed.

Lemma grounded_send (send : State → State * list Effect) (st : State) :
  selection (send st).1 = selection st →
  messages st `prefix_of` messages (send st).1 →
  follow_up_grounded st → follow_up_grounded (send st).1.
Proof.
  intros Hsel Hp. unfold selection in Hsel.
  injection Hsel as _ _ _ _ Hk Hs Hc. by apply grounded_later.
Qed.

Lemma grounded_click (m : ChatMessage.t) (st : State) :
  m ∈ messages st → follow_up_grounded st →
  follow_up_grounded (clickFollowUp m st).
Proof.
  intros Hm Hg. unfold clickFollowUp, followUpButtonShown.
  destruct (ChatMessage.role m) eqn:Hr; [done|].
  destruct (ChatMessage.sources m) as [[|s l]|] eqn:Hs; try done.
  cbv [default from_option id]. destruct (isFollowUpActive m st); [done|].
  rewrite handleFollowUp_pin. split; [done|]. by exists m.
Qed.

Lemma grounded_step (send : State → State * list Effect) (st : State)
    (e : UiEvent) :
  (∀ s, selection (send s).1 = selection s) →
  (∀ s, messages s `prefix_of` messages (send s).1) →
  follow_up_grounded st → follow_up_grounded (ui_step send st e).
Proof.
  intros Hsel Hp Hg. destruct e; cbn [ui_step]; try done.
  - by apply grounded_send.
  - unfold handleKeyDown. destruct (_ && _); cbn [fst snd]; [|done]. by apply grounded_send.
  - destruct (suggestions !! index); [|done]. by destruct (suggestionsShown st).
  - destruct (messages st !! index) as [m|] eqn:Hm; [|done].
    apply grounded_click; [|done]. by apply list_elem_of_lookup_2 in Hm.
  - by destruct (followUpBannerShown st).
Qed.

(** X5. After any events on a page just mounted, streaming or buffered,
    the follow-up cells are either all empty or hold the id, the sources,
    not empty, and the handle of an assistant message that is in the list:
    what a send pins always comes from an answer on display. *)
Theorem follow_up_is_grounded (events : list UiEvent) :
  follow_up_grounded
    (ui_run (Streaming.handleSend API JSON_parse fetch) events initialState)
  ∧ follow_up_grounded
      (ui_run (Buffered.handleSend API fetch_json) events initialState).
Proof.
  split; apply ui_run_invariant; try done; intros s e Hs; apply grounded_step;
    try done; intros s'.
  - apply selection_streaming.
  - apply messages_streaming_prefix.
  - apply selection_buffered.
  - apply messages_buffered_prefix.
Qed.

Lemma ids_append (st : State) (m : ChatMessage.t) :
  ids_increasing st → ChatMessage.id m = S (msgIdCounter st) →
  ids_increasing
    (setMessages (messages st ++ [m]) (setMsgIdCounter (S (msgIdCounter st)) st)).
Proof.
  intros [Hs Hb] Hm. split; cbn [messages msgIdCounter setMessages setMsgIdCounter].
  - rewrite fmap_app. apply StronglySorted_app. split; [|split; [done|]].
    + intros x1 x2 Hx1 Hx2. cbn in Hx2. apply list_elem_of_singleton in Hx2.
      apply list_elem_of_fmap in Hx1 as (m1 & -> & Hm1).
      rewrite Forall_forall in Hb. specialize (Hb m1 Hm1). lia.
    + cbn. by repeat constructor.
  - apply Forall_app. split.
    + eapply Forall_impl; [exact Hb|]. intros m' Hm'. cbn in Hm'. lia.
    + constructor; [lia|done].
Qed.

Lemma ids_streaming (st : State) :
  ids_increasing st →
  ids_increasing (Streaming.handleSend API JSON_parse fetch st).1.
Proof.
  apply (streaming_invariant ids_increasing); try done.
  - intros e s Hs. destruct e as [| | | |a| |]; try done.
    exact (ids_append s (answerMessage (S (msgIdCounter s)) a (elapsedRef s))
             Hs eq_refl).
  - intros q s Hs.
    exact (ids_append s (userMessage (S (msgIdCounter s)) q) Hs eq_refl).
  - intros s Hs.
    exact (ids_append s (fallbackMessage (S (msgIdCounter s))) Hs eq_refl).
  - intros s [Hs Hb]. unfold Streaming.finally, clearInterval.
    by destruct (timerRef s).
Qed.

Lemma ids_buffered (st : State) :
  ids_increasing st →
  ids_increasing (Buffered.handleSend API fetch_json st).1.
Proof.
  apply (buffered_invariant ids_increasing); try done.
  - intros q s Hs.
    exact (ids_append s (userMessage (S (msgIdCounter s)) q) Hs eq_refl).
  - intros a shown s Hs. by apply ids_append.
  - intros s Hs.
    exact (ids_append s (fallbackMessage (S (msgIdCounter s))) Hs eq_refl).
  - intros s [Hs Hb]. unfold Buffered.finally, clearInterval.
    by destruct (timerRef s).
Qed.

Lemma ids_step (send : State → State * list Effect) (st : State) (e : UiEvent) :
  (∀ s, ids_increasing s → ids_increasing (send s).1) →
  ids_increasing st → ids_increasing (ui_step send st e).
Proof.
  intros Hsend Hst. destruct e; cbn [ui_step]; try done.
  - by apply Hsend.
  - unfold handleKeyDown. destruct (_ && _); cbn [fst snd]; [|done]. by apply Hsend.
  - destruct (suggestions !! index); [|done]. by destruct (suggestionsShown st).
  - destruct (messages st !! index) as [m|]; [|done].
    unfold clickFollowUp. destruct (followUpButtonShown m); [|done].
    unfold handleFollowUp. by destruct (bool_decide _).
  - by destruct (followUpBannerShown st).
Qed.

Lemma sorted_ids_unique (l : list nat) : StronglySorted lt l → NoDup l.
Proof.
  induction 1 as [|x l _ IH Hx]; constructor; [|done].
  intros Hin. rewrite Forall_forall in Hx. specialize (Hx x Hin). lia.
Qed.

Lemma one_active (st : State) (i j : nat) (m m' : ChatMessage.t) :
  ids_increasing st →
  messages st !! i = Some m → messages st !! j = Some m' →
  isFollowUpActive m st = true → isFollowUpActive m' st = true → i = j.
Proof.
  intros [Hs _] Hi Hj Ha Ha'. unfold isFollowUpActive in *.
  apply bool_decide_eq_true in Ha, Ha'.
  assert (ChatMessage.id m = ChatMessage.id m') as Hid by congruence.
  apply sorted_ids_unique in Hs.
  apply (NoDup_lookup _ i j (ChatMessage.id m) Hs).
  - by rewrite list_lookup_fmap, Hi.
  - by rewrite list_lookup_fmap, Hj, Hid.
Qed.

(** X6. After any events on a page just mounted, streaming or buffered,
    the ids of the messages grow strictly along the list and none exceeds
    the counter: no two messages share an id, and at most one message is
    the active follow-up. *)
Theorem message_ids_are_unique (events : list UiEvent)
    (send : State → State * list Effect) :
  send = Streaming.handleSend API JSON_parse fetch
  ∨ send = Buffered.handleSend API fetch_json →
  let st := ui_run send events initialState in
  ids_increasing st
  ∧ NoDup (ChatMessage.id <$> messages st)
  ∧ ∀ i j m m',
      messages st !! i = Some m → messages st !! j = Some m' →
      isFollowUpActive m st = true → isFollowUpActive m' st = true → i = j.
Proof.
  intros Hsend. cbn zeta.
  assert (ids_increasing (ui_run send events initialState)) as Hids.
  { apply ui_run_invariant; [|by repeat constructor].
    intros s e Hs. apply ids_step; [|done]. intros s'.
    destruct Hsend as [-> | ->]; [apply ids_streaming|apply ids_buffered]. }
  split; [done|]. split; [apply sorted_ids_unique, Hids|].
  intros i j m m'. by apply one_active.
Qed.

Lemma streaming_not_sendable (st : State) :
  sendable st = false →
  Streaming.handleSend API JSON_parse fetch st = (st, []).
Proof.
  intros Hs. unfold Streaming.handleSend. by rewrite sendable_guard, Hs.
Qed.

Lemma buffered_not_sendable (st : State) :
  sendable st = false → Buffered.handleSend API fetch_json st = (st, []).
Proof.
  intros Hs. unfold Buffered.handleSend. by rewrite sendable_guard, Hs.
Qed.

Lemma streaming_ends_idle (st : State) :
  idle st → idle (Streaming.handleSend API JSON_parse fetch st).1.
Proof.
  intros (Hl & Hp & Hd & Ht & Hi).
  destruct (sendable st) eqn:Hs; [|by rewrite streaming_not_sendable].
  rewrite (streaming_sendable API JSON_parse fetch st Hs). cbn zeta. cbn [fst].
  pose proof (untouched_try_block API JSON_parse fetch
                (Streaming.request_body (Js.trim (input st)) st)
                (Streaming.begin (Js.trim (input st)) st)) as Hu.
  rewrite <- untouched_settle in Hu.
  destruct (finally_clears
              (settle (Streaming.try_block API JSON_parse fetch
                 (Streaming.request_body (Js.trim (input st)) st)
                 (Streaming.begin (Js.trim (input st)) st)).1)
              (fresh (intervals st)) (intervals st))
    as (H1 & H2 & H3 & H4 & H5 & _).
  - apply (f_equal (λ u, u.1.1.1.2)) in Hu. exact Hu.
  - apply (f_equal (λ u, u.1.1.2)) in Hu. exact Hu.
  - apply is_fresh.
  - unfold idle. by rewrite H1, H2, H3, H4, H5.
Qed.

Lemma difference_fresh (h : positive) (running : gset positive) :
  h ∉ running → ({[h]} ∪ running) ∖ {[h]} = running.
Proof.
  intros Hh. apply set_eq. intros x.
  rewrite elem_of_difference, elem_of_union, !elem_of_singleton. split.
  - intros [[->|Hx] Hne]; [by destruct Hne|exact Hx].
  - intros Hx. split; [by right|]. intros ->. by apply Hh.
Qed.

Lemma buffered_ends_idle (st : State) :
  idle st → idle (Buffered.handleSend API fetch_json st).1.
Proof.
  intros Hidle.
  destruct (sendable st) eqn:Hs; [|by rewrite buffered_not_sendable].
  assert (loadingPhase (Buffered.handleSend API fetch_json st).1 = None
          ∧ loadingDocs (Buffered.handleSend API fetch_json st).1 = []
          ∧ loadingTotal (Buffered.handleSend API fetch_json st).1 = 0)
    as (H2 & H3 & H4).
  { apply (buffered_invariant
             (λ s, loadingPhase s = None ∧ loadingDocs s = []
                   ∧ loadingTotal s = 0)); try done.
    - intros s Hs'. unfold Buffered.finally, clearInterval.
      by destruct (timerRef s).
    - by destruct Hidle as (_ & ? & ? & ? & _). }
  destruct Hidle as (_ & _ & _ & _ & Hi).
  unfold idle. rewrite H2, H3, H4.
  unfold Buffered.handleSend. rewrite sendable_guard, Hs. cbn [negb fst].
  pose proof (untouched_buffered_try_block API fetch_json (elapsed st)
                (Buffered.request_body (Js.trim (input st)) st)
                (Buffered.begin (Js.trim (input st)) st)) as Hu.
  destruct (Buffered.try_block _ _ _ _ _) as [s|s]; cbn [state_of] in Hu.
  - pose proof (f_equal (λ u, u.1.1.1.2) Hu) as Ht.
    pose proof (f_equal (λ u, u.1.1.2) Hu) as Hin. cbn in Ht, Hin.
    unfold Buffered.finally, clearInterval. rewrite Ht. cbn.
    rewrite Hin, difference_fresh by apply is_fresh. by rewrite Hi.
  - pose proof (f_equal (λ u, u.1.1.1.2) Hu) as Ht.
    pose proof (f_equal (λ u, u.1.1.2) Hu) as Hin. cbn in Ht, Hin.
    unfold Buffered.finally, clearInterval. cbn. rewrite Ht. cbn.
    rewrite Hin, difference_fresh by apply is_fresh. by rewrite Hi.
Qed.

Lemma idle_step (send : State → State * list Effect) (st : State) (e : UiEvent) :
  (∀ s, idle s → idle (send s).1) → idle st → idle (ui_step send st e).
Proof.
  intros Hsend Hst. destruct e; cbn [ui_step]; try done.
  - by apply Hsend.
  - unfold handleKeyDown. destruct (_ && _); cbn [fst snd]; [|done]. by apply Hsend.
  - destruct (suggestions !! index); [|done]. by destruct (suggestionsShown st).
  - destruct (messages st !! index) as [m|]; [|done].
    unfold clickFollowUp. destruct (followUpButtonShown m); [|done].
    unfold handleFollowUp. by destruct (bool_decide _).
  - by destruct (followUpBannerShown st).
Qed.

(** X7. Sends running to their end one after the other, the page is idle
    after any events, on the streaming page and on the buffered one:
    [loading] is false, the progress cells are reset, and no interval is
    left running, whatever the responses were. *)
Theorem page_is_idle_between_events (events : list UiEvent) :
  idle (ui_run (Streaming.handleSend API JSON_parse fetch) events initialState)
  ∧ idle (ui_run (Buffered.handleSend API fetch_json) events initialState).
Proof.
  split; apply ui_run_invariant; try done; intros s e Hs; apply idle_step;
    try done; intros s'.
  - apply streaming_ends_idle.
  - apply buffered_ends_idle.
Qed.

(** ** The messages of a send, from the events of its stream *)

Lemma answer_messages_forget (next : nat) (l : list Answer.t) :
  forget_elapsed <$> answer_messages next l = answer_messages next l.
Proof.
  revert next. induction l as [|a l IH]; intros next; [done|].
  cbn [answer_messages fmap list_fmap]. by rewrite IH.
Qed.

Lemma answer_messages_length (next : nat) (l : list Answer.t) :
  length (answer_messages next l) = length l.
Proof.
  revert next. induction l as [|a l IH]; intros next; [done|].
  cbn [answer_messages length]. by rewrite IH.
Qed.

Lemma dispatch_account (events : list (option StreamEvent)) (st : State) :
  let r := dispatch_all events st in
  r.2 = Dispatch <$> dispatched events
  ∧ is_normal r.1 = negb (throws events)
  ∧ forget_elapsed <$> messages (state_of r.1)
    = (forget_elapsed <$> messages st)
        ++ answer_messages (S (msgIdCounter st)) (answers_of (dispatched events))
  ∧ msgIdCounter (state_of r.1)
    = msgIdCounter st + length (answers_of (dispatched events)).
Proof.
  cbn zeta. revert st. induction events as [|[event|] rest IH]; intros st.
  - cbn. by rewrite app_nil_r, Nat.add_0_r.
  - destruct event as [|total|doc| |a|message|];
      cbn [dispatch_all Streaming.handle_event dispatched throws];
      try (match goal with
           | |- context [dispatch_all rest ?s] =>
               destruct (IH s) as (Hl & Hn & Hm & Hi);
               destruct (dispatch_all rest s) as [c log]
           end;
           cbn [fst snd] in *; subst log;
           split; [done|]; split; [done|]; split; [exact Hm|exact Hi]).
    + match goal with
      | |- context [dispatch_all rest ?s] =>
          destruct (IH s) as (Hl & Hn & Hm & Hi);
          destruct (dispatch_all rest s) as [c log]
      end.
      cbn [fst snd] in *. subst log.
      split; [done|]. split; [done|].
      change (answers_of (EvAnswer a :: dispatched rest))
        with (a :: answers_of (dispatched rest)).
      cbn [answer_messages length].
      cbn [messages setMessages setMsgIdCounter msgIdCounter] in Hm, Hi.
      rewrite Hm, Hi, fmap_app, <- app_assoc. split; [done|lia].
    + cbn. by rewrite app_nil_r, Nat.add_0_r.
  - cbn. by rewrite app_nil_r, Nat.add_0_r.
Qed.

(** The messages and the trace of a send that goes through and gets a
    response that is [ok]. *)
Lemma streaming_messages (st : State) (t : nat) (body : Stream) :
  sendable st = true →
  fetch (API +:+ "/api/query-stream")
    (Streaming.request_body (Js.trim (input st)) st)
  = Response t true body →
  let events := data_events JSON_parse (complete_lines (stream_text (reads body))) in
  let answers := answers_of (dispatched events) in
  (Streaming.handleSend API JSON_parse fetch st).2
  = Fetch (API +:+ "/api/query-stream")
      (Streaming.request_body (Js.trim (input st)) st)
      :: (Dispatch <$> dispatched events) ++ [FocusTextarea]
  ∧ ∃ new,
      messages (Streaming.handleSend API JSON_parse fetch st).1
      = messages st
          ++ userMessage (S (msgIdCounter st)) (Js.trim (input st))
          :: new
          ++ (if throws events || negb (end_done body)
              then [fallbackMessage (S (S (msgIdCounter st)) + length answers)]
              else [])
      ∧ forget_elapsed <$> new
        = answer_messages (S (S (msgIdCounter st))) answers.
Proof.
  intros Hs Hf. cbn zeta.
  rewrite (streaming_sendable API JSON_parse fetch st Hs). cbn zeta. cbn [fst snd].
  set (q := Js.trim (input st)) in *.
  set (b := Streaming.request_body q st) in *.
  set (st1 := Streaming.begin q st).
  destruct (try_block_ok API JSON_parse fetch b st1 t body Hf) as (Hl & Hc & Hp).
  cbn zeta in Hl, Hc.
  destruct (dispatch_account
              (data_events JSON_parse (complete_lines (stream_text (reads body))))
              (Streaming.ticks t st1)) as (Hlog & Hn & Hm & Hi).
  cbn zeta in Hlog, Hn, Hm, Hi.
  rewrite messages_ticks, msgIdCounter_ticks in Hm.
  rewrite msgIdCounter_ticks in Hi.
  rewrite Hl, Hlog. split; [done|].
  rewrite messages_settled.
  pose proof (is_normal_forget_c _ _ Hc) as Hnorm.
  apply (f_equal state_of) in Hc.
  rewrite !state_of_forget_c, state_of_at_end in Hc.
  destruct (forget_fields _ _ Hc) as (Hid & _).
  apply forget_messages in Hc. rewrite Hm in Hc.
  rewrite <- answer_messages_forget, <- fmap_app in Hc.
  destruct (fmap_prefix_inv forget_elapsed _ _ _ Hp Hc) as (k & Hk & Hfk).
  rewrite answer_messages_forget in Hfk.
  assert (is_normal
            (at_end body
               (dispatch_all
                  (data_events JSON_parse
                     (complete_lines (stream_text (reads body))))
                  (Streaming.ticks t st1)).1)
          = negb (throws
                    (data_events JSON_parse
                       (complete_lines (stream_text (reads body))))
                  || negb (end_done body))) as Hend.
  { destruct (dispatch_all _ (Streaming.ticks t st1)).1; cbn [is_normal at_end] in *.
    - rewrite <- (negb_involutive (throws _)), <- Hn. cbn.
      by destruct (end_done body).
    - by rewrite <- (negb_involutive (throws _)), <- Hn. }
  rewrite Hnorm, Hend, Hk, Hid, Hi.
  exists k. split; [|done].
  destruct (throws _ || negb (end_done body)); cbn [negb];
    subst st1; cbn; by rewrite <- !app_assoc, ?app_nil_r.
Qed.

Lemma answers_of_app (l1 l2 : list StreamEvent) :
  answers_of (l1 ++ l2) = answers_of l1 ++ answers_of l2.
Proof. apply omap_app. Qed.

Lemma answers_of_quiet (pre : list StreamEvent) :
  Forall (λ e, is_quiet e = true) pre → answers_of pre = [].
Proof.
  induction 1 as [|e pre He _ IH]; [done|]. by destruct e.
Qed.

Lemma dispatched_quiet (pre : list StreamEvent)
    (rest : list (option StreamEvent)) :
  Forall (λ e, is_quiet e = true) pre →
  dispatched ((Some <$> pre) ++ rest) = pre ++ dispatched rest
  ∧ throws ((Some <$> pre) ++ rest) = throws rest.
Proof.
  induction 1 as [|e pre He _ [IH1 IH2]]; [done|].
  destruct e; try done; cbn [fmap list_fmap app dispatched throws];
    by rewrite ?IH1, ?IH2.
Qed.

Lemma forget_id_elapsed_forget (l : list ChatMessage.t) :
  forget_id_elapsed <$> (forget_elapsed <$> l) = forget_id_elapsed <$> l.
Proof. induction l as [|m l IH]; [done|]. cbn. by rewrite IH. Qed.

Lemma answer_messages_any_id (n m : nat) (l : list Answer.t) :
  forget_id_elapsed <$> answer_messages n l
  = forget_id_elapsed <$> answer_messages m l.
Proof.
  revert n m. induction l as [|a l IH]; intros n m; [done|].
  cbn. by rewrite (IH (S n) (S m)).
Qed.

(** X8. The whole of a send that goes through on the streaming page, the
    messages taken up to the readings of the timer and up to their ids,
    which come from a counter bumped inside the state updater, so that
    their values depend on how often React runs it. If the
    fetch is rejected or the response is not [ok], the page fetches,
    dispatches nothing, and appends the user's message and the fallback.
    If the response is [ok], it dispatches the events of the complete data
    lines up to the first line that does not parse or the first error
    event, and appends the user's message, one message per answer event
    dispatched, in order, and then the fallback exactly when the dispatch
    threw or the stream ended in a rejected read. *)
Theorem send_is_accounted_for (st : State) :
  sendable st = true →
  let q := Js.trim (input st) in
  let b := Streaming.request_body q st in
  let r := Streaming.handleSend API JSON_parse fetch st in
  match fetch (API +:+ "/api/query-stream") b with
  | NetworkError _ | Response _ false _ =>
      r.2 = [Fetch (API +:+ "/api/query-stream") b; FocusTextarea]
      ∧ ∃ new,
          messages r.1 = messages st ++ new
          ∧ forget_id_elapsed <$> new
            = forget_id_elapsed <$> [userMessage 0 q; fallbackMessage 0]
  | Response _ true body =>
      let events :=
        data_events JSON_parse (complete_lines (stream_text (reads body))) in
      let answers := answers_of (dispatched events) in
      r.2 = Fetch (API +:+ "/api/query-stream") b
              :: (Dispatch <$> dispatched events) ++ [FocusTextarea]
      ∧ ∃ new,
          messages r.1 = messages st ++ new
          ∧ forget_id_elapsed <$> new
            = forget_id_elapsed
                <$> userMessage 0 q
                    :: answer_messages 0 answers
                    ++ (if throws events || negb (end_done body)
                        then [fallbackMessage 0] else [])
  end.
Proof.
  intros Hs. cbn zeta.
  destruct (fetch _ _) as [t|t [] body] eqn:Hf.
  - rewrite (streaming_sendable API JSON_parse fetch st Hs). cbn zeta.
    unfold Streaming.try_block. rewrite Hf. cbn [negb fst snd app].
    split; [done|]. rewrite messages_settled. cbn [is_normal state_of].
    rewrite messages_ticks, msgIdCounter_ticks. cbn.
    rewrite <- app_assoc. by eexists.
  - destruct (streaming_messages st t body Hs Hf) as (Ht & new & Hm & Hnew).
    cbn zeta in Ht, Hm, Hnew. split; [exact Ht|].
    eexists. split; [exact Hm|].
    rewrite !fmap_cons, !fmap_app. f_equal. f_equal.
    + rewrite <- (forget_id_elapsed_forget new), Hnew.
      apply answer_messages_any_id.
    + by destruct (throws _ || negb (end_done body)).
  - rewrite (streaming_sendable API JSON_parse fetch st Hs). cbn zeta.
    unfold Streaming.try_block. rewrite Hf. cbn [negb fst snd app].
    split; [done|]. rewrite messages_settled. cbn [is_normal state_of].
    rewrite messages_ticks, msgIdCounter_ticks. cbn.
    rewrite <- app_assoc. by eexists.
Qed.

(** X9. A stream that is [ok] and ends well but carries neither an
    answer nor an error event leaves the question without any reply: the
    user's message is the only one appended. *)
Theorem silent_stream_gets_no_reply (st : State) (t : nat) (body : Stream)
    (pre : list StreamEvent) :
  sendable st = true →
  fetch (API +:+ "/api/query-stream")
    (Streaming.request_body (Js.trim (input st)) st)
  = Response t true body →
  end_done body = true →
  data_events JSON_parse (complete_lines (stream_text (reads body)))
  = Some <$> pre →
  Forall (λ e, is_quiet e = true) pre →
  messages (Streaming.handleSend API JSON_parse fetch st).1
  = messages st ++ [userMessage (S (msgIdCounter st)) (Js.trim (input st))].
Proof.
  intros Hs Hf Hd He Hpre.
  destruct (streaming_messages st t body Hs Hf) as (_ & new & Hm & Hnew).
  cbn zeta in Hm, Hnew. rewrite He in Hm, Hnew.
  destruct (dispatched_quiet pre [] Hpre) as [Hdis Hthr].
  rewrite app_nil_r in Hdis, Hthr. cbn in Hdis, Hthr.
  rewrite Hdis, app_nil_r, answers_of_quiet in Hnew by done.
  rewrite Hthr, Hd in Hm. cbn in Hm, Hnew.
  apply fmap_nil_inv in Hnew. subst new. by rewrite Hm.
Qed.

(** X10. Failures of the streaming page other than a response that is not
    [ok] or an error event: a rejected fetch, a read rejected after events
    that neither answer nor fail, or a data line that does not parse after
    such events. Each appends the user's message and the fallback, and
    nothing else. *)
Theorem broken_stream_falls_back (st : State) :
  sendable st = true →
  let sent :=
    fetch (API +:+ "/api/query-stream")
      (Streaming.request_body (Js.trim (input st)) st) in
  (∃ t, sent = NetworkError t)
  ∨ (∃ t body pre,
       sent = Response t true body ∧ end_done body = false
       ∧ data_events JSON_parse (complete_lines (stream_text (reads body)))
         = Some <$> pre
       ∧ Forall (λ e, is_quiet e = true) pre)
  ∨ (∃ t body pre rest,
       sent = Response t true body
       ∧ data_events JSON_parse (complete_lines (stream_text (reads body)))
         = (Some <$> pre) ++ None :: rest
       ∧ Forall (λ e, is_quiet e = true) pre) →
  messages (Streaming.handleSend API JSON_parse fetch st).1
  = messages st
      ++ [userMessage (S (msgIdCounter st)) (Js.trim (input st));
          fallbackMessage (S (S (msgIdCounter st)))].
Proof.
  intros Hs. cbn zeta.
  intros [(t & Hf)|[(t & body & pre & Hf & Hd & He & Hpre)
                   |(t & body & pre & rest & Hf & He & Hpre)]].
  - rewrite (streaming_sendable API JSON_parse fetch st Hs). cbn zeta.
    unfold Streaming.try_block. rewrite Hf. cbn [fst].
    rewrite messages_settled. cbn [is_normal state_of].
    rewrite messages_ticks, msgIdCounter_ticks. cbn. by rewrite <- app_assoc.
  - destruct (streaming_messages st t body Hs Hf) as (_ & new & Hm & Hnew).
    cbn zeta in Hm, Hnew. rewrite He in Hm, Hnew.
    destruct (dispatched_quiet pre [] Hpre) as [Hdis Hthr].
    rewrite app_nil_r in Hdis, Hthr. cbn in Hdis, Hthr.
    rewrite Hdis, app_nil_r, answers_of_quiet in Hnew, Hm by done.
    rewrite Hthr, Hd in Hm. cbn in Hm, Hnew.
    apply fmap_nil_inv in Hnew. subst new. rewrite Hm. cbn.
    by rewrite Nat.add_0_r.
  - destruct (streaming_messages st t body Hs Hf) as (_ & new & Hm & Hnew).
    cbn zeta in Hm, Hnew. rewrite He in Hm, Hnew.
    destruct (dispatched_quiet pre (None :: rest) Hpre) as [Hdis Hthr].
    cbn in Hdis, Hthr.
    rewrite Hdis, app_nil_r, answers_of_quiet in Hnew, Hm by done.
    rewrite Hthr in Hm. cbn in Hm, Hnew.
    apply fmap_nil_inv in Hnew. subst new. rewrite Hm. cbn.
    by rewrite Nat.add_0_r.
Qed.

(** ** Lines, once more *)

Lemma contains_newline_app (a b : string) :
  contains_newline (a +:+ b) = contains_newline a || contains_newline b.
Proof.
  induction a as [|c a IH]; [done|].
  rewrite string_app_cons. cbn [contains_newline]. by rewrite IH, orb_assoc.
Qed.

Lemma lines_of_no_newline (s : string) :
  contains_newline s = false ↔ lines_of s = ([], s).
Proof.
  induction s as [|c s IH]; [done|]. cbn [contains_newline].
  destruct (decide (c = Js.newline)) as [->|Hc].
  - rewrite bool_decide_true, lines_of_newline by done. cbn. split; [done|].
    by intros [=].
  - rewrite bool_decide_false, lines_of_other by done. cbn [orb].
    rewrite IH. destruct (lines_of s) as [[|h l] p]; split; try done.
    + by intros [= ->].
    + by intros [= ->].
Qed.

Lemma lines_of_line (line rest : string) :
  contains_newline line = false →
  lines_of (line +:+ nl +:+ rest) = (line :: (lines_of rest).1, (lines_of rest).2).
Proof.
  induction line as [|c line IH]; intros Hl.
  - rewrite string_app_nil_l. unfold nl.
    rewrite string_app_cons, string_app_nil_l. apply lines_of_newline.
  - cbn [contains_newline] in Hl. apply orb_false_iff in Hl as [Hc Hl].
    apply bool_decide_eq_false in Hc.
    rewrite string_app_cons, lines_of_other by done. by rewrite IH.
Qed.

Lemma complete_lines_tail (text tail : string) :
  contains_newline tail = false →
  complete_lines (text +:+ tail) = complete_lines text.
Proof.
  intros Ht. rewrite complete_lines_app.
  assert (contains_newline ((lines_of text).2 +:+ tail) = false) as Hn.
  { rewrite contains_newline_app, Ht, orb_false_r.
    apply lines_of_no_newline, lines_of_rest. }
  apply lines_of_no_newline in Hn. unfold complete_lines at 2. rewrite Hn.
  apply app_nil_r.
Qed.

Lemma unlines_lines_of (s : string) :
  unlines (lines_of s).1 (lines_of s).2 = s.
Proof.
  induction s as [|c s IH]; [done|].
  destruct (decide (c = Js.newline)) as [->|Hc].
  - rewrite lines_of_newline. cbn [fst snd unlines]. rewrite IH.
    by rewrite string_app_nil_l.
  - rewrite lines_of_other by done.
    destruct (lines_of s) as [[|h l] p]; cbn [fst snd unlines] in *.
    + by rewrite IH.
    + rewrite string_app_cons. by rewrite IH.
Qed.

Lemma lines_of_unlines (lines : list string) (rest : string) :
  Forall (λ l, contains_newline l = false) lines →
  contains_newline rest = false →
  lines_of (unlines lines rest) = (lines, rest).
Proof.
  intros Hl Hr. induction Hl as [|l lines Hl _ IH]; cbn [unlines].
  - by apply lines_of_no_newline.
  - rewrite lines_of_line by done. by rewrite IH.
Qed.

Lemma lines_of_clean (s : string) :
  Forall (λ l, contains_newline l = false) (lines_of s).1
  ∧ contains_newline (lines_of s).2 = false.
Proof.
  split; [|apply lines_of_no_newline, lines_of_rest].
  induction s as [|c s IH]; [by constructor|].
  destruct (decide (c = Js.newline)) as [->|Hc].
  - rewrite lines_of_newline. by constructor.
  - rewrite lines_of_other by done.
    destruct (lines_of s) as [[|h l] p]; cbn [fst] in *; [done|].
    apply Forall_cons in IH as [Hh Hl]. constructor; [|done].
    cbn [contains_newline]. by rewrite bool_decide_false.
Qed.

(** X11. Cutting a text at its newlines loses nothing and is the only way
    to cut it so: the lines of the reader loop and the piece it keeps
    hold no newline and, put back together with a newline after each line,
    give the text; and lines and a last piece without newlines, put
    together, are cut back into themselves. *)
Theorem lines_round_trip (s : string) (lines : list string) (rest : string) :
  unlines (lines_of s).1 (lines_of s).2 = s
  ∧ Forall (λ l, contains_newline l = false) (lines_of s).1
  ∧ contains_newline (lines_of s).2 = false
  ∧ (Forall (λ l, contains_newline l = false) lines →
     contains_newline rest = false →
     lines_of (unlines lines rest) = (lines, rest)).
Proof.
  split; [apply unlines_lines_of|].
  split; [apply lines_of_clean|]. split; [apply lines_of_clean|].
  apply lines_of_unlines.
Qed.

(** X12. What follows the last newline of the stream is never parsed. Two
    streams whose texts differ by a tail without newline dispatch the same
    events and end in the same state up to the readings of the timer: an
    event whose line is not closed by a newline when the stream ends is
    lost. *)
Theorem unterminated_line_is_dropped (body1 body2 : Stream) (tail : string)
    (st : State) :
  stream_text (reads body2) = stream_text (reads body1) +:+ tail →
  contains_newline tail = false →
  end_done body1 = end_done body2 →
  let r1 := Streaming.read_loop JSON_parse body1 (reads body1) "" st in
  let r2 := Streaming.read_loop JSON_parse body2 (reads body2) "" st in
  r1.2 = r2.2 ∧ forget_c r1.1 = forget_c r2.1.
Proof.
  intros Ht Hn Hd. cbn zeta.
  destruct (read_loop_lines JSON_parse body1 (reads body1) "" st eq_refl)
    as [Hl1 Hc1].
  destruct (read_loop_lines JSON_parse body2 (reads body2) "" st eq_refl)
    as [Hl2 Hc2].
  cbn zeta in Hl1, Hc1, Hl2, Hc2. rewrite string_app_nil_l in Hl1, Hc1, Hl2, Hc2.
  rewrite Ht, complete_lines_tail in Hl2, Hc2 by done.
  rewrite Hl1, Hl2, Hc1, Hc2. split; [done|].
  destruct (dispatch_all _ st).1; cbn [at_end]; by rewrite ?Hd.
Qed.

(** X13. A line that does not start with [data: ] changes nothing. Two
    streams whose texts differ by one such line, inserted at a line
    boundary, dispatch the same events and end in the same state up to the
    readings of the timer. *)
Theorem other_lines_are_skipped (body1 body2 : Stream) (before line after : string)
    (st : State) :
  stream_text (reads body1) = before +:+ after →
  stream_text (reads body2) = before +:+ line +:+ nl +:+ after →
  (lines_of before).2 = "" →
  contains_newline line = false →
  Js.startsWith line "data: " = false →
  end_done body1 = end_done body2 →
  let r1 := Streaming.read_loop JSON_parse body1 (reads body1) "" st in
  let r2 := Streaming.read_loop JSON_parse body2 (reads body2) "" st in
  r1.2 = r2.2 ∧ forget_c r1.1 = forget_c r2.1.
Proof.
  intros Ht1 Ht2 Hb Hn Hp Hd. cbn zeta.
  destruct (read_loop_lines JSON_parse body1 (reads body1) "" st eq_refl)
    as [Hl1 Hc1].
  destruct (read_loop_lines JSON_parse body2 (reads body2) "" st eq_refl)
    as [Hl2 Hc2].
  cbn zeta in Hl1, Hc1, Hl2, Hc2. rewrite string_app_nil_l in Hl1, Hc1, Hl2, Hc2.
  assert (data_events JSON_parse (complete_lines (stream_text (reads body2)))
          = data_events JSON_parse (complete_lines (stream_text (reads body1))))
    as He.
  { rewrite Ht1, Ht2.
    rewrite (complete_lines_app before after).
    rewrite (complete_lines_app before (line +:+ nl +:+ after)).
    rewrite Hb, !string_app_nil_l, !data_events_app. f_equal.
    unfold complete_lines. rewrite lines_of_line by done. cbn [fst data_events].
    by rewrite Hp. }
  rewrite He in Hl2, Hc2. rewrite Hl1, Hl2, Hc1, Hc2. split; [done|].
  destruct (dispatch_all _ st).1; cbn [at_end]; by rewrite ?Hd.
Qed.

(** ** The progress display *)

Lemma imap_fixed {A : Type} (g : nat → A → A) (l : list A) :
  (∀ i x, x ∈ l → g i x = x) → imap g l = l.
Proof.
  revert g. induction l as [|x l IH]; intros g Hg; [done|].
  cbn [imap]. rewrite Hg by by left. f_equal. apply IH.
  intros i y Hy. apply Hg. by right.
Qed.

Lemma loading_step (docs : list Doc.t) (d : Doc.t) (l : list LoadingDoc.t) :
  l = [] ∧ docs = [] ∨ (∃ ds x, docs = ds ++ [x]
                               ∧ l = (docDone <$> ds) ++ [docPending x]) →
  imap (λ i y, if decide (S i = length l) then Streaming.markDone y else y) l
  = docDone <$> docs.
Proof.
  intros [[-> ->]|(ds & x & -> & ->)]; [done|].
  rewrite imap_app, fmap_app. f_equal.
  - apply imap_fixed. intros i y Hy.
    apply list_elem_of_fmap in Hy as (y' & -> & _). by destruct (decide _).
  - cbn [imap fmap list_fmap]. rewrite length_app, length_fmap. cbn [length].
    rewrite decide_True by lia. done.
Qed.

Lemma dispatch_loading_view (docs : list Doc.t) (s0 : State) :
  loadingDocs s0 = [] →
  ∃ s1 log,
    dispatch_all (Some <$> (EvLoading <$> docs)) s0 = (Normal s1, log)
    ∧ (loadingDocs s1 = [] ∧ docs = []
       ∨ ∃ ds x, docs = ds ++ [x]
                 ∧ loadingDocs s1 = (docDone <$> ds) ++ [docPending x]).
Proof.
  intros Hnil. induction docs as [|d docs IH] using rev_ind.
  - exists s0, []. split; [done|]. by left.
  - destruct IH as (s1 & log & Hd & Hview).
    rewrite !fmap_app, dispatch_all_app, Hd.
    cbn [fmap list_fmap dispatch_all Streaming.handle_event].
    eexists _, _. split; [reflexivity|]. right. exists docs, d.
    split; [done|]. cbn [loadingDocs setLoadingDocs].
    by rewrite (loading_step docs d).
Qed.

(** X14. While documents load, the progress list shows every document
    announced so far, in order, all done but the last: once the loop has
    dispatched searching, found and the loadings of [docs] and then [d],
    starting from an empty list as every send does and whatever the
    chunking, [loadingDocs] is [docs], done, followed by [d], not done,
    and its length, the numerator of the progress display, is the number
    of loading events. *)
Theorem loading_marks_all_but_last (body : Stream) (s0 : State) (n : nat)
    (docs : list Doc.t) (d : Doc.t) :
  loadingDocs s0 = [] →
  data_events JSON_parse (complete_lines (stream_text (reads body)))
  = Some <$> progress_events n (docs ++ [d]) →
  let s := state_of (Streaming.read_loop JSON_parse body (reads body) "" s0).1 in
  loadingDocs s = (docDone <$> docs) ++ [docPending d]
  ∧ length (loadingDocs s) = length (docs ++ [d])
  ∧ loadingTotal s = n.
Proof.
  intros Hnil He. cbn zeta.
  pose proof (read_loop_state JSON_parse body s0) as Hst. rewrite He in Hst.
  unfold progress_events in Hst.
  cbn [fmap list_fmap dispatch_all Streaming.handle_event] in Hst.
  match type of Hst with
  | context [dispatch_all _ ?s] =>
      destruct (dispatch_loading_view (docs ++ [d]) s Hnil)
        as (s1 & log & Hd & Hview)
  end.
  change (list_fmap ?A ?B ?f ?l) with (f <$> l) in Hst.
  rewrite Hd in Hst. cbn [fst state_of] in Hst.
  destruct (forget_fields _ _ Hst) as (_ & _ & Hdocs & Htotal).
  destruct (dispatch_progress n (docs ++ [d]) s0) as (s1' & log' & Hd' & Ht' & _).
  unfold progress_events in Hd'.
  cbn [fmap list_fmap dispatch_all Streaming.handle_event] in Hd'.
  change (list_fmap ?A ?B ?f ?l) with (f <$> l) in Hd'.
  rewrite Hd in Hd'. injection Hd' as <- _.
  rewrite Hdocs, Htotal, Ht'.
  destruct Hview as [[_ Hempty]|(ds & x & Heq & Hl)].
  - by destruct docs.
  - apply app_inj_tail in Heq as [-> ->]. rewrite Hl.
    split; [done|]. split; [|done].
    by rewrite !length_app, length_fmap.
Qed.

(** ** The elapsed time *)

Lemma recorded_tick (n : nat) (s : State) :
  elapsed s = elapsedRef s ∧ n ≤ length (messages s)
  ∧ recorded_within n (elapsedRef s) s →
  elapsed (Streaming.tick s) = elapsedRef (Streaming.tick s)
  ∧ n ≤ length (messages (Streaming.tick s))
  ∧ recorded_within n (elapsedRef (Streaming.tick s)) (Streaming.tick s).
Proof.
  intros (He & Hn & Hr). split; [done|]. split; [done|].
  unfold recorded_within in *. cbn.
  eapply Forall_impl; [exact Hr|]. intros m Hm e Hme.
  specialize (Hm e Hme). lia.
Qed.

Lemma recorded_append (n : nat) (s : State) (m : ChatMessage.t) :
  (∀ e, ChatMessage.elapsed m = Some e → e ≤ elapsedRef s) →
  elapsed s = elapsedRef s ∧ n ≤ length (messages s)
  ∧ recorded_within n (elapsedRef s) s →
  let s' :=
    setMessages (messages s ++ [m]) (setMsgIdCounter (S (msgIdCounter s)) s) in
  elapsed s' = elapsedRef s' ∧ n ≤ length (messages s')
  ∧ recorded_within n (elapsedRef s') s'.
Proof.
  intros Hm (He & Hn & Hr). cbn zeta. split; [done|]. split.
  - cbn. rewrite length_app. lia.
  - unfold recorded_within in *. cbn.
    rewrite drop_app_le by done. apply Forall_app. split; [done|].
    by constructor.
Qed.

(** X15. On the streaming page, when a send that goes through is over, the
    two cells of the timer agree, and the elapsed time written on any
    message this send appended is at most their value: an answer never
    shows more seconds than the timer counted. *)
Theorem elapsed_is_recorded (st : State) :
  sendable st = true →
  let st' := (Streaming.handleSend API JSON_parse fetch st).1 in
  elapsed st' = elapsedRef st'
  ∧ recorded_within (length (messages st)) (elapsed st') st'.
Proof.
  intros Hs. cbn zeta.
  rewrite (streaming_sendable API JSON_parse fetch st Hs). cbn zeta. cbn [fst].
  set (n := length (messages st)).
  pose proof (try_block_invariant
                (λ s, elapsed s = elapsedRef s ∧ n ≤ length (messages s)
                      ∧ recorded_within n (elapsedRef s) s)
                (Streaming.request_body (Js.trim (input st)) st)
                (Streaming.begin (Js.trim (input st)) st)) as Hinv.
  cbv beta in Hinv.
  destruct Hinv as (He & Hn & Hr).
  - intros s. apply recorded_tick.
  - intros e s Hp. destruct e as [| | | |a| |]; try done.
    apply (recorded_append n s
             (answerMessage (S (msgIdCounter s)) a (elapsedRef s))); [|done].
    intros e [= <-]. done.
  - split; [done|]. split.
    + cbn. rewrite length_app. subst n. lia.
    + unfold recorded_within. cbn. subst n. rewrite drop_app_length.
      constructor; [|done]. by intros e.
  - destruct (Streaming.try_block _ _ _ _ _).1 as [s|s]; cbn [settle state_of] in *.
    + unfold recorded_within, Streaming.finally, clearInterval in *.
      destruct (timerRef s); cbn; by rewrite He.
    + destruct (recorded_append n s (fallbackMessage (S (msgIdCounter s))))
        as (He' & Hn' & Hr'); [by intros e|done|].
      cbn zeta in He', Hr'.
      unfold recorded_within, Streaming.finally, clearInterval,
        Streaming.catch in *.
      destruct (timerRef s) eqn:Htr; cbn in *; rewrite ?Htr; cbn;
        by rewrite He.
Qed.

(** ** The buffered page *)

Lemma buffered_sendable (st : State) :
  sendable st = true →
  Buffered.handleSend API fetch_json st =
    let q := Js.trim (input st) in
    let b := Buffered.request_body q st in
    (Buffered.finally
       match Buffered.try_block API fetch_json (elapsed st) b (Buffered.begin q st) with
       | Normal s => s
       | Throw s => Buffered.catch s
       end,
     [Fetch (API +:+ "/api/query") b; FocusTextarea]).
Proof.
  intros Hs. unfold Buffered.handleSend. by rewrite sendable_guard, Hs.
Qed.

Lemma elapsed_buffered_ticks (n : nat) (st : State) :
  elapsed (Buffered.ticks n st) = elapsed st + n.
Proof.
  induction n as [|n IH]; [cbn; lia|].
  change (Buffered.ticks (S n) st) with (Buffered.tick (Buffered.ticks n st)).
  cbn. rewrite IH. lia.
Qed.

Lemma buffered_finally_fields (s : State) (h : positive) (running : gset positive) :
  timerRef s = Some h → intervals s = {[h]} ∪ running → h ∉ running →
  loading (Buffered.finally s) = false
  ∧ intervals (Buffered.finally s) = running
  ∧ input (Buffered.finally s) = input s
  ∧ elapsed (Buffered.finally s) = elapsed s.
Proof.
  intros Ht Hi Hh. unfold Buffered.finally, clearInterval. rewrite Ht. cbn.
  by rewrite Hi, difference_fresh.
Qed.

(** X16. On the buffered page, a send that goes through and whose fetch is
    rejected, whose response is not [ok], or whose body is not JSON appends
    the user's message and the fallback, and nothing else; and whatever the
    response, the send ends with [loading] false, the input empty and the
    interval it started cleared. *)
Theorem buffered_failure_falls_back (st : State) :
  sendable st = true →
  let sent :=
    fetch_json (API +:+ "/api/query")
      (Buffered.request_body (Js.trim (input st)) st) in
  let st' := (Buffered.handleSend API fetch_json st).1 in
  ((∃ t, sent = NetworkError t)
   ∨ (∃ t res, sent = Response t false res)
   ∨ (∃ t tj, sent = Response t true (mkJson tj None)) →
   messages st'
   = messages st
       ++ [userMessage (S (msgIdCounter st)) (Js.trim (input st));
           fallbackMessage (S (S (msgIdCounter st)))])
  ∧ loading st' = false ∧ input st' = "" ∧ intervals st' = intervals st.
Proof.
  intros Hs. cbn zeta. rewrite (buffered_sendable st Hs). cbn zeta. cbn [fst].
  split.
  - rewrite messages_buffered_finally. unfold Buffered.try_block.
    intros [(t & ->)|[(t & res & ->)|(t & tj & ->)]];
      cbn [negb json_ticks json_data Buffered.catch messages setMessages
           setMsgIdCounter msgIdCounter];
      rewrite !messages_buffered_ticks, !msgIdCounter_buffered_ticks; cbn;
      by rewrite <- app_assoc.
  - pose proof (untouched_buffered_try_block API fetch_json (elapsed st)
                  (Buffered.request_body (Js.trim (input st)) st)
                  (Buffered.begin (Js.trim (input st)) st)) as Hu.
    assert (untouched
              match
                Buffered.try_block API fetch_json (elapsed st)
                  (Buffered.request_body (Js.trim (input st)) st)
                  (Buffered.begin (Js.trim (input st)) st)
              with
              | Normal s => s
              | Throw s => Buffered.catch s
              end
            = untouched (Buffered.begin (Js.trim (input st)) st)) as Hu'
      by (by destruct (Buffered.try_block _ _ _ _ _)).
    clear Hu.
    destruct (buffered_finally_fields _ (fresh (intervals st)) (intervals st)
                (f_equal (λ u, u.1.1.1.2) Hu') (f_equal (λ u, u.1.1.2) Hu')
                (is_fresh _)) as (H1 & H2 & H3 & _).
    rewrite H1, H2, H3. repeat split.
    exact (f_equal (λ u, u.1.2) Hu').
Qed.

(** X17. The elapsed time on a buffered answer is not the time of its own
    query. After a first answered send during which the timer ticked
    [t + tj] times, the elapsed cell holds [t + tj]; the answer of the next
    send then records [t + tj], however long that second query took. *)
Theorem buffered_answer_shows_previous_elapsed (st : State) (t tj : nat)
    (a : Answer.t) (text : string) (t2 tj2 : nat) (a2 : Answer.t) :
  sendable st = true →
  fetch_json (API +:+ "/api/query")
    (Buffered.request_body (Js.trim (input st)) st)
  = Response t true (mkJson tj (Some a)) →
  let st1 := (Buffered.handleSend API fetch_json st).1 in
  Js.trim text ≠ "" →
  fetch_json (API +:+ "/api/query")
    (Buffered.request_body (Js.trim text) (typeInput text st1))
  = Response t2 true (mkJson tj2 (Some a2)) →
  elapsed st1 = t + tj
  ∧ last (messages (Buffered.handleSend API fetch_json (typeInput text st1)).1)
    = Some (answerMessage (S (S (msgIdCounter st1))) a2 (t + tj)).
Proof.
  intros Hs Hf. cbn zeta. intros Ht Hf2.
  assert (elapsed (Buffered.handleSend API fetch_json st).1 = t + tj
          ∧ loading (Buffered.handleSend API fetch_json st).1 = false)
    as [He Hl].
  { rewrite (buffered_sendable st Hs). cbn zeta. cbn [fst].
    unfold Buffered.try_block. rewrite Hf. cbn [negb json_ticks json_data].
    unfold Buffered.finally, clearInterval.
    match goal with
    | |- context [timerRef ?s] => destruct (timerRef s)
    end; cbn; rewrite !elapsed_buffered_ticks; cbn; split; (lia || done). }
  split; [done|].
  assert (sendable (typeInput text (Buffered.handleSend API fetch_json st).1) = true)
    as Hs2.
  { unfold sendable. cbn [input typeInput setInput]. 
    change (loading (typeInput text ?s)) with (loading s). rewrite Hl.
    destruct (Js.trim text); [done|done]. }
  rewrite (buffered_answered API fetch_json _ t2 tj2 a2 Hs2 Hf2).
  rewrite last_app. cbn [last]. by rewrite <- He.
Qed.

(** ** A send that goes through *)

Lemma buffered_try_block_prefix (l : list ChatMessage.t) (shown : nat)
    (b : gmap string BodyValue) (s : State) :
  l `prefix_of` messages s →
  l `prefix_of` messages (state_of (Buffered.try_block API fetch_json shown b s)).
Proof.
  intros Hl. unfold Buffered.try_block.
  destruct (fetch_json _ b) as [t|t [] [tj [data|]]];
    cbn [negb json_ticks json_data state_of messages setMessages setMsgIdCounter];
    rewrite ?messages_buffered_ticks; try done.
  by apply prefix_app_r.
Qed.

Lemma streaming_ends_loading_false (st : State) :
  sendable st = true →
  loading (Streaming.handleSend API JSON_parse fetch st).1 = false.
Proof.
  intros Hs. rewrite (streaming_sendable API JSON_parse fetch st Hs).
  cbn zeta. cbn [fst]. unfold Streaming.finally, clearInterval.
  by destruct (timerRef _).
Qed.

(** X18. Whatever the server does, a send that goes through, on either
    page, issues exactly one request, to the page's endpoint and before
    anything else, empties the input, and appends the user's message with
    the trimmed input right after the messages already there; what the
    response adds comes after it. *)
Theorem send_goes_through (st : State) :
  sendable st = true →
  let q := Js.trim (input st) in
  let u := userMessage (S (msgIdCounter st)) q in
  let rs := Streaming.handleSend API JSON_parse fetch st in
  let rb := Buffered.handleSend API fetch_json st in
  (head rs.2 = Some (Fetch (API +:+ "/api/query-stream") (Streaming.request_body q st))
   ∧ fetches rs.2 = [Streaming.request_body q st]
   ∧ input rs.1 = ""
   ∧ messages st ++ [u] `prefix_of` messages rs.1)
  ∧ (rb.2 = [Fetch (API +:+ "/api/query") (Buffered.request_body q st);
             FocusTextarea]
     ∧ input rb.1 = ""
     ∧ messages st ++ [u] `prefix_of` messages rb.1).
Proof.
  intros Hs. cbn zeta. split.
  - split; [by rewrite (streaming_sendable API JSON_parse fetch st Hs)|].
    split; [by rewrite streaming_fetches, Hs|].
    rewrite (streaming_sendable API JSON_parse fetch st Hs). cbn zeta. cbn [fst].
    split.
    + pose proof (untouched_try_block API JSON_parse fetch
                    (Streaming.request_body (Js.trim (input st)) st)
                    (Streaming.begin (Js.trim (input st)) st)) as Hu.
      rewrite <- untouched_settle in Hu.
      apply (f_equal (λ u, u.1.2)) in Hu. cbn in Hu.
      unfold Streaming.finally, clearInterval.
      by destruct (timerRef _).
    + rewrite messages_finally.
      pose proof (try_block_invariant
                    (λ s, messages st
                            ++ [userMessage (S (msgIdCounter st)) (Js.trim (input st))]
                          `prefix_of` messages s)
                    (Streaming.request_body (Js.trim (input st)) st)
                    (Streaming.begin (Js.trim (input st)) st)) as Hp.
      cbv beta in Hp.
      assert (messages st
                ++ [userMessage (S (msgIdCounter st)) (Js.trim (input st))]
              `prefix_of`
              messages
                (state_of
                   (Streaming.try_block API JSON_parse fetch
                      (Streaming.request_body (Js.trim (input st)) st)
                      (Streaming.begin (Js.trim (input st)) st)).1)) as Hp'.
      { apply Hp; [done| |done].
        intros e s Hps. etrans; [exact Hps|]. apply messages_handle_event. }
      destruct (Streaming.try_block _ _ _ _ _).1 as [s|s]; cbn [settle state_of] in *;
        [done|].
      etrans; [exact Hp'|]. by apply prefix_app_r.
  - rewrite (buffered_sendable st Hs). cbn zeta. cbn [fst snd].
    split; [done|].
    pose proof (untouched_buffered_try_block API fetch_json (elapsed st)
                  (Buffered.request_body (Js.trim (input st)) st)
                  (Buffered.begin (Js.trim (input st)) st)) as Hu.
    pose proof (buffered_try_block_prefix
                  (messages st
                     ++ [userMessage (S (msgIdCounter st)) (Js.trim (input st))])
                  (elapsed st)
                  (Buffered.request_body (Js.trim (input st)) st)
                  (Buffered.begin (Js.trim (input st)) st) (reflexivity _)) as Hp.
    rewrite messages_buffered_finally.
    destruct (Buffered.try_block _ _ _ _ _) as [s|s]; cbn [state_of] in *.
    + split; [|done]. apply (f_equal (λ u, u.1.2)) in Hu. cbn in Hu.
      unfold Buffered.finally, clearInterval. by destruct (timerRef _).
    + split.
      * apply (f_equal (λ u, u.1.2)) in Hu. cbn in Hu.
        unfold Buffered.finally, clearInterval. by destruct (timerRef _).
      * etrans; [exact Hp|]. by apply prefix_app_r.
Qed.

(** X19. The handle makes the round trip. After a streamed answer with
    sources, a click on the follow-up toggle of the message just appended,
    which was not the active one, and a new question typed and sent: the
    request carries the answer's [context_id] when it is neither [null] nor
    empty, and otherwise the [gcs_name]s of the answer's sources as
    [pinned_gcs_names]. *)
Theorem answer_handle_round_trip (st : State) (t : nat) (body : Stream)
    (pre : list StreamEvent) (a : Answer.t) (text : string) :
  sendable st = true →
  fetch (API +:+ "/api/query-stream")
    (Streaming.request_body (Js.trim (input st)) st)
  = Response t true body →
  end_done body = true →
  data_events JSON_parse (complete_lines (stream_text (reads body)))
  = Some <$> (pre ++ [EvAnswer a]) →
  Forall (λ e, is_quiet e = true) pre →
  Answer.sources a ≠ [] →
  followUpMsgId st ≠ Some (S (S (msgIdCounter st))) →
  Js.trim text ≠ "" →
  let st1 := (Streaming.handleSend API JSON_parse fetch st).1 in
  ∃ m,
    last (messages st1) = Some m
    ∧ fetches
        (Streaming.handleSend API JSON_parse fetch
           (typeInput text (clickFollowUp m st1))).2
      = [match Answer.context_id a with
         | Some h =>
             if Js.truthy h
             then <["context_id" := VString h]> (question_only (Js.trim text))
             else <["pinned_gcs_names" :=
                      VStrings (Source.gcs_name <$> Answer.sources a)]>
                    (question_only (Js.trim text))
         | None =>
             <["pinned_gcs_names" :=
                 VStrings (Source.gcs_name <$> Answer.sources a)]>
               (question_only (Js.trim text))
         end].
Proof.
  intros Hs Hf Hd He Hpre Hsrc Hk Ht. cbn zeta.
  destruct (streaming_answered API JSON_parse fetch st t body pre a Hs Hf Hd He Hpre)
    as (m & Hm & Hfm).
  exists m. split; [by rewrite Hm, last_app|].
  destruct m as [mid mrole mcontent msources mctx melapsed].
  cbn in Hfm. injection Hfm as -> -> -> -> ->.
  pose proof (streaming_ends_loading_false st Hs) as Hl.
  pose proof (selection_streaming API JSON_parse fetch st) as Hsel.
  set (st1 := (Streaming.handleSend API JSON_parse fetch st).1) in *.
  assert (followUpMsgId st1 = followUpMsgId st) as Hfk
    by (by apply (f_equal (λ u, u.1.1.2)) in Hsel).
  destruct (Answer.sources a) as [|s l] eqn:Hsa; [done|].
  assert (clickFollowUp
            (ChatMessage.mk (S (S (msgIdCounter st))) assistant
               (Answer.answer a) (Some (s :: l)) (Answer.context_id a) melapsed)
            st1
          = setFollowUpContextId (Answer.context_id a)
              (setFollowUpSources (s :: l)
                 (setFollowUpMsgId (Some (S (S (msgIdCounter st)))) st1)))
    as Hclick.
  { unfold clickFollowUp, isFollowUpActive. cbn. rewrite Hfk.
    by rewrite bool_decide_false. }
  rewrite Hclick, streaming_fetches.
  assert (sendable
            (typeInput text
               (setFollowUpContextId (Answer.context_id a)
                  (setFollowUpSources (s :: l)
                     (setFollowUpMsgId (Some (S (S (msgIdCounter st)))) st1))))
          = true) as ->.
  { unfold sendable.
    change (Js.truthy (Js.trim text) && negb (loading st1) = true).
    rewrite Hl. cbn [negb]. rewrite andb_true_r. by destruct (Js.trim text). }
  reflexivity.
Qed.

(** ** The Enter key and the send button *)


End PageFacts.

(** ** The further statements on the sample session *)

Lemma toggleIndustry_twice_witness :
  ("Retail" ∉ selectedIndustries demo_state)
  ∧ toggleIndustry "Retail" (toggleIndustry "Retail" demo_state) = demo_state.
Proof.
  assert ("Retail" ∉ selectedIndustries demo_state) as Hn
    by (cbn; apply not_elem_of_nil).
  split; [exact Hn|].
  destruct (toggleIndustry_twice "Retail" demo_state "What next?") as [H _].
  exact (proj1 (H Hn)).
Defined.

Lemma follow_up_click_toggles_witness :
  followUpButtonShown demo_message = true
  ∧ clickFollowUp demo_message (clickFollowUp demo_message demo_state)
    = clearFollowUp demo_state.
Proof.
  split; [reflexivity|].
  destruct (follow_up_click_toggles demo_message demo_state eq_refl) as [H _].
  destruct (H eq_refl) as (_ & _ & _ & _ & _ & Hc). exact Hc.
Defined.

Lemma message_ids_are_unique_witness :
  (Streaming.handleSend "" demo_parse demo_fetch
   = Streaming.handleSend "" demo_parse demo_fetch
   ∨ Streaming.handleSend "" demo_parse demo_fetch
     = Buffered.handleSend "" demo_fetch_json)
  ∧ NoDup
      (ChatMessage.id
         <$> messages
               (ui_run (Streaming.handleSend "" demo_parse demo_fetch)
                  [Typed "What next?"; SendClicked; FollowUpClicked 1;
                   Typed "And then?"; KeyPressed "Enter" false]
                  initialState)).
Proof.
  split; [left; reflexivity|].
  destruct (message_ids_are_unique "" demo_parse demo_fetch demo_fetch_json
              [Typed "What next?"; SendClicked; FollowUpClicked 1;
               Typed "And then?"; KeyPressed "Enter" false]
              (Streaming.handleSend "" demo_parse demo_fetch)
              (or_introl eq_refl)) as (_ & Hn & _).
  exact Hn.
Defined.

Lemma send_is_accounted_for_witness :
  sendable demo_state = true
  ∧ ∃ new,
      messages (Streaming.handleSend "" demo_parse demo_fetch demo_state).1
      = messages demo_state ++ new
      ∧ forget_id_elapsed <$> new
        = forget_id_elapsed
            <$> userMessage 0 "What next?" :: answer_messages 0 [demo_answer]
                ++ [].
Proof.
  split; [reflexivity|].
  exact (proj2 (send_is_accounted_for "" demo_parse demo_fetch demo_state eq_refl)).
Defined.

Lemma silent_stream_gets_no_reply_witness :
  sendable demo_state = true
  ∧ demo_fetch_silent ("" +:+ "/api/query-stream")
      (Streaming.request_body (Js.trim (input demo_state)) demo_state)
    = Response 1 true demo_silent_stream
  ∧ end_done demo_silent_stream = true
  ∧ data_events demo_parse
      (complete_lines (stream_text (reads demo_silent_stream)))
    = Some <$> [EvSearching; EvOther]
  ∧ Forall (λ e, is_quiet e = true) [EvSearching; EvOther]
  ∧ messages (Streaming.handleSend "" demo_parse demo_fetch_silent demo_state).1
    = [userMessage 1 "What next?"].
Proof.
  assert (Forall (λ e, is_quiet e = true) [EvSearching; EvOther]) as Hq
    by (repeat constructor).
  split; [reflexivity|]. split; [reflexivity|]. split; [reflexivity|].
  split; [reflexivity|]. split; [exact Hq|].
  exact (silent_stream_gets_no_reply "" demo_parse demo_fetch_silent demo_state
           1 demo_silent_stream [EvSearching; EvOther]
           eq_refl eq_refl eq_refl eq_refl Hq).
Defined.

Lemma broken_stream_falls_back_witness :
  sendable demo_state = true
  ∧ data_events demo_parse
      (complete_lines (stream_text (reads demo_broken_stream)))
    = (Some <$> [EvSearching]) ++ None :: []
  ∧ messages (Streaming.handleSend "" demo_parse demo_fetch_broken demo_state).1
    = [userMessage 1 "What next?"; fallbackMessage 2].
Proof.
  split; [reflexivity|]. split; [reflexivity|].
  apply (broken_stream_falls_back "" demo_parse demo_fetch_broken demo_state
           eq_refl).
  right. right. exists 1, demo_broken_stream, [EvSearching], [].
  split; [reflexivity|]. split; [reflexivity|]. repeat constructor.
Defined.

Lemma lines_round_trip_witness :
  Forall (λ l, contains_newline l = false) ["data: searching"; ""; "x"]
  ∧ contains_newline "data: fo" = false
  ∧ lines_of (unlines ["data: searching"; ""; "x"] "data: fo")
    = (["data: searching"; ""; "x"], "data: fo").
Proof.
  assert (Forall (λ l, contains_newline l = false) ["data: searching"; ""; "x"])
    as Hl by (repeat constructor).
  split; [exact Hl|]. split; [reflexivity|].
  destruct (lines_round_trip "" ["data: searching"; ""; "x"] "data: fo")
    as (_ & _ & _ & H).
  exact (H Hl eq_refl).
Defined.

Lemma unterminated_line_is_dropped_witness :
  stream_text (reads demo_open_stream)
  = stream_text (reads demo_silent_stream) +:+ "data: answer"
  ∧ contains_newline "data: answer" = false
  ∧ end_done demo_silent_stream = end_done demo_open_stream
  ∧ (Streaming.read_loop demo_parse demo_silent_stream
       (reads demo_silent_stream) "" demo_state).2
    = (Streaming.read_loop demo_parse demo_open_stream
         (reads demo_open_stream) "" demo_state).2.
Proof.
  split; [reflexivity|]. split; [reflexivity|]. split; [reflexivity|].
  exact (proj1 (unterminated_line_is_dropped demo_parse demo_silent_stream
                  demo_open_stream "data: answer" demo_state
                  eq_refl eq_refl eq_refl)).
Defined.

Lemma other_lines_are_skipped_witness :
  stream_text (reads demo_silent_stream)
  = ("data: searching" +:+ nl) +:+ ("data: ping" +:+ nl)
  ∧ stream_text (reads demo_commented_stream)
    = ("data: searching" +:+ nl) +:+ ": keep-alive" +:+ nl
        +:+ ("data: ping" +:+ nl)
  ∧ (lines_of ("data: searching" +:+ nl)).2 = ""
  ∧ contains_newline ": keep-alive" = false
  ∧ Js.startsWith ": keep-alive" "data: " = false
  ∧ (Streaming.read_loop demo_parse demo_silent_stream
       (reads demo_silent_stream) "" demo_state).2
    = (Streaming.read_loop demo_parse demo_commented_stream
         (reads demo_commented_stream) "" demo_state).2.
Proof.
  split; [reflexivity|]. split; [reflexivity|]. split; [reflexivity|].
  split; [reflexivity|]. split; [reflexivity|].
  exact (proj1 (other_lines_are_skipped demo_parse demo_silent_stream
                  demo_commented_stream ("data: searching" +:+ nl)
                  ": keep-alive" ("data: ping" +:+ nl) demo_state
                  eq_refl eq_refl eq_refl eq_refl eq_refl eq_refl)).
Defined.

Lemma loading_marks_all_but_last_witness :
  loadingDocs demo_state = []
  ∧ data_events demo_parse
      (complete_lines (stream_text (reads demo_loading_stream)))
    = Some <$> progress_events 1 ([demo_doc] ++ [demo_doc])
  ∧ loadingDocs
      (state_of
         (Streaming.read_loop demo_parse demo_loading_stream
            (reads demo_loading_stream) "" demo_state).1)
    = (docDone <$> [demo_doc]) ++ [docPending demo_doc].
Proof.
  split; [reflexivity|]. split; [reflexivity|].
  exact (proj1 (loading_marks_all_but_last demo_parse demo_loading_stream
                  demo_state 1 [demo_doc] demo_doc eq_refl eq_refl)).
Defined.

Lemma elapsed_is_recorded_witness :
  sendable demo_state = true
  ∧ elapsed (Streaming.handleSend "" demo_parse demo_fetch demo_state).1
    = elapsedRef (Streaming.handleSend "" demo_parse demo_fetch demo_state).1.
Proof.
  split; [reflexivity|].
  exact (proj1 (elapsed_is_recorded "" demo_parse demo_fetch demo_state eq_refl)).
Defined.

Lemma buffered_failure_falls_back_witness :
  sendable demo_state = true
  ∧ (∃ t res,
       demo_fetch_json_failing ("" +:+ "/api/query")
         (Buffered.request_body (Js.trim (input demo_state)) demo_state)
       = Response t false res)
  ∧ messages (Buffered.handleSend "" demo_fetch_json_failing demo_state).1
    = [userMessage 1 "What next?"; fallbackMessage 2].
Proof.
  assert (∃ t res,
       demo_fetch_json_failing ("" +:+ "/api/query")
         (Buffered.request_body (Js.trim (input demo_state)) demo_state)
       = Response t false res) as Hf
    by (exists 3, (mkJson 0 None); reflexivity).
  split; [reflexivity|]. split; [exact Hf|].
  destruct (buffered_failure_falls_back "" demo_fetch_json_failing demo_state
              eq_refl) as [Hm _].
  exact (Hm (or_intror (or_introl Hf))).
Defined.

Lemma buffered_answer_shows_previous_elapsed_witness :
  sendable demo_state = true
  ∧ Js.trim "And then?" ≠ ""
  ∧ last
      (messages
         (Buffered.handleSend "" demo_fetch_json
            (typeInput "And then?"
               (Buffered.handleSend "" demo_fetch_json demo_state).1)).1)
    = Some
        (answerMessage
           (S (S (msgIdCounter
                    (Buffered.handleSend "" demo_fetch_json demo_state).1)))
           demo_answer (1 + 1)).
Proof.
  split; [reflexivity|]. split; [discriminate|].
  assert (Js.trim "And then?" ≠ "") as Ht by discriminate.
  exact (proj2 (buffered_answer_shows_previous_elapsed "" demo_fetch_json
                  demo_state 1 1 demo_answer "And then?" 1 1 demo_answer
                  eq_refl eq_refl Ht eq_refl)).
Defined.

Lemma send_goes_through_witness :
  sendable demo_state = true
  ∧ input (Streaming.handleSend "" demo_parse demo_fetch_broken demo_state).1 = ""
  ∧ input (Buffered.handleSend "" demo_fetch_json_failing demo_state).1 = "".
Proof.
  split; [reflexivity|].
  destruct (send_goes_through "" demo_parse demo_fetch_broken
              demo_fetch_json_failing demo_state eq_refl)
    as [(_ & _ & Hs & _) (_ & Hb & _)].
  split; [exact Hs|exact Hb].
Defined.

Lemma answer_handle_round_trip_witness :
  sendable demo_state = true
  ∧ Answer.sources demo_answer ≠ []
  ∧ followUpMsgId demo_state ≠ Some (S (S (msgIdCounter demo_state)))
  ∧ Js.trim "And then?" ≠ ""
  ∧ ∃ m,
      last (messages (Streaming.handleSend "" demo_parse demo_fetch demo_state).1)
      = Some m
      ∧ fetches
          (Streaming.handleSend "" demo_parse demo_fetch
             (typeInput "And then?"
                (clickFollowUp m
                   (Streaming.handleSend "" demo_parse demo_fetch demo_state).1))).2
        = [<["context_id" := VString "h1"]> (question_only "And then?")].
Proof.
  assert (Forall (λ e, is_quiet e = true)
            [EvSearching; EvFound 1; EvLoading demo_doc; EvAnswering]) as Hq
    by (repeat constructor).
  assert (Answer.sources demo_answer ≠ []) as Hs by discriminate.
  assert (followUpMsgId demo_state ≠ Some (S (S (msgIdCounter demo_state))))
    as Hk by discriminate.
  assert (Js.trim "And then?" ≠ "") as Ht by discriminate.
  split; [reflexivity|]. split; [exact Hs|]. split; [exact Hk|].
  split; [exact Ht|].
  exact (answer_handle_round_trip "" demo_parse demo_fetch demo_state 1
           demo_stream [EvSearching; EvFound 1; EvLoading demo_doc; EvAnswering]
           demo_answer "And then?" eq_refl eq_refl eq_refl eq_refl Hq Hs Hk Ht).
Defined.
